(** * meshutils, examples/molecules/main.cpp: solvent excluded surfaces

    A shallow embedding of the molecule example: the chain selector loop,
    the parallel loop [par_for], the grid sizing, the two scalar fields,
    the band search over the sorted surface points, the vertex colouring
    and the naming of the output file.

    Conventions of the embedding.
    - [char] is the signed 8 bit type of the usual x86 ABIs; a C string is a
      [string] (no NUL inside), its terminator is the end of the string.
    - [int] is a 32 bit integer, written as a [Z]: the atomic counter wraps
      around, an operation on plain [int]s whose result leaves the range is
      undefined.
    - [float] values are read as real numbers ([R]): rounding, overflow and
      NaN are left out, every comparison and arithmetic operation is the
      exact one.  The conversion of a float to [int] is partial.
    - Reading a vector outside its bounds is undefined behaviour; the
      embedding returns [None] or a [Fault] outcome there. *)

From Stdlib Require Import ZArith List String Ascii Bool Lia Reals Lra.
From Stdlib Require Import Permutation Sorted Classical_Prop.
From Equations Require Import Equations.
Import ListNotations.

(** ** The chain selector loop (lines 143-152) *)
Module ChainSelector.
Local Open Scope Z_scope.

(** The value of a [char] once promoted to [int]: signed, -128..127. *)
Definition schar (a : ascii) : Z :=
  let n := Z.of_N (N_of_ascii a) in
  if n <? 128 then n else n - 256.

(** Conversion of an [int] back to [char]. *)
Definition to_char (z : Z) : ascii := ascii_of_N (Z.to_N (z mod 256)).

(** [++i] on a [char]: promote, add one, convert back. *)
Definition char_incr (i : Z) : Z := (i + 1 + 128) mod 256 - 128.

Definition dash : ascii := "-"%char.

(** [for (char i = p[1]; i <= p[2]; ++i) addChain(i);]
    The result lists the arguments of [addChain] in call order.  The loop
    state is the single [char] [i], so a run of more than 256 iterations
    never ends: [None] stands for that. *)
Fixpoint range_loop (fuel : nat) (i hi : Z) : option (list ascii) :=
  match fuel with
  | O => None
  | S fuel' =>
      if i <=? hi
      then option_map (cons (to_char i)) (range_loop fuel' (char_incr i) hi)
      else Some []
  end.

Definition range_fuel : nat := 257.

Definition app_opt (l : list ascii) (r : option (list ascii)) : option (list ascii) :=
  option_map (app l) r.

(** The loop over the characters of [chains]: the chain identifiers
    handed to [addChain], in order. *)
Fixpoint expand (p : string) : option (list ascii) :=
  match p with
  | EmptyString => Some []
  | String c rest =>
      match rest with
      | String p1 (String p2 rest') =>
          if Ascii.eqb p1 dash && (schar p2 >=? schar p1)
          then match range_loop range_fuel (schar p1) (schar p2) with
               | Some ids => app_opt ids (expand rest')
               | None => None
               end
          else app_opt [c] (expand rest)
      | _ => app_opt [c] (expand rest)
      end
  end.

(** The run of characters from [lo] up to [hi], both included. *)
Definition char_run (lo hi : Z) : list ascii :=
  map (fun k => to_char (lo + Z.of_nat k)) (seq 0 (Z.to_nat (hi - lo + 1))).

(** Whether a dash occurs in the selector. *)
Definition has_dash (s : string) : bool :=
  existsb (Ascii.eqb dash) (list_ascii_of_string s).

End ChainSelector.

(** ** The parallel loop [par_for] (lines 38-59) *)
Module ParFor.
Local Open Scope Z_scope.

Definition int_max : Z := 2 ^ 31 - 1.
Definition int_min : Z := - 2 ^ 31.

(** [idx++] on the [std::atomic<int>]: the sum wraps around. *)
Definition wrap_int (z : Z) : Z := (z + 2 ^ 31) mod 2 ^ 32 - 2 ^ 31.

(** The result of an operation on plain [int]s: outside the range of
    [int] it is undefined. *)
Definition int_result (z : Z) : option Z :=
  if (int_min <=? z) && (z <=? int_max) then Some z else None.

(** A worker has been started and has not fetched yet, or has claimed [i]
    and is in the call [fn(i)], or has left its loop. *)
Inductive worker : Type :=
| Started
| Calling (i : Z)
| Left.

(** The shared counter, the workers, and the calls [fn(i)] that have
    returned, each with the worker that made it, the latest first. *)
Record state : Type := mkState {
  idx : Z;
  workers : list worker;
  calls : list (Z * nat)
}.

(** [idx = begin], then [num_cpus] futures are started. *)
Definition init (begin : Z) (num_cpus : nat) : state :=
  mkState begin (repeat Started num_cpus) [].

Fixpoint place (cpu : nat) (w : worker) (l : list worker) : list worker :=
  match l, cpu with
  | [], _ => []
  | _ :: t, O => w :: t
  | v :: t, S c => v :: place c w t
  end.

(** [int i = idx++; if (i >= end) break;] and, if the worker stays, the
    entry into [fn(i)].  ([printf] and [fflush] are left out.) *)
Definition claim (end_ : Z) (cpu : nat) (s : state) (done : list (Z * nat)) : state :=
  let i := idx s in
  mkState (wrap_int (i + 1))
          (place cpu (if i >=? end_ then Left else Calling i) (workers s))
          done.

(** One turn of worker [cpu] reaches from one fetch to the next: the call
    [fn(i)] it was in, if any, returns, and the worker fetches again.  Only
    the fetch is atomic.  Between two turns of a worker the other workers
    take theirs, so the calls of different workers overlap, and they return
    in any order.  A worker that has left its loop takes no further turn. *)
Definition worker_step (end_ : Z) (cpu : nat) (s : state) : option state :=
  match nth_error (workers s) cpu with
  | Some Started => Some (claim end_ cpu s (calls s))
  | Some (Calling i) => Some (claim end_ cpu s ((i, cpu) :: calls s))
  | _ => None
  end.

(** A schedule names the worker that takes each successive turn. *)
Fixpoint run (end_ : Z) (sched : list nat) (s : state) : option state :=
  match sched with
  | [] => Some s
  | cpu :: rest =>
      match worker_step end_ cpu s with
      | Some s' => run end_ rest s'
      | None => None
      end
  end.

Definition has_left (w : worker) : bool :=
  match w with
  | Left => true
  | _ => false
  end.

(** Every [futures[cpu].get()] has returned: [par_for] returns. *)
Definition returned (s : state) : bool := forallb has_left (workers s).

(** The indices of the calls that have returned, in the order in which
    their workers went on. *)
Definition invoked (s : state) : list Z := rev (map fst (calls s)).

(** The indices of the calls the workers are in. *)
Fixpoint in_call (ws : list worker) : list Z :=
  match ws with
  | [] => []
  | Calling i :: t => i :: in_call t
  | _ :: t => in_call t
  end.

(** Every index claimed so far: its call has returned or a worker is in
    it. *)
Definition claimed (s : state) : list Z := invoked s ++ in_call (workers s).

(** The index a worker is calling [fn] on, and whether it has left. *)
Definition call_of (w : worker) : list Z :=
  match w with
  | Calling i => [i]
  | _ => []
  end.
Definition left_of (w : worker) : nat := if has_left w then 1%nat else 0%nat.

(** The number of indices claimed. *)
Definition taken (s : state) : nat :=
  (List.length (calls s) + List.length (in_call (workers s)))%nat.

(** The indices [begin], ..., [end - 1]. *)
Definition index_range (begin end_ : Z) : list Z :=
  map (fun k => begin + Z.of_nat k) (seq 0 (Z.to_nat (end_ - begin))).

(** Number of workers that have left their loop. *)
Definition retired (l : list worker) : nat := List.length (filter has_left l).
Arguments retired : simpl never.

(** Each turn is a fetch: it claims an index or makes a worker leave. *)
Definition progress_of (s : state) : nat :=
  (List.length (calls s) + List.length (in_call (workers s)) + retired (workers s))%nat.

(** A state that some schedule leads to. *)
Definition reachable (begin end_ : Z) (num_cpus : nat) (s : state) : Prop :=
  exists sched, run end_ sched (init begin num_cpus) = Some s.

(** A whole run of [par_for] under a scheduler: the workers take the turns
    that [sched] names, a name that stands for no worker inside its loop
    being passed over; then the workers still inside take turns, the first
    of them each time, until none is left. *)
Fixpoint follow (end_ : Z) (sched : list nat) (s : state) : state :=
  match sched with
  | [] => s
  | cpu :: rest =>
      match worker_step end_ cpu s with
      | Some s' => follow end_ rest s'
      | None => follow end_ rest s
      end
  end.

Fixpoint first_inside (ws : list worker) : option nat :=
  match ws with
  | [] => None
  | Left :: t => option_map S (first_inside t)
  | _ :: _ => Some O
  end.

Fixpoint drain (fuel : nat) (end_ : Z) (s : state) : state :=
  match fuel with
  | O => s
  | S fuel' =>
      match first_inside (workers s) with
      | None => s
      | Some cpu =>
          match worker_step end_ cpu s with
          | Some s' => drain fuel' end_ s'
          | None => s
          end
      end
  end.

(** [par_for(begin, end, fn)] with [num_cpus] the value of
    [hardware_concurrency()]: the indices [fn] was called with, each call
    listed when its worker went on to its next fetch.  The number of turns
    allowed is enough for every run whose counter does not pass the largest
    [int]; a run whose counter wraps is not followed further ([None]). *)
Definition par_for (begin end_ : Z) (num_cpus : nat) (sched : list nat)
  : option (list Z) :=
  let s := drain (Z.to_nat (Z.max begin end_ - begin) + num_cpus) end_
                 (follow end_ sched (init begin num_cpus)) in
  if returned s then Some (invoked s) else None.

End ParFor.

(** ** Command line and output file name (lines 63-105, 312-326) *)
Module CommandLine.
Local Open Scope string_scope.

Record options : Type := mkOptions {
  pdb_filename : option string;
  output_path : string;
  grid_spacing_text : string;
  error : bool;
  list_chains : bool;
  chains : string
}.

Definition defaults : options :=
  mkOptions None "" "0.25" false false "A-Z".

Definition starts_with_dash (arg : string) : bool :=
  match arg with
  | String c _ => Ascii.eqb c "-"%char
  | EmptyString => false
  end.

(** The loop over [argv[1]], ..., [argv[argc-1]].  [i < argc-1] holds when
    an argument follows the current one. *)
Fixpoint parse (args : list string) (o : options) : options :=
  match args with
  | [] => o
  | arg :: rest =>
      let plain :=
        if arg =? "--help" then
          parse rest (mkOptions (pdb_filename o) (output_path o) (grid_spacing_text o)
                                true (list_chains o) (chains o))
        else if arg =? "--list-chains" then
          parse rest (mkOptions (pdb_filename o) (output_path o) (grid_spacing_text o)
                                (error o) true (chains o))
        else if starts_with_dash arg then
          parse rest (mkOptions (pdb_filename o) (output_path o) (grid_spacing_text o)
                                true (list_chains o) (chains o))
        else
          parse rest (mkOptions (Some arg) (output_path o) (grid_spacing_text o)
                                (match pdb_filename o with Some _ => true | None => error o end)
                                (list_chains o) (chains o))
      in
      match rest with
      | value :: rest' =>
          if arg =? "--grid-spacing" then
            parse rest' (mkOptions (pdb_filename o) (output_path o) value
                                   (error o) (list_chains o) (chains o))
          else if arg =? "--chains" then
            parse rest' (mkOptions (pdb_filename o) (output_path o) (grid_spacing_text o)
                                   (error o) (list_chains o) value)
          else if arg =? "-o" then
            parse rest' (mkOptions (pdb_filename o) value (grid_spacing_text o)
                                   (error o) (list_chains o) (chains o))
          else plain
      | [] => plain
      end
  end.

Definition is_slash (c : ascii) : bool :=
  Ascii.eqb c "/"%char || Ascii.eqb c "\"%char.

(** First scan of the file name: [last_slash = p + 1] at every slash or
    backslash.  A pointer into the name is the rest of the name from there. *)
Fixpoint scan_slash (p last_slash : string) : string :=
  match p with
  | EmptyString => last_slash
  | String c rest =>
      if is_slash c then scan_slash rest rest else scan_slash rest last_slash
  end.

(** Second scan, from [last_slash]: [last_dot = p] at every dot.
    [at_] is the offset of [p] from [last_slash], and so is the result. *)
Fixpoint scan_dot (p : string) (at_ last_dot : nat) : nat :=
  match p with
  | EmptyString => last_dot
  | String c rest =>
      if Ascii.eqb c "."%char then scan_dot rest (S at_) at_
      else scan_dot rest (S at_) last_dot
  end.

(** [stem.assign(last_slash, last_dot)] *)
Definition stem (filename : string) : string :=
  let last_slash := scan_slash filename filename in
  let last_dot := scan_dot last_slash 0 (String.length last_slash) in
  substring 0 last_dot last_slash.

(** [fmt]: [snprintf] into [static char buf[256]] keeps at most 255
    characters of the formatted text. *)
Definition buf_size : nat := 256.
Definition snprintf (size : nat) (text : string) : string :=
  substring 0 (size - 1) text.

Definition fmt_fbx (stem_ chains_ spacing_ : string) : string :=
  snprintf buf_size (stem_ ++ "_" ++ chains_ ++ "_" ++ spacing_ ++ ".fbx").

(** The name handed to [std::ofstream]. *)
Definition out_filename (filename : string) (o : options) : string :=
  fmt_fbx (stem filename) (chains o) (grid_spacing_text o).

(** No character of [s] passes the test [f]. *)
Fixpoint free_of (f : ascii -> bool) (s : string) : bool :=
  match s with
  | EmptyString => true
  | String c rest => negb (f c) && free_of f rest
  end.

Definition is_dot (c : ascii) : bool := Ascii.eqb c "."%char.

(** In the words of the description: [st] is the file name with the
    directory and the extension stripped.  The directory is everything up
    to the last slash or backslash; the extension runs from the last dot
    after it to the end. *)
Definition is_stem (filename st : string) : Prop :=
  exists dir ext,
    filename = dir ++ st ++ ext /\
    (dir = "" \/ exists d c, dir = d ++ String c "" /\ is_slash c = true) /\
    free_of is_slash (st ++ ext) = true /\
    ((ext = "" /\ free_of is_dot st = true) \/
     (exists e, ext = String "." e /\ free_of is_dot e = true)).

(** Two option records that differ in [output_path] at most. *)
Definition same_but_output (o1 o2 : options) : Prop :=
  pdb_filename o1 = pdb_filename o2 /\
  grid_spacing_text o1 = grid_spacing_text o2 /\
  error o1 = error o2 /\
  list_chains o1 = list_chains o2 /\
  chains o1 = chains o2.

(** The text [fmt] is asked to write. *)
Definition full_name (filename : string) (o : options) : string :=
  stem filename ++ "_" ++ chains o ++ "_" ++ grid_spacing_text o ++ ".fbx".

End CommandLine.

(** ** Vectors of floats, [std::min], [std::max] and their glm versions *)
Module Geometry.
Local Open Scope R_scope.

Record vec3 : Type := mkVec3 { vx : R; vy : R; vz : R }.
Record vec4 : Type := mkVec4 { cx : R; cy : R; cz : R; cw : R }.

(** [a < b] on floats, as a boolean. *)
Definition Rltb (a b : R) : bool := if Rlt_dec a b then true else false.
Definition Rleb (a b : R) : bool := if Rle_dec a b then true else false.
Definition Reqb (a b : R) : bool := if Req_dec_T a b then true else false.

(** [std::min(a, b)] is [(b < a) ? b : a], [std::max(a, b)] is
    [(a < b) ? b : a]; [glm::min] and [glm::max] apply the same tests to
    every component. *)
Definition fmin (a b : R) : R := if Rltb b a then b else a.
Definition fmax (a b : R) : R := if Rltb a b then b else a.

Definition vmin (a b : vec3) : vec3 :=
  mkVec3 (fmin (vx a) (vx b)) (fmin (vy a) (vy b)) (fmin (vz a) (vz b)).
Definition vmax (a b : vec3) : vec3 :=
  mkVec3 (fmax (vx a) (vx b)) (fmax (vy a) (vy b)) (fmax (vz a) (vz b)).

Definition vsub (a b : vec3) : vec3 :=
  mkVec3 (vx a - vx b) (vy a - vy b) (vz a - vz b).
(** [p - glm::vec3(r)], [p + glm::vec3(r)], and [v -= s], [v += s]. *)
Definition vsubs (a : vec3) (s : R) : vec3 := mkVec3 (vx a - s) (vy a - s) (vz a - s).
Definition vadds (a : vec3) (s : R) : vec3 := mkVec3 (vx a + s) (vy a + s) (vz a + s).

Definition dot (a b : vec3) : R := vx a * vx b + vy a * vy b + vz a * vz b.

(** [glm::dot(xyz - p, xyz - p)] *)
Definition dist2 (xyz p : vec3) : R := dot (vsub xyz p) (vsub xyz p).

Definition dot4 (a b : vec4) : R :=
  cx a * cx b + cy a * cy b + cz a * cz b + cw a * cw b.
Definition vadd4 (a b : vec4) : vec4 :=
  mkVec4 (cx a + cx b) (cy a + cy b) (cz a + cz b) (cw a + cw b).
Definition vscale4 (a : vec4) (s : R) : vec4 :=
  mkVec4 (cx a * s) (cy a * s) (cz a * s) (cw a * s).
Definition set_w (a : vec4) (w : R) : vec4 := mkVec4 (cx a) (cy a) (cz a) w.

Definition vec4_eqb (a b : vec4) : bool :=
  Reqb (cx a) (cx b) && Reqb (cy a) (cy b) && Reqb (cz a) (cz b) && Reqb (cw a) (cw b).

(** [glm::normalize(v)] is [v * inversesqrt(dot(v, v))].  On a vector of
    length zero the float computation multiplies zero by infinity: every
    component is NaN, which is [None] here. *)
Definition normalize (v : vec4) : option vec4 :=
  let d := dot4 v v in
  if Reqb d 0 then None else Some (vscale4 v (1 / sqrt d)).

(** The literal [1e37f]. *)
Definition huge : R := 10 ^ 37.

(** Conversion of a float to [int]: the fraction is dropped; a value whose
    integer part is no [int] has no defined conversion. *)
Definition truncate (x : R) : Z :=
  if Rltb x 0 then (- Zfloor (- x))%Z else Zfloor x.
Definition int_of_float (x : R) : option Z :=
  let t := truncate x in
  if ((ParFor.int_min <=? t) && (t <=? ParFor.int_max))%Z then Some t else None.

End Geometry.

(** ** Collecting the atoms of the chosen chains (lines 130-167) *)
Module Atoms.
Import Geometry.
Local Open Scope R_scope.

(** What the constructor uses of [meshutils::pdb_decoder]. *)
Record pdb_decoder : Type := mkDecoder {
  pdb_chains : string;
  pdb_pos : ascii -> list vec3;
  pdb_radii : ascii -> list R;
  pdb_colorsByFunction : ascii -> list vec4
}.

(** The three vectors [pos], [radii], [colors]. *)
Record atoms : Type := mkAtoms {
  pos : list vec3;
  radii : list R;
  colors : list vec4
}.

Definition no_atoms : atoms := mkAtoms [] [] [].

Definition addChain (pdb : pdb_decoder) (a : atoms) (chainID : ascii) : atoms :=
  mkAtoms (pos a ++ pdb_pos pdb chainID)
          (radii a ++ pdb_radii pdb chainID)
          (colors a ++ pdb_colorsByFunction pdb chainID).

(** The chain loop with its calls of [addChain]; [None] when a range loop
    does not end. *)
Definition collect (pdb : pdb_decoder) (chains : string) : option atoms :=
  match ChainSelector.expand chains with
  | Some ids => Some (fold_left (addChain pdb) ids no_atoms)
  | None => None
  end.

End Atoms.

(** ** Vectors of floats and counted loops *)
Module Store.
Local Open Scope Z_scope.

(** [std::vector<float> v(n)] for an [int] [n]: [n] zeros.  A negative [n]
    becomes a size beyond [max_size()] and the constructor throws; memory is
    taken to suffice for every other size. *)
Definition vec_new (n : Z) : option (list R) :=
  if n <? 0 then None else Some (repeat 0%R (Z.to_nat n)).

Fixpoint list_set (v : list R) (n : nat) (x : R) : option (list R) :=
  match v, n with
  | [], _ => None
  | _ :: t, O => Some (x :: t)
  | h :: t, S n' => option_map (cons h) (list_set t n' x)
  end.

(** [v[i]] and [v[i] = x]; an index outside the vector is undefined. *)
Definition vec_get (v : list R) (i : Z) : option R :=
  if i <? 0 then None else nth_error v (Z.to_nat i).
Definition vec_set (v : list R) (i : Z) (x : R) : option (list R) :=
  if i <? 0 then None else list_set v (Z.to_nat i) x.

Definition bind {A B : Type} (m : option A) (k : A -> option B) : option B :=
  match m with
  | Some a => k a
  | None => None
  end.

(** [count] turns of a loop body from index [i] on. *)
Fixpoint for_from {S : Type} (count : nat) (i : Z) (body : Z -> S -> option S) (s : S)
  : option S :=
  match count with
  | O => Some s
  | Datatypes.S c => bind (body i s) (for_from c (i + 1) body)
  end.

(** [for (int i = 0; i != n; ++i) body].  With a negative [n] the counter
    runs into the overflow of [int]. *)
Definition for_upto {S : Type} (n : Z) (body : Z -> S -> option S) (s : S) : option S :=
  if n <? 0 then None else for_from (Z.to_nat n) 0 body s.

(** The body run once for each index of [zs], in that order: what a
    [par_for] whose calls were [zs] leaves behind. *)
Fixpoint for_each {S : Type} (zs : list Z) (body : Z -> S -> option S) (s : S)
  : option S :=
  match zs with
  | [] => Some s
  | z :: zs' => bind (body z s) (for_each zs' body)
  end.

(** [a'] is [a] with the entries at the indices of [region] replaced by
    the values of [target]. *)
Definition fills (region : Z -> Prop) (target : Z -> R) (a a' : list R) : Prop :=
  List.length a' = List.length a /\
  (forall j, region j -> vec_get a' j = Some (target j)) /\
  (forall j, ~ region j -> vec_get a' j = vec_get a j).

End Store.

(** ** Sizing the grid (lines 169-195) *)
Module Grid.
Import Geometry Store.
Local Open Scope R_scope.

Definition water_radius : R := 2.

(** The loop over [i] of the bounding box; [radii[i]] must exist. *)
Fixpoint bbox_loop (pos : list vec3) (radii : list R) (min max : vec3)
  : option (vec3 * vec3) :=
  match pos with
  | [] => Some (min, max)
  | p :: pos' =>
      match radii with
      | [] => None
      | r :: radii' =>
          bbox_loop pos' radii' (vmin min (vsubs p r)) (vmax max (vadds p r))
      end
  end.

(** [min = pos[0]; max = pos[0];] then the loop.  Reading [pos[0]] of an
    empty vector is undefined. *)
Definition bounding_box (pos : list vec3) (radii : list R) : option (vec3 * vec3) :=
  match pos with
  | [] => None
  | p0 :: _ => bbox_loop pos radii p0 p0
  end.

(** [max_radius = 0; for (auto r : radii) max_radius = std::max(max_radius, r);] *)
Definition max_radius (radii : list R) : R := fold_left fmax radii 0.

(** The result of the sizing: the dimensions, the two corners after the
    padding, and the spacing.  The later stages use the dimensions, the
    minimum corner and the spacing. *)
Record grid : Type := mkGrid {
  xdim : Z;
  ydim : Z;
  zdim : Z;
  gmin : vec3;
  gmax : vec3;
  grid_spacing : R
}.

(** Lines 169-190 with every float operation read as the exact one.  The
    program rounds each operation to [float]; the corners it computes are
    those of this definition up to that rounding, and where the exact value
    of [(max - min) * recip_gs + 1] lies within the rounding of an integer
    the dimension the program computes can be the neighbouring one. *)
Definition grid_extents (pos : list vec3) (radii : list R) (spacing : R)
  : option grid :=
  match bounding_box pos radii with
  | None => None
  | Some (min0, max0) =>
      let recip_gs := 1 / spacing in
      let min := vsubs min0 (water_radius + max_radius radii) in
      let max := vadds max0 (water_radius + max_radius radii) in
      match int_of_float ((vx max - vx min) * recip_gs + 1),
            int_of_float ((vy max - vy min) * recip_gs + 1),
            int_of_float ((vz max - vz min) * recip_gs + 1) with
      | Some xd, Some yd, Some zd => Some (mkGrid xd yd zd min max spacing)
      | _, _, _ => None
      end
  end.

(** The lambda [idx]: [((z * (ydim+1)) + y) * (xdim+1) + x], every
    operation on [int]s. *)
Definition idx (g : grid) (x y z : Z) : option Z :=
  bind (ParFor.int_result (ydim g + 1)) (fun y1 =>
  bind (ParFor.int_result (z * y1)) (fun zy =>
  bind (ParFor.int_result (zy + y)) (fun row =>
  bind (ParFor.int_result (xdim g + 1)) (fun x1 =>
  bind (ParFor.int_result (row * x1)) (fun base =>
  ParFor.int_result (base + x))))))%Z.

(** [(xdim+1)*(ydim+1)*(zdim+1)] on [int]s: the number of grid vertices,
    the size of both field vectors. *)
Definition vertex_count (g : grid) : option Z :=
  bind (ParFor.int_result (xdim g + 1)) (fun x1 =>
  bind (ParFor.int_result (ydim g + 1)) (fun y1 =>
  bind (ParFor.int_result (x1 * y1)) (fun xy =>
  bind (ParFor.int_result (zdim g + 1)) (fun z1 =>
  ParFor.int_result (xy * z1)))))%Z.

(** The same two numbers in exact arithmetic: what [idx] and the vertex
    count are as long as no operation leaves the range of [int]. *)
Definition flat (g : grid) (x y z : Z) : Z :=
  (((z * (ydim g + 1)) + y) * (xdim g + 1) + x)%Z.
Definition vertices (g : grid) : Z :=
  ((xdim g + 1) * (ydim g + 1) * (zdim g + 1))%Z.

(** [glm::vec3 xyz(x * grid_spacing + min.x, y * grid_spacing + min.y,
    z * grid_spacing + min.z)] for float coordinates. *)
Definition world (g : grid) (x y z : R) : vec3 :=
  mkVec3 (x * grid_spacing g + vx (gmin g))
         (y * grid_spacing g + vy (gmin g))
         (z * grid_spacing g + vz (gmin g)).

(** The same for a grid vertex. *)
Definition vertex (g : grid) (x y z : Z) : vec3 := world g (IZR x) (IZR y) (IZR z).

(** [v] is the least of the values of [l]. *)
Definition is_least (v : R) (l : list R) : Prop :=
  In v l /\ forall w, In w l -> v <= w.

(** The values [position[i] - radius[i]] and [position[i] + radius[i]] of
    one coordinate. *)
Definition lower (coord : vec3 -> R) (pos : list vec3) (radii : list R) : list R :=
  map (fun pr => coord (fst pr) - snd pr) (combine pos radii).
Definition upper (coord : vec3 -> R) (pos : list vec3) (radii : list R) : list R :=
  map (fun pr => coord (fst pr) + snd pr) (combine pos radii).

(** [floor((max_corner - min_corner) / spacing) + 1] *)
Definition dimension (lo hi spacing : R) : Z :=
  (Zfloor ((hi - lo) / spacing) + 1)%Z.

Definition fits_int (d : Z) : bool := (d <=? ParFor.int_max)%Z.

(** The vertices of the grid. *)
Definition in_grid (g : grid) (x y z : Z) : Prop :=
  (0 <= x <= xdim g /\ 0 <= y <= ydim g /\ 0 <= z <= zdim g)%Z.

(** The vertex stored at index [j]. *)
Definition coords (g : grid) (j : Z) : Z * Z * Z :=
  (j mod (xdim g + 1),
   (j / (xdim g + 1)) mod (ydim g + 1),
   j / (xdim g + 1) / (ydim g + 1))%Z.

End Grid.

(** ** The accessible field (lines 197-216) *)
Module Accessible.
Import Geometry Grid Store.
Local Open Scope R_scope.

(** The loop over the atoms: [value = std::min(value, d2 - r2)]. *)
Fixpoint atom_loop (xyz : vec3) (pos : list vec3) (radii : list R) (value : R)
  : option R :=
  match pos with
  | [] => Some value
  | p :: pos' =>
      match radii with
      | [] => None
      | r :: radii' =>
          let d2 := dist2 xyz p in
          let r2 := (r + water_radius) * (r + water_radius) in
          atom_loop xyz pos' radii' (fmin value (d2 - r2))
      end
  end.

(** The value stored for one vertex. *)
Definition accessible_value (pos : list vec3) (radii : list R) (xyz : vec3) : option R :=
  atom_loop xyz pos radii huge.

(** The body handed to [par_for]: one slab of constant [z].  The bounds
    [ydim+1] and [xdim+1] of the two loops are [int]s. *)
Definition accessible_slab (g : grid) (pos : list vec3) (radii : list R)
  (z : Z) (accessible : list R) : option (list R) :=
  bind (ParFor.int_result (ydim g + 1)) (fun y_end =>
  for_upto y_end (fun y accessible =>
    bind (ParFor.int_result (xdim g + 1)) (fun x_end =>
    for_upto x_end (fun x accessible =>
      bind (accessible_value pos radii (vertex g x y z)) (fun value =>
      bind (idx g x y z) (fun j =>
        vec_set accessible j value)))
      accessible))
    accessible).

(** [std::vector<float> accessible((xdim+1)*(ydim+1)*(zdim+1))], and the
    vector after [par_for] has called the body on the indices [zs]. *)
Definition accessible_field (g : grid) (pos : list vec3) (radii : list R)
  (zs : list Z) : option (list R) :=
  bind (vertex_count g) (fun n =>
  bind (vec_new n) (for_each zs (accessible_slab g pos radii))).

(** The terms [d2 - r2] of the atoms seen from [xyz]. *)
Definition atom_terms (xyz : vec3) (pos : list vec3) (radii : list R) : list R :=
  map (fun pr => dist2 xyz (fst pr) - (snd pr + water_radius) * (snd pr + water_radius))
      (combine pos radii).

(** The value the loop over the atoms leaves for the vertex stored at
    index [j]. *)
Definition target (g : grid) (pos : list vec3) (radii : list R) (j : Z) : R :=
  let '(x, y, z) := coords g j in
  fold_left fmin (atom_terms (vertex g x y z) pos radii) huge.

End Accessible.

(** ** The band of surface points (lines 229-260) *)
Module Band.
Import Geometry Grid Store.
Local Open Scope R_scope.

Definition cmpz (a b : vec3) : bool := Rltb (vz a) (vz b).

(** The search loop shared by [std::lower_bound] and [std::upper_bound]:
    [len] elements from [first] on are left; the middle one is tested and
    one half is dropped.  [before a] says that the result lies after [a]. *)
Equations? bsearch {A : Type} (before : A -> bool) (l : list A) (first len : nat)
  : option nat by wf len lt :=
  bsearch before l first 0 := Some first;
  bsearch before l first (S n) with nth_error l (first + Nat.div2 (S n)) => {
    | Some a with before a => {
      | true := bsearch before l (first + Nat.div2 (S n) + 1) (S n - Nat.div2 (S n) - 1);
      | false := bsearch before l first (Nat.div2 (S n)) };
    | None := None }.
Proof.
  all: destruct n as [|n']; simpl; try lia.
  all: pose proof (Nat.div2_decr n' n' ltac:(lia)); destruct (Nat.div2 n'); lia.
Qed.

(** First element that is not less than [value]. *)
Definition lower_bound {A : Type} (l : list A) (value : A) (comp : A -> A -> bool)
  : option nat :=
  bsearch (fun a => comp a value) l 0 (List.length l).

(** First element that [value] is less than. *)
Definition upper_bound {A : Type} (l : list A) (value : A) (comp : A -> A -> bool)
  : option nat :=
  bsearch (fun a => negb (comp value a)) l 0 (List.length l).

(** The elements visited by [for (auto r = p; r != q; ++r)]: with [q]
    before [p] the iterator leaves the vector. *)
Definition between {A : Type} (l : list A) (p q : nat) : option (list A) :=
  if (q <? p)%nat then None else Some (firstn (q - p) (skipn p l)).

(** The margin [water_radius + grid_spacing]. *)
Definition margin (g : grid) : R := water_radius + grid_spacing g.

(** The filter by [y]: [std::abs(r->y - ypos) <= water_radius + grid_spacing]. *)
Definition near_y (g : grid) (ypos : R) (r : vec3) : bool :=
  Rleb (Rabs (vy r - ypos)) (margin g).

(** The iterators [p] and [q] of the slab at [zpos]. *)
Definition band_begin (g : grid) (zsorter : list vec3) (zpos : R) : option nat :=
  lower_bound zsorter (mkVec3 0 0 (zpos - margin g)) cmpz.
Definition band_end (g : grid) (zsorter : list vec3) (zpos : R) : option nat :=
  upper_bound zsorter (mkVec3 0 0 (zpos + margin g)) cmpz.

(** [ysorter] for the row at [ypos]: the points from [p] to [q] that pass
    the filter. *)
Definition ysorter_of (g : grid) (zsorter : list vec3) (p q : nat) (ypos : R)
  : option (list vec3) :=
  option_map (filter (near_y g ypos)) (between zsorter p q).

(** Both stages of the query for a target [(zpos, ypos)]. *)
Definition y_band (g : grid) (zsorter : list vec3) (zpos ypos : R) : option (list vec3) :=
  bind (band_begin g zsorter zpos) (fun p =>
  bind (band_end g zsorter zpos) (fun q =>
  ysorter_of g zsorter p q ypos)).

(** In the words of the description: one pass over all points, keeping
    those with [z] in [[zpos - m, zpos + m]] and [y] within [m] of [ypos]. *)
Definition in_z_range (g : grid) (zpos : R) (r : vec3) : bool :=
  Rleb (zpos - margin g) (vz r) && Rleb (vz r) (zpos + margin g).
Definition brute_force (g : grid) (points : list vec3) (zpos ypos : R) : list vec3 :=
  filter (fun r => in_z_range g zpos r && near_y g ypos r) points.

(** The tests of the two searches: the point lies before the band, the
    point does not lie after it. *)
Definition below (g : grid) (zpos : R) (a : vec3) : bool :=
  cmpz a (mkVec3 0 0 (zpos - margin g)).
Definition upto (g : grid) (zpos : R) (a : vec3) : bool :=
  negb (cmpz (mkVec3 0 0 (zpos + margin g)) a).

(** Ascending by [z], as [std::sort] with [cmpz] leaves the vector: no
    later point is less than an earlier one. *)
Definition sorted_by_z (l : list vec3) : Prop :=
  StronglySorted (fun a b => vz a <= vz b) l.

(** [std::sort(zsorter.begin(), zsorter.end(), cmpz)]: the points in an
    ascending arrangement.  [std::sort] leaves the order of points of equal
    [z] open; they are arranged here as an insertion sort does. *)
Fixpoint insert_by_z (a : vec3) (l : list vec3) : list vec3 :=
  match l with
  | [] => [a]
  | b :: t => if cmpz a b then a :: l else b :: insert_by_z a t
  end.
Definition sort_by_z (l : list vec3) : list vec3 := fold_right insert_by_z [] l.

End Band.

(** ** The excluded field (lines 240-283) *)
Module Excluded.
Import Geometry Grid Store Band.
Local Open Scope R_scope.

Definition outside_value : R := - (water_radius * water_radius).

(** The innermost block: the value stored for one vertex, from the
    accessible value there and the row's [ysorter]. *)
Definition excluded_value (accessible_here : R) (ysorter : list vec3) (xyz : vec3) : R :=
  if Rltb accessible_here 0 then
    let value := fold_left (fun value r => fmin value (dist2 xyz r)) ysorter huge in
    if Reqb value huge then outside_value
    else value - water_radius * water_radius
  else outside_value.

(** The body handed to the second [par_for]. *)
Definition excluded_slab (g : grid) (zsorter : list vec3) (accessible : list R)
  (z : Z) (excluded : list R) : option (list R) :=
  let zpos := IZR z * grid_spacing g + vz (gmin g) in
  bind (band_begin g zsorter zpos) (fun p =>
  bind (band_end g zsorter zpos) (fun q =>
    bind (ParFor.int_result (ydim g + 1)) (fun y_end =>
    for_upto y_end (fun y excluded =>
      let ypos := IZR y * grid_spacing g + vy (gmin g) in
      bind (ysorter_of g zsorter p q ypos) (fun ysorter =>
        bind (ParFor.int_result (xdim g + 1)) (fun x_end =>
        for_upto x_end (fun x excluded =>
          let xyz := mkVec3 (IZR x * grid_spacing g + vx (gmin g)) ypos zpos in
          bind (idx g x y z) (fun j =>
          bind (vec_get accessible j) (fun a =>
          bind (idx g x y z) (fun k =>
            vec_set excluded k (excluded_value a ysorter xyz)))))
          excluded)))
      excluded))).

(** [std::vector<float> excluded((xdim+1)*(ydim+1)*(zdim+1))], and the
    vector after the second [par_for]. *)
Definition excluded_field (g : grid) (zsorter : list vec3) (accessible : list R)
  (zs : list Z) : option (list R) :=
  bind (vertex_count g) (fun n =>
  bind (vec_new n) (for_each zs (excluded_slab g zsorter accessible))).

(** The value the second fill leaves for the vertex stored at index [j]:
    the innermost block run on the accessible value stored there and on
    the points that one pass over all points keeps for the vertex. *)
Definition etarget (g : grid) (zsorter : list vec3) (accessible : list R) (j : Z) : R :=
  let '(x, y, z) := coords g j in
  let xyz := vertex g x y z in
  excluded_value (nth (Z.to_nat j) accessible 0)
                 (brute_force g zsorter (vz xyz) (vy xyz)) xyz.

End Excluded.

(** ** Vertex colours (lines 154-167, 289-308) *)
Module Colour.
Import Geometry Grid Atoms.
Local Open Scope R_scope.

Record colored_atom : Type := mkColored {
  color : vec4;
  apos : vec3;
  radius : R
}.

Definition white : vec4 := mkVec4 1 1 1 1.

(** The loop over [colors]: for a colour that is not [white] the atom is
    kept with [pos[i]] and [radii[i]], which must exist. *)
Fixpoint colored_loop (colors : list vec4) (pos : list vec3) (radii : list R)
  : option (list colored_atom) :=
  match colors with
  | [] => Some []
  | c :: colors' =>
      if vec4_eqb c white then colored_loop colors' (tl pos) (tl radii)
      else
        match pos, radii with
        | p :: _, r :: _ =>
            option_map (cons (mkColored c p r)) (colored_loop colors' (tl pos) (tl radii))
        | _, _ => None
        end
  end.

Definition colored_atoms (a : atoms) : option (list colored_atom) :=
  colored_loop (colors a) (pos a) (radii a).

(** [weight = (r*r*4 - d2) * 1.0f] *)
Definition weight_of (xyz : vec3) (a : colored_atom) : R :=
  (radius a * radius a * 4 - dist2 xyz (apos a)) * 1.

(** One turn of the loop over the coloured atoms. *)
Definition blend_step (xyz : vec3) (color_ : vec4) (a : colored_atom) : vec4 :=
  let weight := weight_of xyz a in
  if Rltb 0 weight
  then vadd4 color_ (vscale4 (color a) (fmax 0 (fmin weight 1)))
  else color_.

(** The sum when the loop is left, and the vector handed to
    [glm::normalize] after [color.w = 0]. *)
Definition blend (xyz : vec3) (atoms_ : list colored_atom) : vec4 :=
  fold_left (blend_step xyz) atoms_ (mkVec4 1 1 1 1).
Definition to_normalize (xyz : vec3) (atoms_ : list colored_atom) : vec4 :=
  set_w (blend xyz atoms_) 0.

(** The colour of the vertex made at [xyz]. *)
Definition egen_color (atoms_ : list colored_atom) (xyz : vec3) : option vec4 :=
  option_map (fun c => set_w c 1) (normalize (to_normalize xyz atoms_)).

(** The lambda [egen], as far as the colour goes. *)
Definition egen (g : grid) (atoms_ : list colored_atom) (x y z : R) : option vec4 :=
  egen_color atoms_ (world g x y z).

(** Two colours have the same hue when the red, green and blue channels of
    one are those of the other scaled by a positive factor and shifted by
    a common amount: mixing with grey and changing brightness keep the
    hue, and nothing else does. *)
Definition same_hue (c d : vec4) : Prop :=
  exists k s : R, 0 < k /\
    cx d = k * cx c + s /\ cy d = k * cy c + s /\ cz d = k * cz c + s.

(** Red, green and blue are not negative. *)
Definition nonneg_rgb (c : vec4) : Prop := 0 <= cx c /\ 0 <= cy c /\ 0 <= cz c.

(** Red, green and blue are at least 1. *)
Definition above_white (c : vec4) : Prop := 1 <= cx c /\ 1 <= cy c /\ 1 <= cz c.

(** [normalize] applied to white without its alpha, alpha forced to 1. *)
Definition normalized_white : vec4 :=
  mkVec4 (1 / sqrt 3) (1 / sqrt 3) (1 / sqrt 3) 1.

Ltac vec_simpl :=
  cbn [vx vy vz cx cy cz cw set_w vadd4 vscale4 vsub vsubs vadds
       color apos radius fold_left option_map].

End Colour.

(** ** The constructor as a whole *)
Module Program.
Import Geometry Grid Store Atoms Accessible Band Excluded CommandLine.

(** What the constructor takes from outside: [atof]; the decoder built
    from the bytes of the named file; the value of
    [hardware_concurrency()] and the scheduler's choices during the two
    calls of [par_for]; and the positions of the vertices that
    [meshutils::pos_mesh] makes from the grid and the accessible field. *)
Record environment : Type := mkEnv {
  atof : string -> R;
  decode : string -> pdb_decoder;
  hardware_concurrency : nat;
  first_schedule : list nat;
  second_schedule : list nat;
  pos_mesh : grid -> list R -> list vec3
}.

(** How a run ends.  [Fault] is undefined behaviour or an exception that
    nothing catches (a vector read outside its bounds, a float with no
    [int] value, an [int] operation that overflows, a vector of negative
    size); [Hangs] is a chain range loop that never ends; [Wrote name] is a
    run that opens the output file [name]. *)
Inductive outcome : Type :=
| Usage
| ListedChains (chains_ : string)
| Hangs
| Fault
| Wrote (name : string).

(** Lines 193-283: the accessible field, the points of its mesh sorted by
    [z], and the excluded field.  Both calls of [par_for] run from 0 to
    [zdim+1], each under its own schedule.  A call of the body writes the
    elements of its slab only, so what the overlapping calls leave behind
    is what the body leaves when it is run once for each index that
    [par_for] called it on.  Every failure on the way ends the run as a
    [Fault]. *)
Definition fields (env : environment) (g : grid) (a : atoms)
  : option (list R * list R) :=
  bind (ParFor.int_result (zdim g + 1)) (fun z_end =>
  bind (ParFor.par_for 0 z_end (hardware_concurrency env) (first_schedule env)) (fun zs1 =>
  bind (accessible_field g (pos a) (radii a) zs1) (fun accessible =>
  let zsorter := sort_by_z (pos_mesh env g accessible) in
  bind (ParFor.par_for 0 z_end (hardware_concurrency env) (second_schedule env)) (fun zs2 =>
  bind (excluded_field g zsorter accessible zs2) (fun excluded =>
  Some (accessible, excluded)))))).

(** The constructor after the loop over the arguments.  The two meshes
    and the encoder are outside this file; they are taken to return. *)
Definition run_with (env : environment) (o : options) : outcome :=
  let spacing := atof env (grid_spacing_text o) in
  match pdb_filename o with
  | None => Usage
  | Some filename =>
      if error o then Usage
      else
        let pdb := decode env filename in
        if list_chains o then ListedChains (pdb_chains pdb)
        else
          match collect pdb (chains o) with
          | None => Hangs
          | Some a =>
              match Colour.colored_atoms a with
              | None => Fault
              | Some _ =>
                  match grid_extents (pos a) (radii a) spacing with
                  | None => Fault
                  | Some g =>
                      match fields env g a with
                      | None => Fault
                      | Some _ => Wrote (out_filename filename o)
                      end
                  end
              end
          end
  end.

Definition molecules (env : environment) (args : list string) : outcome :=
  run_with env (parse args defaults).

(** An error that is told to the user: the usage text is the only one. *)
Definition reported (r : outcome) : Prop := r = Usage.

End Program.

(** ** Small inputs on which the statements below are tried *)
Module Examples.
Import Geometry Grid Atoms Colour CommandLine Program.
Local Open Scope R_scope.

(** A grid of one cell at the origin with spacing 1, a grid of 1313 cells
    along each axis with spacing 1/4, three surface points in ascending
    [z], and eight accessible values of which only the one of the vertex at
    the origin is negative. *)
Definition unit_grid : grid := mkGrid 1 1 1 (mkVec3 0 0 0) (mkVec3 1 1 1) 1.
Definition wide_grid : grid :=
  mkGrid 1313 1313 1313 (mkVec3 0 0 0) (mkVec3 328 328 328) (1 / 4).
Definition three_points : list vec3 := [mkVec3 0 0 0; mkVec3 0 5 1; mkVec3 0 0 9].

(** A red atom of radius 1 at the origin and a point at distance 3/2. *)
Definition red_atom : colored_atom := mkColored (mkVec4 1 0 0 1) (mkVec3 0 0 0) 1.
Definition beside_red_atom : vec3 := mkVec3 (3 / 2) 0 0.

(** A file without atoms, and a file with one white atom of radius 1 at
    the origin in chain [A]; [atof] reads every text as [0.25]; two
    workers; the mesh of the accessible field has two vertices, at distance
    3 from the atom. *)
Definition no_chain : pdb_decoder :=
  mkDecoder "" (fun _ => []) (fun _ => []) (fun _ => []).
Definition one_atom : pdb_decoder :=
  mkDecoder "A"
    (fun c => if Ascii.eqb c "A" then [mkVec3 0 0 0] else [])
    (fun c => if Ascii.eqb c "A" then [1] else [])
    (fun c => if Ascii.eqb c "A" then [mkVec4 1 1 1 1] else []).
Definition empty_file : environment :=
  mkEnv (fun _ => 1 / 4) (fun _ => no_chain) 2 [] [] (fun _ _ => []).
Definition small_file : environment :=
  mkEnv (fun _ => 1 / 4) (fun _ => one_atom) 2 [0; 1; 1]%nat [1; 0]%nat
        (fun _ _ => [mkVec3 3 0 0; mkVec3 0 0 (-3)]).

(** A spacing text of 254 characters. *)
Definition long_text : string :=
  String.concat "" ("0.25" :: repeat "0000000000" 25)%string.

End Examples.

(** ** Notions used by the further properties *)
Module Notions.
Import Geometry Grid Atoms Colour CommandLine Program.
Local Open Scope R_scope.

(** The options that take the next argument as their value. *)
Definition takes_value (arg : string) : bool :=
  ((arg =? "--grid-spacing") || (arg =? "--chains") || (arg =? "-o"))%string.

(** A run that opens no output file and reads no atom: the usage text or
    the list of chains. *)
Definition no_file_outcome (r : outcome) : bool :=
  match r with
  | Usage | ListedChains _ => true
  | _ => false
  end.

(** The selector holds no character of value 127, the last [char]. *)
Definition no_last_char (s : string) : bool :=
  forallb (fun c => negb (ChainSelector.schar c =? 127)%Z) (list_ascii_of_string s).

(** A decoder that returns, for every chain, as many radii and colours as
    positions. *)
Definition aligned (pdb : pdb_decoder) : Prop :=
  forall c,
    List.length (pdb_radii pdb c) = List.length (pdb_pos pdb c) /\
    List.length (pdb_colorsByFunction pdb c) = List.length (pdb_pos pdb c).

(** The three vectors of a selection have one length. *)
Definition same_lengths (a : atoms) : Prop :=
  List.length (radii a) = List.length (pos a) /\
  List.length (colors a) = List.length (pos a).

(** The atoms whose colour is not white, each with its position and
    radius, in the order of the vectors. *)
Definition non_white (a : atoms) : list colored_atom :=
  map (fun t => mkColored (fst t) (fst (snd t)) (snd (snd t)))
      (filter (fun t => negb (vec4_eqb (fst t) white))
              (combine (colors a) (combine (pos a) (radii a)))).

(** [xyz] lies strictly inside atom [i] inflated by the probe radius. *)
Definition inside_inflated_atom (pos : list vec3) (radii : list R) (xyz : vec3) : Prop :=
  exists i p r,
    nth_error pos i = Some p /\ nth_error radii i = Some r /\
    dist2 xyz p < (r + water_radius) * (r + water_radius).

(** The least squared distance from [xyz] to one of the points, the
    sentinel [1e37] when there is none below it. *)
Definition nearest2 (xyz : vec3) (points : list vec3) : R :=
  fold_left fmin (map (dist2 xyz) points) huge.

(** The atom adds to the colour at [xyz]: its weight is positive. *)
Definition contributes (xyz : vec3) (a : colored_atom) : bool :=
  Rltb 0 (weight_of xyz a).

End Notions.


(** * Properties *)

Module ChainSelectorFacts.
Import ChainSelector.
Local Open Scope Z_scope.

Lemma char_incr_small i : -128 <= i < 127 -> char_incr i = i + 1.
Proof.
  intros H. unfold char_incr.
  rewrite Z.mod_small by lia. lia.
Qed.

Lemma char_run_cons lo hi :
  lo <= hi -> char_run lo hi = to_char lo :: char_run (lo + 1) hi.
Proof.
  intros H. unfold char_run.
  replace (Z.to_nat (hi - lo + 1)) with (S (Z.to_nat (hi - (lo + 1) + 1))) by lia.
  cbn [seq map]. f_equal.
  - f_equal. lia.
  - rewrite <- seq_shift, map_map. apply map_ext. intros k. f_equal. lia.
Qed.

Lemma char_run_nil lo hi : hi < lo -> char_run lo hi = [].
Proof.
  intros H. unfold char_run. replace (Z.to_nat (hi - lo + 1)) with 0%nat by lia.
  reflexivity.
Qed.

(** With enough turns left, the range loop below the last [char] value
    lists the run from [i] to [hi]. *)
Lemma range_loop_run fuel i hi :
  -128 <= i -> hi < 127 -> (Z.to_nat (hi - i + 1) < fuel)%nat ->
  range_loop fuel i hi = Some (char_run i hi).
Proof.
  revert i. induction fuel as [|fuel IH]; intros i Hlo Hhi Hfuel; [lia|].
  cbn [range_loop]. destruct (Z.leb_spec i hi) as [Hle|Hgt].
  - rewrite char_incr_small by lia.
    rewrite IH by lia. cbn [option_map]. now rewrite <- char_run_cons.
  - now rewrite char_run_nil.
Qed.

(** A range loop that has to pass the last [char] value never ends. *)
Lemma range_loop_hangs fuel i : -128 <= i <= 127 -> range_loop fuel i 127 = None.
Proof.
  revert i. induction fuel as [|fuel IH]; intros i Hi; [reflexivity|].
  cbn [range_loop]. destruct (Z.leb_spec i 127) as [_|Hgt]; [|lia].
  rewrite IH; [reflexivity|].
  unfold char_incr. pose proof (Z.mod_pos_bound (i + 1 + 128) 256). lia.
Qed.

Lemma schar_dash : schar dash = 45.
Proof. reflexivity. Qed.

Lemma schar_bounds a : -128 <= schar a <= 127.
Proof.
  unfold schar. pose proof (N_ascii_bounded a) as Hb.
  destruct (Z.ltb_spec (Z.of_N (N_of_ascii a)) 128); lia.
Qed.

(** What the range branch of the loop does: after a character followed by
    a dash and a third character [c2] that is not below the dash, the
    identifiers handed to [addChain] are those from the dash up to [c2];
    the first character of the range is not looked at. *)
Lemma expand_range c c2 rest :
  45 <= schar c2 < 127 ->
  expand (String c (String dash (String c2 rest)))
  = app_opt (char_run 45 (schar c2)) (expand rest).
Proof.
  intros H. cbn [expand]. rewrite Ascii.eqb_refl, schar_dash.
  destruct (Z.geb_spec (schar c2) 45) as [_|Hlt]; [|lia].
  cbn [andb]. rewrite range_loop_run; [reflexivity|lia|lia|].
  unfold range_fuel. lia.
Qed.


(** A selector without a dash is handed to [addChain] letter by letter. *)
Lemma expand_letters s :
  has_dash s = false -> expand s = Some (list_ascii_of_string s).
Proof.
  unfold has_dash. induction s as [|c rest IH]; intros H; [reflexivity|].
  cbn [list_ascii_of_string existsb] in H. apply orb_false_elim in H as [_ Hrest].
  specialize (IH Hrest).
  cbn [expand]. destruct rest as [|p1 [|p2 rest']].
  - reflexivity.
  - rewrite IH. reflexivity.
  - cbn [list_ascii_of_string existsb] in Hrest.
    apply orb_false_elim in Hrest as [Hp1 _].
    rewrite Ascii.eqb_sym, Hp1. cbn [andb]. rewrite IH. reflexivity.
Qed.

(** C1 --- the chain selector on the three selectors of the description.
    ["AC"] is expanded to [A], [C].  ["A-C"] is not expanded to [A], [B],
    [C]: the range loop starts at the dash ([p[1]]), not at the first
    letter, so the identifiers are the 23 characters from the dash to [C].
    ["C-A"] is not expanded to the empty sequence: its test compares the
    second letter with the dash, so the identifiers are the 21 characters
    from the dash to [A]. *)
Theorem expand_selectors :
  expand "AC" = Some ["A"; "C"]%char /\
  expand "A-C" = Some (list_ascii_of_string "-./0123456789:;<=>?@ABC") /\
  expand "C-A" = Some (list_ascii_of_string "-./0123456789:;<=>?@A").
Proof.
  split; [|split].
  - now rewrite expand_letters.
  - change "A-C"%string with (String "A" (String dash (String "C" EmptyString))).
    rewrite expand_range by (cbv; split; congruence). reflexivity.
  - change "C-A"%string with (String "C" (String dash (String "A" EmptyString))).
    rewrite expand_range by (cbv; split; congruence). reflexivity.
Qed.

End ChainSelectorFacts.

Module ParForFacts.
Import ParFor.
Local Open Scope Z_scope.

Lemma retired_repeat n : retired (repeat Started n) = 0%nat.
Proof. unfold retired. induction n; [reflexivity|]. exact IHn. Qed.

Lemma in_call_repeat n : in_call (repeat Started n) = [].
Proof. induction n; [reflexivity|]. exact IHn. Qed.

Lemma place_length cpu w l : List.length (place cpu w l) = List.length l.
Proof.
  revert cpu. induction l as [|b t IH]; intros [|c]; cbn; auto.
Qed.

Lemma retired_cons w l : retired (w :: l) = (left_of w + retired l)%nat.
Proof. unfold retired, left_of. cbn. now destruct (has_left w). Qed.

Lemma in_call_cons w l : in_call (w :: l) = call_of w ++ in_call l.
Proof. now destruct w. Qed.

Lemma retired_place cpu w old l :
  nth_error l cpu = Some old ->
  (left_of old + retired (place cpu w l) = left_of w + retired l)%nat.
Proof.
  revert cpu. induction l as [|b t IH]; intros [|c] H; cbn in H; try discriminate.
  - injection H as ->. cbn [place]. rewrite !retired_cons. lia.
  - cbn [place]. rewrite !retired_cons. specialize (IH c H). lia.
Qed.

Lemma in_call_place cpu w old l :
  nth_error l cpu = Some old ->
  Permutation (call_of old ++ in_call (place cpu w l)) (call_of w ++ in_call l).
Proof.
  revert cpu. induction l as [|b t IH]; intros [|c] H; cbn in H; try discriminate.
  - injection H as ->. cbn [place]. rewrite !in_call_cons.
    rewrite !app_assoc. apply Permutation_app_tail, Permutation_app_comm.
  - cbn [place]. rewrite !in_call_cons. specialize (IH c H).
    rewrite (app_assoc (call_of old)), (Permutation_app_comm (call_of old)), <- app_assoc.
    rewrite IH.
    rewrite (app_assoc (call_of w)), (Permutation_app_comm (call_of w) (call_of b)), <- app_assoc.
    reflexivity.
Qed.

Lemma rev_call_of w : rev (call_of w) = call_of w.
Proof. now destruct w. Qed.

Lemma retired_le l : (retired l <= List.length l)%nat.
Proof. apply filter_length_le. Qed.

Lemma returned_retired l : forallb has_left l = true <-> retired l = List.length l.
Proof.
  induction l as [|b t IH]; [cbn; tauto|].
  rewrite retired_cons. cbn [forallb List.length]. unfold left_of.
  pose proof (retired_le t). destruct (has_left b); cbn [andb].
  - rewrite IH. lia.
  - split; [discriminate|lia].
Qed.

Lemma returned_no_call l : forallb has_left l = true -> in_call l = [].
Proof.
  induction l as [|b t IH]; [reflexivity|]. cbn [forallb]. intros H.
  apply andb_prop in H as [Hb Ht]. destruct b; try discriminate. now apply IH.
Qed.

Lemma inside_not_retired l cpu w :
  nth_error l cpu = Some w -> has_left w = false -> (retired l < List.length l)%nat.
Proof.
  intros Hcpu Hw. pose proof (retired_le l) as Hle.
  destruct (Nat.eq_dec (retired l) (List.length l)) as [Heq|]; [|lia].
  apply returned_retired in Heq. rewrite forallb_forall in Heq.
  apply nth_error_In in Hcpu. apply Heq in Hcpu. congruence.
Qed.

Lemma wrap_int_small z : int_min <= z <= int_max -> wrap_int z = z.
Proof.
  unfold wrap_int, int_min, int_max. intros H.
  rewrite Z.mod_small by lia. lia.
Qed.

Lemma index_range_snoc b k :
  0 <= k -> index_range b (b + k + 1) = index_range b (b + k) ++ [b + k].
Proof.
  intros Hk. unfold index_range.
  replace (Z.to_nat (b + k + 1 - b)) with (S (Z.to_nat (b + k - b))) by lia.
  rewrite seq_S, map_app. cbn. do 3 f_equal. lia.
Qed.

Lemma index_range_empty b e : e <= b -> index_range b e = [].
Proof.
  intros H. unfold index_range. now replace (Z.to_nat (e - b)) with 0%nat by lia.
Qed.

Lemma index_range_NoDup b e : NoDup (index_range b e).
Proof.
  unfold index_range. apply Finite.Injective_map_NoDup; [|apply seq_NoDup].
  intros x y. lia.
Qed.

Lemma index_range_In b e i : In i (index_range b e) <-> b <= i < e.
Proof.
  unfold index_range. rewrite in_map_iff. split.
  - intros (k & <- & Hk). apply in_seq in Hk. lia.
  - intros H. exists (Z.to_nat (i - b)). split; [lia|]. apply in_seq. lia.
Qed.

Lemma index_range_max b e : index_range b (Z.max b e) = index_range b e.
Proof.
  destruct (Z.max_spec b e) as [[_ ->]|[Hle ->]]; [reflexivity|].
  now rewrite !index_range_empty by lia.
Qed.

(** What a turn does to the state, by the worker's situation and the
    counter. *)
Lemma worker_step_cases end_ cpu s s' :
  worker_step end_ cpu s = Some s' ->
  exists old,
    nth_error (workers s) cpu = Some old /\ has_left old = false /\
    s' = mkState (wrap_int (idx s + 1))
                 (place cpu (if idx s >=? end_ then Left else Calling (idx s)) (workers s))
                 (map (fun i => (i, cpu)) (call_of old) ++ calls s).
Proof.
  unfold worker_step, claim. intros H.
  destruct (nth_error (workers s) cpu) as [[|i|]|] eqn:Hcpu; try discriminate;
    injection H as <-; eexists; (split; [reflexivity|]); split; reflexivity.
Qed.

Lemma step_progress end_ cpu s s' :
  worker_step end_ cpu s = Some s' -> progress_of s' = S (progress_of s).
Proof.
  intros Hstep. apply worker_step_cases in Hstep as (old & Hcpu & Hold & ->).
  unfold progress_of. cbn [calls workers].
  set (w := if idx s >=? end_ then Left else Calling (idx s)).
  pose proof (retired_place cpu w old _ Hcpu) as Hr.
  pose proof (Permutation_length (in_call_place cpu w old _ Hcpu)) as Hc.
  rewrite !length_app in Hc. rewrite length_app, length_map.
  assert (Hw : (left_of w + List.length (call_of w) = 1)%nat).
  { unfold w. now destruct (idx s >=? end_). }
  assert (Ho : left_of old = 0%nat) by (unfold left_of; now rewrite Hold).
  lia.
Qed.

Lemma run_progress end_ sched : forall s s',
  run end_ sched s = Some s' -> progress_of s' = (List.length sched + progress_of s)%nat.
Proof.
  induction sched as [|cpu rest IH]; intros s s' Hrun; cbn in Hrun.
  - now injection Hrun as <-.
  - destruct (worker_step end_ cpu s) as [s1|] eqn:Hstep; [|discriminate].
    rewrite (IH _ _ Hrun), (step_progress _ _ _ _ Hstep). cbn. lia.
Qed.

Lemma progress_init begin num_cpus : progress_of (init begin num_cpus) = 0%nat.
Proof.
  unfold progress_of, init. cbn. now rewrite retired_repeat, in_call_repeat.
Qed.

Lemma first_inside_some l cpu :
  first_inside l = Some cpu -> exists w, nth_error l cpu = Some w /\ has_left w = false.
Proof.
  revert cpu. induction l as [|b t IH]; intros cpu H; [discriminate|].
  destruct b; cbn in H.
  - injection H as <-. now exists Started.
  - injection H as <-. now eexists.
  - destruct (first_inside t) as [c|]; [|discriminate]. injection H as <-.
    destruct (IH c eq_refl) as (w & Hw & Hl). now exists w.
Qed.

Lemma first_inside_none l : first_inside l = None -> forallb has_left l = true.
Proof.
  induction l as [|b t IH]; [reflexivity|]. destruct b; cbn; try discriminate.
  destruct (first_inside t); [discriminate|]. auto.
Qed.

Lemma inside_steps end_ cpu s w :
  nth_error (workers s) cpu = Some w -> has_left w = false ->
  exists s', worker_step end_ cpu s = Some s'.
Proof.
  unfold worker_step. intros -> Hw. destruct w; try discriminate; eauto.
Qed.

Lemma live_worker end_ s :
  returned s = false -> exists cpu s', worker_step end_ cpu s = Some s'.
Proof.
  unfold returned. intros H.
  destruct (first_inside (workers s)) as [cpu|] eqn:Hfirst.
  - apply first_inside_some in Hfirst as (w & Hw & Hl).
    exists cpu. eapply inside_steps; eauto.
  - apply first_inside_none in Hfirst. congruence.
Qed.

Lemma run_snoc end_ cpu sched : forall s s1 s2,
  run end_ sched s = Some s1 -> worker_step end_ cpu s1 = Some s2 ->
  run end_ (sched ++ [cpu]) s = Some s2.
Proof.
  induction sched as [|c rest IH]; intros s s1 s2 Hrun Hstep; cbn in Hrun |- *.
  - injection Hrun as <-. now rewrite Hstep.
  - destruct (worker_step end_ c s) as [s'|]; [|discriminate]. eapply IH; eauto.
Qed.

Section Run.
Variables (begin end_ : Z) (num_cpus : nat).
Hypothesis begin_int : int_min <= begin.
Hypothesis no_wrap : Z.max begin end_ + Z.of_nat num_cpus <= int_max.

(** What every state of a run satisfies: the counter has moved by one for
    each index claimed and each worker that left; the indices claimed are
    the first ones of the range; once a worker has left, they are all of
    them. *)
Record inv (s : state) : Prop := mkInv {
  inv_workers : List.length (workers s) = num_cpus;
  inv_idx : idx s = begin + Z.of_nat (taken s) + Z.of_nat (retired (workers s));
  inv_claimed : Permutation (claimed s) (index_range begin (begin + Z.of_nat (taken s)));
  inv_below : begin + Z.of_nat (taken s) <= Z.max begin end_;
  inv_done : (0 < retired (workers s))%nat ->
             begin + Z.of_nat (taken s) = Z.max begin end_
}.

Lemma inv_init : inv (init begin num_cpus).
Proof.
  unfold init. constructor; unfold taken, claimed, invoked; cbn;
    rewrite ?retired_repeat, ?in_call_repeat; cbn.
  - apply repeat_length.
  - lia.
  - now rewrite index_range_empty by lia.
  - lia.
  - lia.
Qed.

Lemma inv_step cpu s s' :
  inv s -> worker_step end_ cpu s = Some s' -> inv s'.
Proof.
  intros [Hl Hi Hc Hb Hd] Hstep.
  apply worker_step_cases in Hstep as (old & Hcpu & Hold & ->).
  pose proof (inside_not_retired _ _ _ Hcpu Hold) as Hlt. rewrite Hl in Hlt.
  assert (Hw : wrap_int (idx s + 1) = idx s + 1).
  { apply wrap_int_small. unfold int_min, int_max in *. lia. }
  rewrite Hw.
  set (w := if idx s >=? end_ then Left else Calling (idx s)).
  pose proof (retired_place cpu w old _ Hcpu) as Hr.
  pose proof (in_call_place cpu w old _ Hcpu) as Hp.
  pose proof (Permutation_length Hp) as Hlen. rewrite !length_app in Hlen.
  assert (Ho : left_of old = 0%nat) by (unfold left_of; now rewrite Hold).
  assert (Hclaimed :
    Permutation (claimed (mkState (idx s + 1) (place cpu w (workers s))
                                  (map (fun i => (i, cpu)) (call_of old) ++ calls s)))
                (call_of w ++ claimed s)).
  { unfold claimed, invoked. cbn [calls workers].
    rewrite map_app, map_map. cbn [fst]. rewrite map_id, rev_app_distr, rev_call_of.
    rewrite <- app_assoc, Hp. apply Permutation_app_swap_app. }
  assert (Htaken :
    (taken (mkState (idx s + 1) (place cpu w (workers s))
                    (map (fun i => (i, cpu)) (call_of old) ++ calls s))
     = List.length (call_of w) + taken s)%nat).
  { unfold taken. cbn [calls workers]. rewrite length_app, length_map. lia. }
  unfold w in *. clear w.
  destruct (Z.geb_spec (idx s) end_) as [Hge|Hlt'].
  - cbn [call_of List.length app left_of has_left] in *.
    constructor; cbn [idx workers]; rewrite ?Htaken; cbn [Nat.add].
    + now rewrite place_length.
    + lia.
    + now rewrite Hclaimed.
    + exact Hb.
    + intros _. destruct (retired (workers s)) eqn:Hz; [|apply Hd; lia]. lia.
  - assert (Hz : retired (workers s) = 0%nat).
    { destruct (retired (workers s)) eqn:Hz; [reflexivity|].
      specialize (Hd ltac:(lia)). lia. }
    cbn [call_of List.length app left_of has_left] in *.
    constructor; cbn [idx workers]; rewrite ?Htaken; cbn [Nat.add];
      rewrite ?Nat2Z.inj_succ.
    + now rewrite place_length.
    + lia.
    + rewrite Hclaimed, Hc.
      replace (begin + Z.succ (Z.of_nat (taken s)))
        with (begin + Z.of_nat (taken s) + 1) by lia.
      rewrite index_range_snoc by lia.
      replace (idx s) with (begin + Z.of_nat (taken s)) by lia.
      apply Permutation_cons_append.
    + lia.
    + lia.
Qed.

Lemma inv_run sched : forall s s',
  inv s -> run end_ sched s = Some s' -> inv s'.
Proof.
  induction sched as [|cpu rest IH]; intros s s' Hs Hrun; cbn in Hrun.
  - now injection Hrun as <-.
  - destruct (worker_step end_ cpu s) as [s1|] eqn:Hstep; [|discriminate].
    eapply IH; [|exact Hrun]. eapply inv_step; eauto.
Qed.

Lemma inv_progress s :
  inv s -> (progress_of s <= Z.to_nat (Z.max begin end_ - begin) + num_cpus)%nat.
Proof.
  intros [Hl Hi Hc Hb Hd]. unfold progress_of. unfold taken in *.
  pose proof (retired_le (workers s)). lia.
Qed.

(** From any state of a run the workers can go on until all have left. *)
Lemma run_to_return budget : forall s,
  inv s ->
  (Z.to_nat (Z.max begin end_ - begin) + num_cpus - progress_of s <= budget)%nat ->
  exists sched s', run end_ sched s = Some s' /\ returned s' = true.
Proof.
  induction budget as [|budget IH]; intros s Hs Hb.
  - destruct (returned s) eqn:Hret; [exists [], s; auto|].
    destruct (live_worker end_ s Hret) as (cpu & s1 & Hstep).
    pose proof (inv_progress _ (inv_step _ _ _ Hs Hstep)).
    rewrite (step_progress _ _ _ _ Hstep) in *. lia.
  - destruct (returned s) eqn:Hret; [exists [], s; auto|].
    destruct (live_worker end_ s Hret) as (cpu & s1 & Hstep).
    destruct (IH s1) as (sched & s' & Hrun & Hdone).
    + eapply inv_step; eauto.
    + rewrite (step_progress _ _ _ _ Hstep). lia.
    + exists (cpu :: sched), s'. cbn. rewrite Hstep. auto.
Qed.

(** Once all workers have left, every call has returned and the calls are
    those on the indices of the range. *)
Lemma returned_run_invoked sched s :
  (1 <= num_cpus)%nat ->
  run end_ sched (init begin num_cpus) = Some s -> returned s = true ->
  Permutation (invoked s) (index_range begin end_) /\ in_call (workers s) = [].
Proof.
  intros Hcpus Hrun Hret.
  pose proof (inv_run sched _ _ inv_init Hrun) as [Hl Hi Hc Hb Hd].
  pose proof (returned_no_call _ Hret) as Hno.
  apply returned_retired in Hret. rewrite Hret, Hl in Hd.
  specialize (Hd ltac:(lia)). rewrite Hd, index_range_max in Hc.
  unfold claimed in Hc. rewrite Hno, app_nil_r in Hc. auto.
Qed.

Lemma follow_reachable sched : forall s, reachable begin end_ num_cpus s -> reachable begin end_ num_cpus (follow end_ sched s).
Proof.
  induction sched as [|cpu rest IH]; intros s Hs; [exact Hs|]. cbn.
  destruct (worker_step end_ cpu s) as [s'|] eqn:Hstep; [|now apply IH].
  apply IH. destruct Hs as [sc Hsc]. exists (sc ++ [cpu]). eapply run_snoc; eauto.
Qed.

Lemma drain_reachable fuel : forall s, reachable begin end_ num_cpus s -> reachable begin end_ num_cpus (drain fuel end_ s).
Proof.
  induction fuel as [|fuel IH]; intros s Hs; [exact Hs|]. cbn.
  destruct (first_inside (workers s)) as [cpu|]; [|exact Hs].
  destruct (worker_step end_ cpu s) as [s'|] eqn:Hstep; [|exact Hs].
  apply IH. destruct Hs as [sc Hsc]. exists (sc ++ [cpu]). eapply run_snoc; eauto.
Qed.

Lemma drain_returns fuel : forall s,
  inv s ->
  (Z.to_nat (Z.max begin end_ - begin) + num_cpus - progress_of s <= fuel)%nat ->
  returned (drain fuel end_ s) = true.
Proof.
  induction fuel as [|fuel IH]; intros s Hs Hb; cbn.
  - destruct (returned s) eqn:Hret; [reflexivity|].
    destruct (live_worker end_ s Hret) as (cpu & s1 & Hstep).
    pose proof (inv_progress _ (inv_step _ _ _ Hs Hstep)).
    rewrite (step_progress _ _ _ _ Hstep) in *. lia.
  - destruct (first_inside (workers s)) as [cpu|] eqn:Hfirst.
    + apply first_inside_some in Hfirst as (w & Hw & Hl).
      destruct (inside_steps end_ cpu s w Hw Hl) as [s' Hstep]. rewrite Hstep.
      apply IH; [eapply inv_step; eauto|].
      rewrite (step_progress _ _ _ _ Hstep). lia.
    + now apply first_inside_none.
Qed.

(** [par_for] as a whole is one of the runs: it ends with all workers
    joined, after the turns of some schedule. *)
Lemma par_for_is_a_run sched :
  exists sched' s,
    run end_ sched' (init begin num_cpus) = Some s /\ returned s = true /\
    par_for begin end_ num_cpus sched = Some (invoked s).
Proof.
  unfold par_for.
  set (s1 := follow end_ sched (init begin num_cpus)).
  assert (Hr1 : reachable begin end_ num_cpus s1) by (apply follow_reachable; now exists []).
  set (s2 := drain (Z.to_nat (Z.max begin end_ - begin) + num_cpus) end_ s1).
  assert (Hr2 : reachable begin end_ num_cpus s2) by now apply drain_reachable.
  assert (Hret : returned s2 = true).
  { apply drain_returns; [|lia]. destruct Hr1 as [sc Hsc].
    eapply inv_run; [apply inv_init|exact Hsc]. }
  destruct Hr2 as [sc Hsc]. exists sc, s2. now rewrite Hret.
Qed.

End Run.

(** With at least one worker and a counter that does not wrap, [par_for]
    calls the body on the indices of the range, in some order. *)
Lemma par_for_permutation begin end_ num_cpus sched :
  int_min <= begin ->
  (1 <= num_cpus)%nat ->
  Z.max begin end_ + Z.of_nat num_cpus <= int_max ->
  exists zs, par_for begin end_ num_cpus sched = Some zs /\
             Permutation zs (index_range begin end_).
Proof.
  intros Hb Hc Hw.
  destruct (par_for_is_a_run begin end_ num_cpus Hb Hw sched) as (sc & s & Hrun & Hret & ->).
  eexists. split; [reflexivity|].
  now destruct (returned_run_invoked begin end_ num_cpus Hb Hw sc s Hc Hrun Hret).
Qed.

Lemma follow_no_worker end_ sched s : workers s = [] -> follow end_ sched s = s.
Proof.
  intros Hw. induction sched as [|cpu rest IH]; [reflexivity|]. cbn.
  unfold worker_step. rewrite Hw. now destruct cpu.
Qed.

(** Without a worker [par_for] calls nothing. *)
Lemma par_for_no_workers begin end_ sched : par_for begin end_ 0 sched = Some [].
Proof.
  unfold par_for. rewrite follow_no_worker by reflexivity.
  destruct (Z.to_nat (Z.max begin end_ - begin) + 0)%nat; reflexivity.
Qed.

(** C4, as amended --- [par_for] over the range from [begin] to [end],
    with [num_cpus] the value of [hardware_concurrency()], at least one
    worker, and a counter that stays below the largest [int] (it ends at
    the larger of [begin] and [end] plus [num_cpus]).  In every
    interleaving of the workers' turns: once all workers have been joined,
    no call is left unfinished, and [fn] has been called on each of
    [begin], ..., [end - 1] once and on nothing else, whatever the number of
    workers; the order of the calls is left to the interleaving.  A run
    takes at most [end - begin] turns plus one per worker, and as long as a
    worker is inside its loop a turn is possible; so the workers do get
    joined. *)
Theorem par_for_each_index_once (begin end_ : Z) (num_cpus : nat) :
  int_min <= begin ->
  (1 <= num_cpus)%nat ->
  Z.max begin end_ + Z.of_nat num_cpus <= int_max ->
  (forall sched s,
      run end_ sched (init begin num_cpus) = Some s -> returned s = true ->
      in_call (workers s) = [] /\
      Permutation (invoked s) (index_range begin end_) /\
      NoDup (invoked s) /\
      (forall i, In i (invoked s) <-> begin <= i < end_)) /\
  (forall sched s,
      run end_ sched (init begin num_cpus) = Some s ->
      (List.length sched <= Z.to_nat (Z.max begin end_ - begin) + num_cpus)%nat /\
      (returned s = false -> exists cpu s', worker_step end_ cpu s = Some s')) /\
  (exists sched s,
      run end_ sched (init begin num_cpus) = Some s /\ returned s = true).
Proof.
  intros Hbegin Hcpus Hwrap. split; [|split].
  - intros sched s Hrun Hret.
    destruct (returned_run_invoked begin end_ num_cpus Hbegin Hwrap sched s Hcpus Hrun Hret)
      as [Hperm Hno].
    split; [exact Hno|]. split; [exact Hperm|]. split.
    + eapply Permutation_NoDup; [symmetry; exact Hperm|apply index_range_NoDup].
    + intros i. rewrite <- index_range_In. split; apply Permutation_in; auto.
      now symmetry.
  - intros sched s Hrun.
    pose proof (inv_run begin end_ num_cpus Hbegin Hwrap sched _ _
                  (inv_init begin end_ num_cpus) Hrun) as Hs.
    split.
    + pose proof (inv_progress begin end_ num_cpus s Hs) as Hp.
      pose proof Hrun as Hq. apply run_progress in Hq.
      rewrite progress_init in Hq. lia.
    + apply live_worker.
  - eapply run_to_return; [exact Hbegin|exact Hwrap|apply inv_init|reflexivity].
Qed.

(** The same with two workers on the range from 0 to 3. *)
Lemma par_for_each_index_once_witness :
  (forall sched s,
      run 3 sched (init 0 2) = Some s -> returned s = true ->
      in_call (workers s) = [] /\
      Permutation (invoked s) (index_range 0 3) /\
      NoDup (invoked s) /\
      (forall i, In i (invoked s) <-> 0 <= i < 3)) /\
  (forall sched s,
      run 3 sched (init 0 2) = Some s ->
      (List.length sched <= Z.to_nat (Z.max 0 3 - 0) + 2)%nat /\
      (returned s = false -> exists cpu s', worker_step 3 cpu s = Some s')) /\
  (exists sched s,
      run 3 sched (init 0 2) = Some s /\ returned s = true).
Proof.
  apply (par_for_each_index_once 0 3 2); vm_compute; try lia; discriminate.
Defined.

(** With [hardware_concurrency()] equal to 0 no worker is started:
    [par_for(0, 1, fn)] returns at once and [fn(0)] is never called. *)
Lemma par_for_no_worker :
  run 1 [] (init 0 0) = Some (init 0 0) /\
  returned (init 0 0) = true /\
  invoked (init 0 0) = [] /\
  par_for 0 1 0 [] = Some [] /\
  index_range 0 1 = [0].
Proof. repeat split. Qed.

(** The calls do not return in the order of the claims: with two workers
    on the range from 0 to 3, the first worker can be through with [fn(0)]
    and [fn(2)] before the second is through with [fn(1)]. *)
Lemma par_for_out_of_order :
  run 3 [0; 1; 0; 0; 1]%nat (init 0 2)
  = Some (mkState 5 [Left; Left] [(1, 1%nat); (2, 0%nat); (0, 0%nat)]) /\
  invoked (mkState 5 [Left; Left] [(1, 1%nat); (2, 0%nat); (0, 0%nat)]) = [0; 2; 1].
Proof. split; reflexivity. Qed.

(** Where the counter wraps: two workers on the one index [int_max - 1].
    The second worker claims [int_min] and calls [fn] on it. *)
Lemma par_for_counter_wraps :
  run int_max [0; 0; 1; 1]%nat (init (int_max - 1) 2)
  = Some (mkState (int_min + 2) [Left; Calling (int_min + 1)]
                  [(int_min, 1%nat); (int_max - 1, 0%nat)]).
Proof. reflexivity. Qed.

End ParForFacts.

Module CommandLineFacts.
Import CommandLine.
Local Open Scope string_scope.

Lemma append_assoc (a b c : string) : (a ++ b) ++ c = a ++ (b ++ c).
Proof. induction a as [|x a IH]; cbn; [reflexivity|]. now rewrite IH. Qed.

Lemma append_nil_r (a : string) : a ++ "" = a.
Proof. induction a as [|x a IH]; cbn; [reflexivity|]. now rewrite IH. Qed.

Lemma substring_prefix (a b : string) : substring 0 (String.length a) (a ++ b) = a.
Proof. induction a as [|x a IH]; cbn; [now destruct b|]. now rewrite IH. Qed.

Lemma substring_all (a : string) : substring 0 (String.length a) a = a.
Proof. rewrite <- (append_nil_r a) at 2. apply substring_prefix. Qed.

Lemma substring_long n (a : string) : (String.length a <= n)%nat -> substring 0 n a = a.
Proof.
  revert n. induction a as [|x a IH]; intros [|n] H; cbn in *; try reflexivity; try lia.
  rewrite IH by lia. reflexivity.
Qed.

Lemma substring_length n (a : string) : (String.length (substring 0 n a) <= n)%nat.
Proof.
  revert n. induction a as [|x a IH]; intros [|n]; cbn; try lia.
  specialize (IH n). lia.
Qed.

(** The first scan: either the name has no slash and [last_slash] stays,
    or the result is what follows the last slash. *)
Lemma scan_slash_spec p last_slash :
  (free_of is_slash p = true /\ scan_slash p last_slash = last_slash) \/
  (exists d c, p = (d ++ String c "") ++ scan_slash p last_slash /\
               is_slash c = true /\
               free_of is_slash (scan_slash p last_slash) = true).
Proof.
  revert last_slash. induction p as [|x p IH]; intros last_slash; cbn.
  - now left.
  - destruct (is_slash x) eqn:Hx; cbn.
    + right. destruct (IH p) as [[Hfree ->]|(d & c & Heq & Hc & Hfree)].
      * exists "", x. cbn. auto.
      * exists (String x d), c. cbn. rewrite <- Heq. auto.
    + destruct (IH last_slash) as [[Hfree ->]|(d & c & Heq & Hc & Hfree)].
      * now left.
      * right. exists (String x d), c. cbn. rewrite <- Heq. auto.
Qed.

(** The second scan: either there is no dot and [last_dot] stays, or the
    result is the offset of the last dot. *)
Lemma scan_dot_spec p at_ last_dot :
  (free_of is_dot p = true /\ scan_dot p at_ last_dot = last_dot) \/
  (exists s e, p = s ++ String "." e /\ free_of is_dot e = true /\
               scan_dot p at_ last_dot = (at_ + String.length s)%nat).
Proof.
  revert at_ last_dot. induction p as [|x p IH]; intros at_ last_dot; cbn.
  - now left.
  - fold (is_dot x). destruct (is_dot x) eqn:Hx; cbn.
    + right. destruct (IH (S at_) at_) as [[Hfree ->]|(s & e & Heq & He & ->)].
      * exists "", p. cbn. unfold is_dot in Hx. apply Ascii.eqb_eq in Hx. subst x.
        split; [reflexivity|]. split; [assumption|lia].
      * exists (String x s), e. cbn. rewrite <- Heq. split; [reflexivity|].
        split; [assumption|lia].
    + destruct (IH (S at_) last_dot) as [[Hfree ->]|(s & e & Heq & He & ->)].
      * now left.
      * right. exists (String x s), e. cbn. rewrite <- Heq. split; [reflexivity|].
        split; [assumption|lia].
Qed.

Lemma free_of_app f a b : free_of f (a ++ b) = free_of f a && free_of f b.
Proof. induction a as [|x a IH]; cbn; [reflexivity|]. now rewrite IH, andb_assoc. Qed.

(** [stem] strips the directory and the extension. *)
Lemma stem_is_stem filename : is_stem filename (stem filename).
Proof.
  unfold is_stem, stem.
  destruct (scan_slash_spec filename filename) as [[Hfree Hbase]|(d & c & Heq & Hc & Hfree)].
  - rewrite Hbase.
    destruct (scan_dot_spec filename 0 (String.length filename))
      as [[Hdot ->]|(s & e & Hs & He & ->)].
    + exists "", "". rewrite substring_all, append_nil_r. cbn. auto 6.
    + assert (Hsub : substring 0 (String.length s) filename = s)
        by (rewrite Hs; apply substring_prefix).
      exists "", (String "." e). cbn [Nat.add]. rewrite Hsub.
      cbn [append]. rewrite <- Hs. split; [reflexivity|]. split; [now left|].
      split; [assumption|]. right. eauto.
  - set (base := scan_slash filename filename) in *.
    destruct (scan_dot_spec base 0 (String.length base))
      as [[Hdot ->]|(s & e & Hs & He & ->)].
    + exists (d ++ String c ""), "". rewrite substring_all, append_nil_r.
      split; [assumption|]. split; [right; eauto|]. split; [assumption|]. now left.
    + assert (Hsub : substring 0 (String.length s) base = s)
        by (rewrite Hs; apply substring_prefix).
      exists (d ++ String c ""), (String "." e). cbn [Nat.add].
      rewrite Hsub. rewrite <- Hs.
      split; [assumption|]. split; [right; eauto|]. split; [assumption|]. right. eauto.
Qed.

Lemma same_but_output_refl o : same_but_output o o.
Proof. repeat split. Qed.

(** The loop over the arguments never reads [output_path]. *)
Lemma parse_same_but_output args : forall o1 o2,
  same_but_output o1 o2 -> same_but_output (parse args o1) (parse args o2).
Proof.
  remember (List.length args) as n eqn:Hn. revert args Hn.
  induction n as [n IH] using lt_wf_ind. intros args Hn o1 o2 (H1 & H2 & H3 & H4 & H5).
  destruct args as [|arg rest]; [repeat split; assumption|].
  assert (Hrest : forall o1' o2', same_but_output o1' o2' ->
                    same_but_output (parse rest o1') (parse rest o2')).
  { apply (IH (List.length rest)); [cbn in Hn; lia|reflexivity]. }
  cbn [parse]. destruct rest as [|value rest'].
  - repeat (match goal with |- context [if ?b then _ else _] => destruct b end);
      apply Hrest; repeat split; cbn; congruence.
  - assert (Hrest' : forall o1' o2', same_but_output o1' o2' ->
                    same_but_output (parse rest' o1') (parse rest' o2')).
    { apply (IH (List.length rest')); [cbn in Hn; lia|reflexivity]. }
    repeat (match goal with |- context [if ?b then _ else _] => destruct b end);
      first [apply Hrest' | apply Hrest]; repeat split; cbn; congruence.
Qed.

End CommandLineFacts.

Module GeometryFacts.
Import Geometry.
Local Open Scope R_scope.

Lemma Rltb_true a b : a < b -> Rltb a b = true.
Proof. intros H. unfold Rltb. destruct (Rlt_dec a b); [reflexivity|contradiction]. Qed.
Lemma Rltb_false a b : b <= a -> Rltb a b = false.
Proof. intros H. unfold Rltb. destruct (Rlt_dec a b); [lra|reflexivity]. Qed.
Lemma Rleb_true a b : a <= b -> Rleb a b = true.
Proof. intros H. unfold Rleb. destruct (Rle_dec a b); [reflexivity|contradiction]. Qed.
Lemma Rleb_false a b : b < a -> Rleb a b = false.
Proof. intros H. unfold Rleb. destruct (Rle_dec a b); [lra|reflexivity]. Qed.
Lemma Reqb_true a b : a = b -> Reqb a b = true.
Proof. intros H. unfold Reqb. destruct (Req_dec_T a b); [reflexivity|contradiction]. Qed.
Lemma Reqb_false a b : a <> b -> Reqb a b = false.
Proof. intros H. unfold Reqb. destruct (Req_dec_T a b); [contradiction|reflexivity]. Qed.

Lemma Rltb_spec a b : reflect (a < b) (Rltb a b).
Proof. unfold Rltb. destruct (Rlt_dec a b); constructor; assumption. Qed.
Lemma Rleb_spec a b : reflect (a <= b) (Rleb a b).
Proof. unfold Rleb. destruct (Rle_dec a b); constructor; assumption. Qed.
Lemma Reqb_spec a b : reflect (a = b) (Reqb a b).
Proof. unfold Reqb. destruct (Req_dec_T a b); constructor; assumption. Qed.

Lemma fmin_Rmin a b : fmin a b = Rmin a b.
Proof.
  unfold fmin, Rmin. destruct (Rltb_spec b a), (Rle_dec a b); lra.
Qed.
Lemma fmax_Rmax a b : fmax a b = Rmax a b.
Proof.
  unfold fmax, Rmax. destruct (Rltb_spec a b), (Rle_dec a b); lra.
Qed.

(** The running minimum of a loop that starts from [a]. *)
Lemma fold_fmin_spec (l : list R) : forall a,
  fold_left fmin l a <= a /\
  (forall w, In w l -> fold_left fmin l a <= w) /\
  (fold_left fmin l a = a \/ In (fold_left fmin l a) l).
Proof.
  induction l as [|x l IH]; intros a; cbn [fold_left].
  - split; [lra|]. split; [intros w []|now left].
  - destruct (IH (fmin a x)) as (H1 & H2 & H3).
    rewrite fmin_Rmin in *.
    pose proof (Rmin_l a x). pose proof (Rmin_r a x).
    split; [lra|]. split.
    + intros w [<-|Hw]; [lra|auto].
    + destruct H3 as [H3|H3]; [|right; now right].
      rewrite H3. unfold Rmin. destruct (Rle_dec a x); [now left|right; now left].
Qed.

Lemma fold_fmax_spec (l : list R) : forall a,
  a <= fold_left fmax l a /\
  (forall w, In w l -> w <= fold_left fmax l a) /\
  (fold_left fmax l a = a \/ In (fold_left fmax l a) l).
Proof.
  induction l as [|x l IH]; intros a; cbn [fold_left].
  - split; [lra|]. split; [intros w []|now left].
  - destruct (IH (fmax a x)) as (H1 & H2 & H3).
    rewrite fmax_Rmax in *.
    pose proof (Rmax_l a x). pose proof (Rmax_r a x).
    split; [lra|]. split.
    + intros w [<-|Hw]; [lra|auto].
    + destruct H3 as [H3|H3]; [|right; now right].
      rewrite H3. unfold Rmax. destruct (Rle_dec a x); [right; now left|now left].
Qed.

Lemma truncate_nonneg x : 0 <= x -> truncate x = Zfloor x.
Proof. intros H. unfold truncate. now rewrite Rltb_false. Qed.

Lemma int_of_float_some x :
  0 <= x -> (Zfloor x <= ParFor.int_max)%Z -> int_of_float x = Some (Zfloor x).
Proof.
  intros H Hmax. unfold int_of_float. rewrite truncate_nonneg by assumption.
  assert (0 <= Zfloor x)%Z by (apply Zfloor_lub; simpl; lra).
  destruct (Z.leb_spec ParFor.int_min (Zfloor x)); [|unfold ParFor.int_min in *; lia].
  destruct (Z.leb_spec (Zfloor x) ParFor.int_max); [reflexivity|lia].
Qed.

Lemma int_of_float_none x :
  0 <= x -> (ParFor.int_max < Zfloor x)%Z -> int_of_float x = None.
Proof.
  intros H Hmax. unfold int_of_float. rewrite truncate_nonneg by assumption.
  destruct (Z.leb_spec (Zfloor x) ParFor.int_max); [lia|].
  now rewrite andb_false_r.
Qed.

End GeometryFacts.



Module GridFacts.
Import Geometry Grid GeometryFacts.
Local Open Scope R_scope.

(** The bounding box loop keeps, in every coordinate, the running minimum
    of [position - radius] and the running maximum of [position + radius]. *)
Lemma bbox_loop_spec (pos : list vec3) : forall radii min max,
  List.length radii = List.length pos ->
  exists min' max',
    bbox_loop pos radii min max = Some (min', max') /\
    (vx min' = fold_left fmin (lower vx pos radii) (vx min) /\
     vy min' = fold_left fmin (lower vy pos radii) (vy min) /\
     vz min' = fold_left fmin (lower vz pos radii) (vz min)) /\
    (vx max' = fold_left fmax (upper vx pos radii) (vx max) /\
     vy max' = fold_left fmax (upper vy pos radii) (vy max) /\
     vz max' = fold_left fmax (upper vz pos radii) (vz max)).
Proof.
  induction pos as [|p pos IH]; intros radii min max Hlen.
  - exists min, max. destruct radii; cbn; auto 8.
  - destruct radii as [|r radii]; [discriminate|]. cbn [bbox_loop].
    destruct (IH radii (vmin min (vsubs p r)) (vmax max (vadds p r))) as
      (min' & max' & Hb & Hmin & Hmax); [cbn in Hlen; lia|].
    exists min', max'. split; [exact Hb|]. split; [exact Hmin|exact Hmax].
Qed.

Lemma dimension_of_float lo hi spacing :
  0 < spacing -> lo <= hi ->
  int_of_float ((hi - lo) * (1 / spacing) + 1)
  = if fits_int (dimension lo hi spacing) then Some (dimension lo hi spacing) else None.
Proof.
  intros Hs Hle. unfold dimension, fits_int.
  replace ((hi - lo) * (1 / spacing) + 1) with ((hi - lo) / spacing + IZR 1)
    by (unfold Rdiv; simpl; ring).
  assert (H0 : 0 <= (hi - lo) / spacing).
  { apply Rmult_le_pos; [lra|]. left. now apply Rinv_0_lt_compat. }
  rewrite <- Zfloor_addz.
  destruct (Z.leb_spec (Zfloor ((hi - lo) / spacing + IZR 1)) ParFor.int_max).
  - apply int_of_float_some; [simpl; lra|assumption].
  - apply int_of_float_none; [simpl; lra|assumption].
Qed.

Lemma grid_extents_spacing (pos : list vec3) (radii : list R) (spacing : R) (g : grid) :
  grid_extents pos radii spacing = Some g -> grid_spacing g = spacing.
Proof.
  unfold grid_extents. intros Hg.
  destruct (bounding_box _ _) as [[? ?]|]; [|discriminate].
  destruct (int_of_float _); [|discriminate].
  destruct (int_of_float _); [|discriminate].
  destruct (int_of_float _); [|discriminate].
  now injection Hg as <-.
Qed.

End GridFacts.

Module StoreFacts.
Import Geometry Grid Store.
Local Open Scope Z_scope.

Lemma list_set_spec (v : list R) : forall n x,
  (n < List.length v)%nat ->
  exists v', list_set v n x = Some v' /\
    List.length v' = List.length v /\
    nth_error v' n = Some x /\
    forall m, m <> n -> nth_error v' m = nth_error v m.
Proof.
  induction v as [|h t IH]; intros n x Hn; cbn in Hn; [lia|].
  destruct n as [|n]; cbn [list_set].
  - exists (x :: t). repeat split. intros [|m] Hm; [contradiction|reflexivity].
  - destruct (IH n x ltac:(lia)) as (t' & -> & Hlen & Hget & Hother).
    exists (h :: t'). cbn. repeat split; auto.
    intros [|m] Hm; [reflexivity|]. cbn. apply Hother. lia.
Qed.

(** A write inside the vector replaces one entry. *)
Lemma vec_set_fills (target : Z -> R) (a : list R) (i : Z) :
  0 <= i < Z.of_nat (List.length a) ->
  exists a', vec_set a i (target i) = Some a' /\ fills (fun j => j = i) target a a'.
Proof.
  intros Hi. unfold vec_set. destruct (Z.ltb_spec i 0); [lia|].
  destruct (list_set_spec a (Z.to_nat i) (target i) ltac:(lia))
    as (a' & -> & Hlen & Hget & Hother).
  exists a'. split; [reflexivity|]. split; [exact Hlen|]. split.
  - intros j ->. unfold vec_get. destruct (Z.ltb_spec i 0); [lia|exact Hget].
  - intros j Hj. unfold vec_get. destruct (Z.ltb_spec j 0); [reflexivity|].
    apply Hother. lia.
Qed.

Lemma fills_nothing target a : fills (fun _ => False) target a a.
Proof. repeat split; tauto. Qed.

Lemma fills_weaken (r r' : Z -> Prop) target a a' :
  (forall j, r j <-> r' j) -> fills r target a a' -> fills r' target a a'.
Proof.
  intros Heq (Hl & Hin & Hout). split; [exact Hl|]. split.
  - intros j Hj. apply Hin, Heq, Hj.
  - intros j Hj. apply Hout. intros Hr. apply Hj, Heq, Hr.
Qed.

Lemma fills_then (r1 r2 : Z -> Prop) target a a1 a2 :
  fills r1 target a a1 -> fills r2 target a1 a2 ->
  fills (fun j => r1 j \/ r2 j) target a a2.
Proof.
  intros (Hl1 & Hin1 & Hout1) (Hl2 & Hin2 & Hout2). split; [congruence|]. split.
  - intros j Hj. destruct (classic (r2 j)) as [H2|H2]; [auto|].
    rewrite Hout2 by assumption. apply Hin1. tauto.
  - intros j Hj. rewrite Hout2, Hout1; tauto.
Qed.

(** A counted loop whose turn [k] fills the region [region k] fills the
    regions of all its turns. *)
Lemma for_from_fills (target : Z -> R) (region : Z -> Z -> Prop)
  (body : Z -> list R -> option (list R)) (n : nat) (count : nat) : forall i a,
  List.length a = n ->
  (forall k a, i <= k < i + Z.of_nat count -> List.length a = n ->
     exists a', body k a = Some a' /\ fills (region k) target a a') ->
  exists a', for_from count i body a = Some a' /\
    fills (fun j => exists k, i <= k < i + Z.of_nat count /\ region k j) target a a'.
Proof.
  induction count as [|count IH]; intros i a Hlen Hbody.
  - exists a. split; [reflexivity|].
    apply (fills_weaken (fun _ => False)); [|apply fills_nothing].
    intros j. split; [tauto|]. intros (k & Hk & _). lia.
  - cbn [for_from]. destruct (Hbody i a ltac:(lia) Hlen) as (a1 & -> & Hf1). cbn [bind].
    destruct (IH (i + 1) a1) as (a2 & -> & Hf2).
    + destruct Hf1 as [Hl _]. congruence.
    + intros k a0 Hk Hl0. apply Hbody; [lia|assumption].
    + exists a2. split; [reflexivity|].
      eapply fills_weaken; [|exact (fills_then _ _ _ _ _ _ Hf1 Hf2)].
      intros j. split.
      * intros [Hr|(k & Hk & Hr)]; [exists i; split; [lia|assumption]|].
        exists k. split; [lia|assumption].
      * intros (k & Hk & Hr). destruct (Z.eq_dec k i) as [->|Hne]; [now left|].
        right. exists k. split; [lia|assumption].
Qed.

Lemma for_upto_fills (target : Z -> R) (region : Z -> Z -> Prop)
  (body : Z -> list R -> option (list R)) (n : nat) (bound : Z) a :
  0 <= bound ->
  List.length a = n ->
  (forall k a, 0 <= k < bound -> List.length a = n ->
     exists a', body k a = Some a' /\ fills (region k) target a a') ->
  exists a', for_upto bound body a = Some a' /\
    fills (fun j => exists k, 0 <= k < bound /\ region k j) target a a'.
Proof.
  intros Hb Hlen Hbody. unfold for_upto. destruct (Z.ltb_spec bound 0); [lia|].
  destruct (for_from_fills target region body n (Z.to_nat bound) 0 a Hlen)
    as (a' & -> & Hf).
  - intros k a0 Hk. apply Hbody. lia.
  - exists a'. split; [reflexivity|]. eapply fills_weaken; [|exact Hf].
    intros j. split; intros (k & Hk & Hr); exists k; (split; [lia|assumption]).
Qed.

(** The same for the calls made by [par_for]. *)
Lemma for_each_fills (target : Z -> R) (region : Z -> Z -> Prop)
  (body : Z -> list R -> option (list R)) (n : nat) (zs : list Z) : forall a,
  List.length a = n ->
  (forall z a, In z zs -> List.length a = n ->
     exists a', body z a = Some a' /\ fills (region z) target a a') ->
  exists a', for_each zs body a = Some a' /\
    fills (fun j => exists z, In z zs /\ region z j) target a a'.
Proof.
  induction zs as [|z zs IH]; intros a Hlen Hbody.
  - exists a. split; [reflexivity|].
    apply (fills_weaken (fun _ => False)); [|apply fills_nothing].
    intros j. split; [tauto|]. intros (k & [] & _).
  - cbn [for_each]. destruct (Hbody z a ltac:(now left) Hlen) as (a1 & -> & Hf1).
    cbn [bind]. destruct (IH a1) as (a2 & -> & Hf2).
    + destruct Hf1 as [Hl _]. congruence.
    + intros k a0 Hk Hl0. apply Hbody; [now right|assumption].
    + exists a2. split; [reflexivity|].
      eapply fills_weaken; [|exact (fills_then _ _ _ _ _ _ Hf1 Hf2)].
      intros j. split.
      * intros [Hr|(k & Hk & Hr)]; [exists z; split; [now left|assumption]|].
        exists k. split; [now right|assumption].
      * intros (k & [<-|Hk] & Hr); [now left|]. right. now exists k.
Qed.

Lemma int_result_some z :
  ParFor.int_min <= z <= ParFor.int_max -> ParFor.int_result z = Some z.
Proof.
  intros [H1 H2]. unfold ParFor.int_result.
  apply Z.leb_le in H1, H2. now rewrite H1, H2.
Qed.

Lemma int_result_inv z r :
  ParFor.int_result z = Some r -> r = z /\ ParFor.int_min <= z <= ParFor.int_max.
Proof.
  unfold ParFor.int_result. intros H.
  destruct (Z.leb_spec ParFor.int_min z), (Z.leb_spec z ParFor.int_max);
    cbn in H; try discriminate.
  injection H as <-. auto.
Qed.

(** The flat index of a vertex lies below the number of vertices, and the
    vertex can be read back from it. *)
Lemma flat_range g x y z :
  in_grid g x y z -> 0 <= flat g x y z < vertices g.
Proof.
  unfold in_grid, flat, vertices. intros (Hx & Hy & Hz).
  assert (0 <= z * (ydim g + 1)) by nia.
  assert (0 <= (z * (ydim g + 1) + y) * (xdim g + 1)) by nia.
  split; [lia|].
  assert (z * (ydim g + 1) + y + 1 <= (zdim g + 1) * (ydim g + 1)) by nia.
  assert ((z * (ydim g + 1) + y + 1) * (xdim g + 1)
          <= (zdim g + 1) * (ydim g + 1) * (xdim g + 1)) by nia.
  nia.
Qed.

Lemma coords_flat g x y z :
  in_grid g x y z -> coords g (flat g x y z) = (x, y, z).
Proof.
  unfold in_grid, flat, coords. intros (Hx & Hy & Hz).
  assert (Hq : ((z * (ydim g + 1) + y) * (xdim g + 1) + x) / (xdim g + 1)
               = z * (ydim g + 1) + y).
  { rewrite Z.div_add_l by lia. rewrite Z.div_small by lia. lia. }
  rewrite Hq. f_equal; [f_equal|].
  - rewrite Z.add_comm, Z.mod_add by lia. apply Z.mod_small. lia.
  - rewrite Z.add_comm, Z.mod_add by lia. apply Z.mod_small. lia.
  - rewrite Z.div_add_l by lia. rewrite Z.div_small by lia. lia.
Qed.

Lemma flat_inj g x y z x' y' z' :
  in_grid g x y z -> in_grid g x' y' z' -> flat g x y z = flat g x' y' z' ->
  x = x' /\ y = y' /\ z = z'.
Proof.
  intros H H' Heq. pose proof (coords_flat g x y z H) as E.
  rewrite Heq, (coords_flat g x' y' z' H') in E. injection E. auto.
Qed.

(** When the [int] product of the vertex count is defined, on dimensions
    that are not negative, it is the number of vertices and the bounds of
    the loops are [int]s. *)
Lemma vertex_count_inv g n :
  0 <= xdim g -> 0 <= ydim g -> 0 <= zdim g ->
  vertex_count g = Some n ->
  n = vertices g /\ vertices g <= ParFor.int_max /\
  ParFor.int_result (xdim g + 1) = Some (xdim g + 1) /\
  ParFor.int_result (ydim g + 1) = Some (ydim g + 1) /\
  ParFor.int_result (zdim g + 1) = Some (zdim g + 1).
Proof.
  intros Hx Hy Hz. unfold vertex_count, vertices.
  destruct (ParFor.int_result (xdim g + 1)) as [x1|] eqn:Ex; [|discriminate].
  destruct (ParFor.int_result (ydim g + 1)) as [y1|] eqn:Ey; [|discriminate].
  cbn [bind].
  destruct (ParFor.int_result (x1 * y1)) as [xy|] eqn:Exy; [|discriminate].
  destruct (ParFor.int_result (zdim g + 1)) as [z1|] eqn:Ez; [|discriminate].
  cbn [bind]. intros H.
  pose proof (int_result_inv _ _ Ex) as [-> _].
  pose proof (int_result_inv _ _ Ey) as [-> _].
  pose proof (int_result_inv _ _ Exy) as [-> _].
  pose proof (int_result_inv _ _ Ez) as [-> _].
  apply int_result_inv in H as [-> [_ H]]. auto.
Qed.

Lemma vertex_count_some g :
  0 <= xdim g -> 0 <= ydim g -> 0 <= zdim g ->
  vertices g <= ParFor.int_max ->
  vertex_count g = Some (vertices g).
Proof.
  intros Hx Hy Hz Hfit. unfold vertex_count, vertices in *.
  assert (Hm : ParFor.int_min <= 0) by (unfold ParFor.int_min; lia).
  rewrite (int_result_some (xdim g + 1)) by nia.
  rewrite (int_result_some (ydim g + 1)) by nia. cbn [bind].
  rewrite (int_result_some ((xdim g + 1) * (ydim g + 1))) by nia.
  rewrite (int_result_some (zdim g + 1)) by nia. cbn [bind].
  apply int_result_some. nia.
Qed.

(** On a grid whose vertex count is an [int], no operation of [idx]
    leaves the range of [int] on a vertex of the grid. *)
Lemma idx_flat g x y z :
  vertices g <= ParFor.int_max ->
  in_grid g x y z -> idx g x y z = Some (flat g x y z).
Proof.
  intros Hfit Hin. pose proof (flat_range g x y z Hin) as Hr.
  unfold in_grid, idx, flat, vertices in *. destruct Hin as (Hx & Hy & Hz).
  assert (Hm : ParFor.int_min <= 0) by (unfold ParFor.int_min; lia).
  assert (0 <= z * (ydim g + 1)) by nia.
  assert (0 <= (z * (ydim g + 1) + y) * (xdim g + 1)) by nia.
  assert (z * (ydim g + 1) + y <= (z * (ydim g + 1) + y) * (xdim g + 1)) by nia.
  assert (ydim g + 1 <= (xdim g + 1) * (ydim g + 1)) by nia.
  assert (xdim g + 1 <= (xdim g + 1) * (ydim g + 1)) by nia.
  assert ((xdim g + 1) * (ydim g + 1) <= (xdim g + 1) * (ydim g + 1) * (zdim g + 1)) by nia.
  rewrite (int_result_some (ydim g + 1)) by lia. cbn [bind].
  rewrite (int_result_some (z * (ydim g + 1))) by lia. cbn [bind].
  rewrite (int_result_some (z * (ydim g + 1) + y)) by lia. cbn [bind].
  rewrite (int_result_some (xdim g + 1)) by lia. cbn [bind].
  rewrite (int_result_some ((z * (ydim g + 1) + y) * (xdim g + 1))) by lia. cbn [bind].
  apply int_result_some. lia.
Qed.

Lemma vec_new_some n :
  0 <= n -> exists a, vec_new n = Some a /\ List.length a = Z.to_nat n.
Proof.
  intros Hn. unfold vec_new. destruct (Z.ltb_spec n 0); [lia|].
  eexists. split; [reflexivity|]. apply repeat_length.
Qed.

End StoreFacts.

Module AccessibleFacts.
Import Geometry Grid Store Accessible GeometryFacts StoreFacts Examples.
Local Open Scope Z_scope.

Lemma atom_loop_fold xyz (pos : list vec3) : forall radii value,
  List.length radii = List.length pos ->
  atom_loop xyz pos radii value = Some (fold_left fmin (atom_terms xyz pos radii) value).
Proof.
  induction pos as [|p pos IH]; intros radii value Hlen.
  - destruct radii; [reflexivity|discriminate].
  - destruct radii as [|r radii]; [discriminate|]. cbn [atom_loop].
    rewrite IH by (cbn in Hlen; lia). reflexivity.
Qed.

Section Fill.
Variables (g : grid) (pos : list vec3) (radii : list R).
Hypothesis xdim_nonneg : 0 <= xdim g.
Hypothesis ydim_nonneg : 0 <= ydim g.
Hypothesis zdim_nonneg : 0 <= zdim g.
Hypothesis count_fits : vertices g <= ParFor.int_max.
Hypothesis same_length : List.length radii = List.length pos.

Lemma loop_bounds :
  ParFor.int_result (xdim g + 1) = Some (xdim g + 1) /\
  ParFor.int_result (ydim g + 1) = Some (ydim g + 1) /\
  ParFor.int_result (zdim g + 1) = Some (zdim g + 1).
Proof using xdim_nonneg ydim_nonneg zdim_nonneg count_fits.
  now destruct (vertex_count_inv g _ xdim_nonneg ydim_nonneg zdim_nonneg
                  (vertex_count_some g xdim_nonneg ydim_nonneg zdim_nonneg count_fits))
    as (_ & _ & ? & ? & ?).
Qed.

Lemma slab_fills z a :
  0 <= z <= zdim g ->
  List.length a = Z.to_nat (vertices g) ->
  exists a', accessible_slab g pos radii z a = Some a' /\
    fills (fun j => exists x y, in_grid g x y z /\ j = flat g x y z)
          (target g pos radii) a a'.
Proof using xdim_nonneg ydim_nonneg zdim_nonneg count_fits same_length.
  intros Hz Hlen. unfold accessible_slab.
  destruct loop_bounds as (Ex & Ey & _). rewrite Ey. cbn [bind].
  destruct (for_upto_fills (target g pos radii)
              (fun y j => exists x, in_grid g x y z /\ j = flat g x y z)
              (fun y accessible =>
                 bind (ParFor.int_result (xdim g + 1)) (fun x_end =>
                 for_upto x_end (fun x accessible =>
                   bind (accessible_value pos radii (vertex g x y z)) (fun value =>
                   bind (idx g x y z) (fun j =>
                     vec_set accessible j value))) accessible))
              (Z.to_nat (vertices g)) (ydim g + 1) a ltac:(lia) Hlen)
    as (a' & Hrun & Hf).
  - intros y a0 Hy Hlen0. rewrite Ex. cbn [bind].
    destruct (for_upto_fills (target g pos radii)
                (fun x j => in_grid g x y z /\ j = flat g x y z)
                (fun x accessible =>
                   bind (accessible_value pos radii (vertex g x y z)) (fun value =>
                   bind (idx g x y z) (fun j =>
                     vec_set accessible j value)))
                (Z.to_nat (vertices g)) (xdim g + 1) a0 ltac:(lia) Hlen0)
      as (a1 & Hrun1 & Hf1).
    + intros x a2 Hx Hlen2.
      assert (Hin : in_grid g x y z) by (unfold in_grid; lia).
      pose proof (flat_range g x y z Hin) as Hidx.
      unfold accessible_value. rewrite atom_loop_fold by assumption. cbn [bind].
      rewrite (idx_flat g x y z count_fits Hin). cbn [bind].
      destruct (vec_set_fills (target g pos radii) a2 (flat g x y z) ltac:(lia))
        as (a3 & Hset & Hf3).
      exists a3. split.
      * rewrite <- Hset. f_equal. unfold target. now rewrite coords_flat.
      * eapply fills_weaken; [|exact Hf3]. intros j. tauto.
    + exists a1. split; [exact Hrun1|]. eapply fills_weaken; [|exact Hf1].
      intros j. split.
      * intros (x & _ & Hin & Hj). now exists x.
      * intros (x & Hin & Hj). exists x. unfold in_grid in Hin. repeat split; try lia; tauto.
  - exists a'. split; [exact Hrun|]. eapply fills_weaken; [|exact Hf].
    intros j. split.
    + intros (y & _ & x & Hin & Hj). now exists x, y.
    + intros (x & y & Hin & Hj). exists y. unfold in_grid in Hin.
      split; [lia|]. now exists x.
Qed.

End Fill.

(** The fill ends and leaves, at every vertex, the running minimum of the
    loop over the atoms. *)
Lemma accessible_field_values (g : grid) (pos : list vec3) (radii : list R) (zs : list Z) :
  0 <= xdim g -> 0 <= ydim g -> 0 <= zdim g ->
  vertices g <= ParFor.int_max ->
  List.length radii = List.length pos ->
  Permutation zs (ParFor.index_range 0 (zdim g + 1)) ->
  exists accessible,
    accessible_field g pos radii zs = Some accessible /\
    Z.of_nat (List.length accessible) = vertices g /\
    forall x y z, in_grid g x y z ->
      vec_get accessible (flat g x y z)
      = Some (fold_left fmin (atom_terms (vertex g x y z) pos radii) huge).
Proof.
  intros Hx Hy Hz Hfit Hlen Hzs.
  assert (Hcount : 0 <= vertices g) by (unfold vertices; nia).
  unfold accessible_field. rewrite (vertex_count_some g Hx Hy Hz Hfit). cbn [bind].
  destruct (vec_new_some (vertices g) Hcount) as (a0 & -> & Hl0). cbn [bind].
  destruct (for_each_fills (target g pos radii)
              (fun z j => exists x y, in_grid g x y z /\ j = flat g x y z)
              (accessible_slab g pos radii) (Z.to_nat (vertices g)) zs a0 Hl0)
    as (acc & Hrun & Hl & Hin & _).
  - intros z a Hzin Hla. apply slab_fills; try assumption.
    apply (Permutation_in _ Hzs), ParForFacts.index_range_In in Hzin. lia.
  - exists acc. split; [exact Hrun|]. split; [rewrite Hl, Hl0; lia|].
    intros x y z Hgrid. rewrite Hin.
    + unfold target. now rewrite coords_flat.
    + exists z. split; [|now exists x, y].
      apply (Permutation_in _ (Permutation_sym Hzs)), ParForFacts.index_range_In.
      unfold in_grid in Hgrid. lia.
Qed.

(** Without a slab nothing is written: the vector keeps its zeros. *)
Lemma accessible_field_untouched (g : grid) (pos : list vec3) (radii : list R) :
  0 <= xdim g -> 0 <= ydim g -> 0 <= zdim g ->
  vertices g <= ParFor.int_max ->
  exists accessible,
    accessible_field g pos radii [] = Some accessible /\
    Z.of_nat (List.length accessible) = vertices g.
Proof.
  intros Hx Hy Hz Hfit.
  assert (Hcount : 0 <= vertices g) by (unfold vertices; nia).
  unfold accessible_field. rewrite (vertex_count_some g Hx Hy Hz Hfit). cbn [bind].
  destruct (vec_new_some (vertices g) Hcount) as (a0 & -> & Hl0). cbn [bind for_each].
  exists a0. split; [reflexivity|]. lia.
Qed.


(** The field under [par_for]: whatever the interleaving of at least one
    worker, once [par_for(0, zdim+1, ...)] has returned every vertex holds
    the running minimum of the loop over the atoms. *)
Lemma accessible_field_par_for (g : grid) (pos : list vec3) (radii : list R)
  (num_cpus : nat) (sched : list nat) (s : ParFor.state) :
  0 <= xdim g -> 0 <= ydim g -> 0 <= zdim g ->
  vertices g <= ParFor.int_max ->
  List.length radii = List.length pos ->
  (1 <= num_cpus)%nat ->
  zdim g + 1 + Z.of_nat num_cpus <= ParFor.int_max ->
  ParFor.run (zdim g + 1) sched (ParFor.init 0 num_cpus) = Some s ->
  ParFor.returned s = true ->
  exists accessible,
    accessible_field g pos radii (ParFor.invoked s) = Some accessible /\
    forall x y z, in_grid g x y z ->
      vec_get accessible (flat g x y z)
      = Some (fold_left fmin (atom_terms (vertex g x y z) pos radii) huge).
Proof.
  intros Hx Hy Hz Hfit Hlen Hcpus Hwrap Hrun Hret.
  assert (Hinv : Permutation (ParFor.invoked s) (ParFor.index_range 0 (zdim g + 1))).
  { apply (ParForFacts.returned_run_invoked 0 (zdim g + 1) num_cpus) with (sched := sched);
      try assumption.
    - unfold ParFor.int_min. lia.
    - lia. }
  destruct (accessible_field_values g pos radii (ParFor.invoked s) Hx Hy Hz Hfit Hlen Hinv)
    as (acc & Hacc & _ & Hval).
  exists acc. split; assumption.
Qed.


(** Where the vertex count is no [int]: on a grid of 1313 cells along each
    axis the product [(xdim+1)*(ydim+1)*(zdim+1)] is 2268747144, above the
    largest [int]; the size of the vector is undefined and there is no
    fill, and [idx] of the last vertex overflows as well. *)
Lemma wide_grid_overflows (pos : list vec3) (radii : list R) (zs : list Z) :
  vertices wide_grid = 2268747144 /\
  vertex_count wide_grid = None /\
  accessible_field wide_grid pos radii zs = None /\
  idx wide_grid 1313 1313 1313 = None.
Proof.
  assert (Hv : vertex_count wide_grid = None) by (vm_compute; reflexivity).
  split; [vm_compute; reflexivity|]. split; [exact Hv|]. split.
  - unfold accessible_field. now rewrite Hv.
  - vm_compute. reflexivity.
Qed.

End AccessibleFacts.

Module BandFacts.
Import Geometry Grid Store Band GeometryFacts Examples.

Lemma div2_lt n : (Nat.div2 (S n) < S n)%nat.
Proof. apply Nat.lt_div2. lia. Qed.

(** The search loop finds the partition point: when the elements that the
    result lies after come first in the searched part, the result is the
    index of the first other element. *)
Lemma bsearch_partition_point {A : Type} (before : A -> bool) (l : list A)
  (first len : nat) : forall k,
  (first + len <= List.length l)%nat ->
  (first <= k <= first + len)%nat ->
  (forall i a, (first <= i < k)%nat -> nth_error l i = Some a -> before a = true) ->
  (forall i a, (k <= i < first + len)%nat -> nth_error l i = Some a -> before a = false) ->
  bsearch before l first len = Some k.
Proof.
  funelim (bsearch before l first len); intros k Hlen Hk Hlo Hhi;
    try (pose proof (div2_lt n) as Hd; clear Heqcall;
         set (d := Nat.div2 (S n)) in *; clearbody d).
  - f_equal. lia.
  - exfalso. apply nth_error_None in Heq. lia.
  - assert (Hmid : (first + d < k)%nat).
    { destruct (Nat.le_gt_cases k (first + d)) as [Hle|Hgt]; [|lia].
      rewrite (Hhi (first + d)%nat a ltac:(lia) Heq0) in Heq.
      discriminate. }
    apply H; try lia.
    + intros i b Hi Hb. apply (Hlo i b); [lia|exact Hb].
    + intros i b Hi Hb. apply (Hhi i b); [lia|exact Hb].
  - assert (Hmid : (k <= first + d)%nat).
    { destruct (Nat.le_gt_cases k (first + d)) as [Hle|Hgt]; [lia|].
      rewrite (Hlo (first + d)%nat a ltac:(lia) Heq0) in Heq.
      discriminate. }
    apply H; try lia.
    + intros i b Hi Hb. apply (Hlo i b); [lia|exact Hb].
    + intros i b Hi Hb. apply (Hhi i b); [lia|exact Hb].
Qed.

(** On a list made of elements that pass [before] followed by elements
    that do not, the search returns the length of the first part. *)
Lemma bsearch_split {A : Type} (before : A -> bool) (l1 l2 : list A) :
  Forall (fun a => before a = true) l1 ->
  Forall (fun a => before a = false) l2 ->
  bsearch before (l1 ++ l2) 0 (List.length (l1 ++ l2)) = Some (List.length l1).
Proof.
  intros H1 H2. apply bsearch_partition_point.
  - lia.
  - rewrite length_app. lia.
  - intros i a Hi Hnth. rewrite nth_error_app1 in Hnth by lia.
    rewrite Forall_forall in H1. eapply H1, nth_error_In, Hnth.
  - intros i a Hi Hnth. rewrite nth_error_app2 in Hnth by lia.
    rewrite Forall_forall in H2. eapply H2, nth_error_In, Hnth.
Qed.

Lemma filter_all {A : Type} (f : A -> bool) (l : list A) :
  Forall (fun a => f a = true) l -> filter f l = l.
Proof.
  induction 1 as [|x l Hx _ IH]; cbn; [reflexivity|]. now rewrite Hx, IH.
Qed.

Lemma filter_none {A : Type} (f : A -> bool) (l : list A) :
  Forall (fun a => f a = false) l -> filter f l = [].
Proof.
  induction 1 as [|x l Hx _ IH]; cbn; [reflexivity|]. now rewrite Hx, IH.
Qed.

Lemma filter_sorted (f : vec3 -> bool) (l : list vec3) :
  sorted_by_z l -> sorted_by_z (filter f l).
Proof.
  unfold sorted_by_z. induction 1 as [|x l Hs IH Hx]; cbn; [constructor|].
  destruct (f x); [|exact IH]. constructor; [exact IH|].
  rewrite Forall_forall in *. intros b Hb. apply filter_In in Hb as [Hb _]. auto.
Qed.

Local Open Scope R_scope.

(** A test that, once it fails on a point, fails on all points that are
    not lower, splits a sorted vector in two parts. *)
Lemma sorted_split (before : vec3 -> bool) (l : list vec3) :
  (forall a b, vz a <= vz b -> before a = false -> before b = false) ->
  sorted_by_z l ->
  l = filter before l ++ filter (fun a => negb (before a)) l.
Proof.
  intros Hmono. unfold sorted_by_z. induction 1 as [|x l Hs IH Hx]; [reflexivity|].
  cbn. destruct (before x) eqn:Hbx; cbn.
  - now rewrite <- IH.
  - assert (Hall : Forall (fun a => before a = false) l).
    { rewrite Forall_forall in *. intros b Hb. apply (Hmono x); auto. }
    rewrite (filter_none _ _ Hall). cbn. f_equal.
    symmetry. apply filter_all. rewrite Forall_forall in *.
    intros b Hb. now rewrite (Hall b Hb).
Qed.

Lemma filter_passes {A : Type} (f : A -> bool) (l : list A) :
  Forall (fun a => f a = true) (filter f l).
Proof. apply Forall_forall. intros a Ha. now apply filter_In in Ha. Qed.

Lemma filter_fails {A : Type} (f : A -> bool) (l : list A) :
  Forall (fun a => f a = false) (filter (fun a => negb (f a)) l).
Proof.
  apply Forall_forall. intros a Ha. apply filter_In in Ha as [_ Ha].
  now apply negb_true_iff.
Qed.

Lemma bsearch_sorted (before : vec3 -> bool) (l : list vec3) :
  (forall a b, vz a <= vz b -> before a = false -> before b = false) ->
  sorted_by_z l ->
  bsearch before l 0 (List.length l) = Some (List.length (filter before l)).
Proof.
  intros Hmono Hs. rewrite (sorted_split before l Hmono Hs) at 1 2.
  apply bsearch_split; [apply filter_passes|apply filter_fails].
Qed.

Lemma filter_filter {A : Type} (f h : A -> bool) (l : list A) :
  filter f (filter h l) = filter (fun a => h a && f a) l.
Proof.
  induction l as [|x l IH]; cbn; [reflexivity|].
  destruct (h x); cbn; [destruct (f x)|]; now rewrite IH.
Qed.

Section Query.
Variables (g : grid) (zsorter : list vec3) (zpos : R).
Hypothesis sorted : sorted_by_z zsorter.
Hypothesis margin_nonneg : (0 <= margin g)%R.

Lemma below_mono a b :
  (vz a <= vz b)%R -> below g zpos a = false -> below g zpos b = false.
Proof using Type.
  unfold below, cmpz. cbn. intros Hab Ha.
  destruct (Rltb_spec (vz a) (zpos - margin g)); [discriminate|].
  apply Rltb_false. lra.
Qed.

Lemma upto_mono a b :
  (vz a <= vz b)%R -> upto g zpos a = false -> upto g zpos b = false.
Proof using Type.
  unfold upto, cmpz. cbn. intros Hab Ha. apply negb_false_iff in Ha.
  apply negb_false_iff.
  destruct (Rltb_spec (zpos + margin g) (vz a)); [|discriminate].
  apply Rltb_true. lra.
Qed.

Lemma band_begin_spec :
  band_begin g zsorter zpos = Some (List.length (filter (below g zpos) zsorter)).
Proof using sorted.
  unfold band_begin, lower_bound. apply bsearch_sorted; [apply below_mono|exact sorted].
Qed.

Lemma band_end_spec :
  band_end g zsorter zpos = Some (List.length (filter (upto g zpos) zsorter)).
Proof using sorted.
  unfold band_end, upper_bound. apply bsearch_sorted; [apply upto_mono|exact sorted].
Qed.

(** The points from [p] to [q] are those with [z] in the range. *)
Lemma between_spec :
  between zsorter (List.length (filter (below g zpos) zsorter)) (List.length (filter (upto g zpos) zsorter))
  = Some (filter (in_z_range g zpos) zsorter).
Proof using sorted margin_nonneg.
  set (rest := filter (fun a => negb (below g zpos a)) zsorter).
  assert (Hz : zsorter = filter (below g zpos) zsorter ++ rest)
    by (apply sorted_split; [apply below_mono|exact sorted]).
  assert (Hr : rest = filter (upto g zpos) rest ++ filter (fun a => negb (upto g zpos a)) rest).
  { apply sorted_split; [apply upto_mono|]. now apply filter_sorted. }
  assert (Hup : filter (upto g zpos) zsorter = filter (below g zpos) zsorter ++ filter (upto g zpos) rest).
  { rewrite Hz at 1. rewrite filter_app. f_equal.
    rewrite filter_filter. apply filter_ext_in. intros a _.
    unfold below, upto, cmpz. cbn.
    destruct (Rltb_spec (vz a) (zpos - margin g)); [|reflexivity].
    cbn. rewrite Rltb_false by lra. reflexivity. }
  assert (Hin : filter (in_z_range g zpos) zsorter = filter (upto g zpos) rest).
  { unfold rest. rewrite filter_filter. apply filter_ext. intros a.
    unfold in_z_range, below, upto, cmpz. cbn.
    destruct (Rltb_spec (vz a) (zpos - margin g));
      destruct (Rleb_spec (zpos - margin g) (vz a)); try lra; cbn; try reflexivity.
    destruct (Rltb_spec (zpos + margin g) (vz a));
      destruct (Rleb_spec (vz a) (zpos + margin g)); try lra; reflexivity. }
  unfold between. rewrite Hup, Hin, length_app.
  remember (filter (below g zpos) zsorter) as A eqn:HA.
  remember (filter (upto g zpos) rest) as B eqn:HB.
  remember (filter (fun a => negb (upto g zpos a)) rest) as C eqn:HC.
  destruct (Nat.ltb_spec (List.length A + List.length B) (List.length A)); [lia|].
  f_equal. rewrite Hz, Hr.
  rewrite skipn_app, skipn_all, Nat.sub_diag. cbn [skipn app].
  replace (List.length A + List.length B - List.length A)%nat
    with (List.length B) by lia.
  rewrite firstn_app, firstn_all, Nat.sub_diag. cbn [firstn].
  now rewrite app_nil_r.
Qed.

Lemma y_band_spec ypos :
  y_band g zsorter zpos ypos = Some (brute_force g zsorter zpos ypos).
Proof using sorted margin_nonneg.
  unfold y_band. rewrite band_begin_spec, band_end_spec. cbn [bind].
  unfold ysorter_of. rewrite between_spec. cbn [option_map].
  unfold brute_force. now rewrite filter_filter.
Qed.

End Query.

(** C5 --- the query of the band: on points sorted by [z], with a margin
    [water_radius + grid_spacing] that is not negative, the binary search
    for the range of [z] followed by the filter on [y] returns the points
    that one pass over all points with the same bounds on [z] and [y]
    keeps: the same points, as often, and in the same order. *)
Theorem band_query_is_brute_force (g : grid) (zsorter : list vec3) (zpos ypos : R) :
  sorted_by_z zsorter ->
  (0 <= margin g)%R ->
  exists ysorter,
    y_band g zsorter zpos ypos = Some ysorter /\
    ysorter = brute_force g zsorter zpos ypos /\
    Permutation ysorter (brute_force g zsorter zpos ypos).
Proof.
  intros Hs Hm. exists (brute_force g zsorter zpos ypos).
  split; [now apply y_band_spec|]. split; [reflexivity|apply Permutation_refl].
Qed.

(** The same for three points and the target [z = 0], [y = 0] on the
    unit grid, whose margin is 3. *)
Lemma band_query_is_brute_force_witness :
  exists ysorter,
    y_band unit_grid three_points 0 0 = Some ysorter /\
    ysorter = brute_force unit_grid three_points 0 0 /\
    Permutation ysorter (brute_force unit_grid three_points 0 0).
Proof.
  apply (band_query_is_brute_force unit_grid three_points 0 0).
  - unfold sorted_by_z, three_points. repeat constructor; cbn [vz]; lra.
  - unfold margin, water_radius, unit_grid. cbn [grid_spacing]. lra.
Defined.

(** What the query returns there: the first point only; the second is out
    of reach in [y], the third in [z]. *)
Lemma band_query_three_points :
  y_band unit_grid three_points 0 0 = Some [mkVec3 0 0 0].
Proof.
  rewrite y_band_spec.
  - unfold brute_force, three_points, in_z_range, near_y, margin, water_radius, unit_grid.
    cbn [filter vz vy grid_spacing].
    rewrite (Rleb_true (0 - (2 + 1)) 0) by lra.
    rewrite (Rleb_true 0 (0 + (2 + 1))) by lra.
    rewrite (Rleb_true (Rabs (0 - 0)) (2 + 1)) by (apply Rabs_le; lra).
    rewrite (Rleb_true (0 - (2 + 1)) 1) by lra.
    rewrite (Rleb_true 1 (0 + (2 + 1))) by lra.
    rewrite (Rleb_false (Rabs (5 - 0)) (2 + 1)) by (rewrite Rabs_right; lra).
    rewrite (Rleb_true (0 - (2 + 1)) 9) by lra.
    rewrite (Rleb_false 9 (0 + (2 + 1))) by lra.
    reflexivity.
  - unfold sorted_by_z, three_points. repeat constructor; cbn [vz]; lra.
  - unfold margin, water_radius, unit_grid. cbn [grid_spacing]. lra.
Qed.

End BandFacts.

Module ExcludedFacts.
Import Geometry Grid Store Band Excluded GeometryFacts StoreFacts AccessibleFacts BandFacts.
Local Open Scope Z_scope.

Lemma vec_get_nth (a : list R) (i : Z) :
  0 <= i < Z.of_nat (List.length a) ->
  vec_get a i = Some (nth (Z.to_nat i) a 0%R).
Proof.
  intros Hi. unfold vec_get. destruct (Z.ltb_spec i 0); [lia|].
  apply nth_error_nth'. lia.
Qed.

Lemma fold_dist xyz (band : list vec3) : forall value,
  fold_left (fun value r => fmin value (dist2 xyz r)) band value
  = fold_left fmin (map (dist2 xyz) band) value.
Proof. induction band as [|r band IH]; intros value; cbn; [reflexivity|apply IH]. Qed.

(** The three cases of the innermost block. *)
Lemma excluded_value_cases (a : R) (band : list vec3) (xyz : vec3) :
  ((0 <= a)%R -> excluded_value a band xyz = outside_value) /\
  ((a < 0)%R -> (forall r, In r band -> (huge <= dist2 xyz r)%R) ->
     excluded_value a band xyz = outside_value) /\
  ((a < 0)%R -> forall m, is_least m (map (dist2 xyz) band) -> (m < huge)%R ->
     excluded_value a band xyz = (m - water_radius * water_radius)%R).
Proof.
  unfold excluded_value. rewrite fold_dist.
  destruct (fold_fmin_spec (map (dist2 xyz) band) huge) as (H1 & H2 & H3).
  split; [|split].
  - intros Ha. now rewrite Rltb_false.
  - intros Ha Hfar. rewrite Rltb_true by assumption.
    rewrite Reqb_true; [reflexivity|].
    destruct H3 as [H3|H3]; [exact H3|].
    apply in_map_iff in H3 as (r & Hr & Hin). specialize (Hfar r Hin). lra.
  - intros Ha m [Hm Hleast] Hlt. rewrite Rltb_true by assumption.
    pose proof (H2 m Hm) as Hle.
    rewrite Reqb_false by lra. f_equal.
    destruct H3 as [H3|H3]; [lra|]. specialize (Hleast _ H3). lra.
Qed.

Section Fill.
Variables (g : grid) (zsorter : list vec3) (accessible : list R).
Hypothesis xdim_nonneg : 0 <= xdim g.
Hypothesis ydim_nonneg : 0 <= ydim g.
Hypothesis zdim_nonneg : 0 <= zdim g.
Hypothesis count_fits : vertices g <= ParFor.int_max.
Hypothesis sorted : sorted_by_z zsorter.
Hypothesis margin_nonneg : (0 <= margin g)%R.
Hypothesis accessible_length : Z.of_nat (List.length accessible) = vertices g.

Lemma excluded_slab_fills z a :
  0 <= z <= zdim g ->
  List.length a = Z.to_nat (vertices g) ->
  exists a', excluded_slab g zsorter accessible z a = Some a' /\
    fills (fun j => exists x y, in_grid g x y z /\ j = flat g x y z)
          (etarget g zsorter accessible) a a'.
Proof using xdim_nonneg ydim_nonneg zdim_nonneg count_fits sorted margin_nonneg
            accessible_length.
  intros Hz Hlen. unfold excluded_slab.
  destruct (loop_bounds g xdim_nonneg ydim_nonneg zdim_nonneg count_fits) as (Ex & Ey & _).
  set (zpos := (IZR z * grid_spacing g + vz (gmin g))%R).
  rewrite (band_begin_spec g zsorter zpos sorted).
  rewrite (band_end_spec g zsorter zpos sorted). cbn [bind].
  rewrite Ey. cbn [bind].
  match goal with |- exists a', for_upto _ ?body a = _ /\ _ =>
    destruct (for_upto_fills (etarget g zsorter accessible)
                (fun y j => exists x, in_grid g x y z /\ j = flat g x y z)
                body (Z.to_nat (vertices g)) (ydim g + 1) a ltac:(lia) Hlen)
      as (a' & Hrun & Hf)
  end.
  - intros y a0 Hy Hlen0. cbv beta.
    set (ypos := (IZR y * grid_spacing g + vy (gmin g))%R).
    unfold ysorter_of.
    rewrite (between_spec g zsorter zpos sorted margin_nonneg). cbn [option_map bind].
    rewrite Ex. cbn [bind].
    match goal with |- exists a', for_upto _ ?body a0 = _ /\ _ =>
      destruct (for_upto_fills (etarget g zsorter accessible)
                  (fun x j => in_grid g x y z /\ j = flat g x y z)
                  body (Z.to_nat (vertices g)) (xdim g + 1) a0 ltac:(lia) Hlen0)
        as (a1 & Hrun1 & Hf1)
    end.
    + intros x a2 Hx Hlen2. cbv beta.
      assert (Hin : in_grid g x y z) by (unfold in_grid; lia).
      pose proof (flat_range g x y z Hin) as Hidx.
      rewrite (idx_flat g x y z count_fits Hin). cbn [bind].
      rewrite vec_get_nth by lia. cbn [bind].
      destruct (vec_set_fills (etarget g zsorter accessible) a2 (flat g x y z) ltac:(lia))
        as (a3 & Hset & Hf3).
      exists a3. split.
      * rewrite <- Hset. f_equal. unfold etarget. rewrite coords_flat by assumption.
        unfold brute_force. rewrite filter_filter. reflexivity.
      * eapply fills_weaken; [|exact Hf3]. intros j. tauto.
    + exists a1. split; [exact Hrun1|]. eapply fills_weaken; [|exact Hf1].
      intros j. split.
      * intros (x & _ & Hin & Hj). now exists x.
      * intros (x & Hin & Hj). exists x. unfold in_grid in Hin. repeat split; try lia; tauto.
  - exists a'. split; [exact Hrun|]. eapply fills_weaken; [|exact Hf].
    intros j. split.
    + intros (y & _ & x & Hin & Hj). now exists x, y.
    + intros (x & y & Hin & Hj). exists y. unfold in_grid in Hin.
      split; [lia|]. now exists x.
Qed.

End Fill.

(** The second fill ends and leaves, at every vertex, the innermost block
    run on the accessible value there and the band of the vertex. *)
Lemma excluded_field_values (g : grid) (zsorter : list vec3) (accessible : list R)
  (zs : list Z) :
  0 <= xdim g -> 0 <= ydim g -> 0 <= zdim g ->
  vertices g <= ParFor.int_max ->
  sorted_by_z zsorter ->
  (0 <= margin g)%R ->
  Z.of_nat (List.length accessible) = vertices g ->
  Permutation zs (ParFor.index_range 0 (zdim g + 1)) ->
  exists excluded,
    excluded_field g zsorter accessible zs = Some excluded /\
    Z.of_nat (List.length excluded) = vertices g /\
    forall x y z, in_grid g x y z ->
      exists a,
        vec_get accessible (flat g x y z) = Some a /\
        vec_get excluded (flat g x y z)
        = Some (excluded_value a
                  (brute_force g zsorter (vz (vertex g x y z)) (vy (vertex g x y z)))
                  (vertex g x y z)).
Proof.
  intros Hx Hy Hz Hfit Hs Hm Hacc Hzs.
  assert (Hcount : 0 <= vertices g) by (unfold vertices; nia).
  unfold excluded_field. rewrite (vertex_count_some g Hx Hy Hz Hfit). cbn [bind].
  destruct (vec_new_some (vertices g) Hcount) as (a0 & -> & Hl0). cbn [bind].
  destruct (for_each_fills (etarget g zsorter accessible)
              (fun z j => exists x y, in_grid g x y z /\ j = flat g x y z)
              (excluded_slab g zsorter accessible) (Z.to_nat (vertices g)) zs a0 Hl0)
    as (exc & Hrun & Hl & Hin & _).
  - intros z a Hzin Hla. apply excluded_slab_fills; try assumption.
    apply (Permutation_in _ Hzs), ParForFacts.index_range_In in Hzin. lia.
  - exists exc. split; [exact Hrun|]. split; [rewrite Hl, Hl0; lia|].
    intros x y z Hgrid. pose proof (flat_range g x y z Hgrid) as Hidx.
    exists (nth (Z.to_nat (flat g x y z)) accessible 0%R). split.
    + apply vec_get_nth. lia.
    + rewrite Hin.
      * unfold etarget. now rewrite coords_flat.
      * exists z. split; [|now exists x, y].
        apply (Permutation_in _ (Permutation_sym Hzs)), ParForFacts.index_range_In.
        unfold in_grid in Hgrid. lia.
Qed.

(** Without a slab nothing is written. *)
Lemma excluded_field_untouched (g : grid) (zsorter : list vec3) (accessible : list R) :
  0 <= xdim g -> 0 <= ydim g -> 0 <= zdim g ->
  vertices g <= ParFor.int_max ->
  exists excluded, excluded_field g zsorter accessible [] = Some excluded.
Proof.
  intros Hx Hy Hz Hfit.
  assert (Hcount : 0 <= vertices g) by (unfold vertices; nia).
  unfold excluded_field. rewrite (vertex_count_some g Hx Hy Hz Hfit). cbn [bind].
  destruct (vec_new_some (vertices g) Hcount) as (a0 & -> & Hl0). cbn [bind for_each].
  now exists a0.
Qed.

End ExcludedFacts.

Module ExcludedTheorems.
Import Geometry Grid Store Band Excluded GeometryFacts StoreFacts BandFacts.
Import ExcludedFacts Examples.
Local Open Scope R_scope.



(** The field under [par_for]: whatever the interleaving of at least one
    worker, once the second [par_for] has returned every vertex holds the
    value of the innermost block. *)
Lemma excluded_field_par_for (g : grid) (zsorter : list vec3) (accessible : list R)
  (num_cpus : nat) (sched : list nat) (s : ParFor.state) :
  (0 <= xdim g)%Z -> (0 <= ydim g)%Z -> (0 <= zdim g)%Z ->
  (vertices g <= ParFor.int_max)%Z ->
  sorted_by_z zsorter ->
  0 <= margin g ->
  Z.of_nat (List.length accessible) = vertices g ->
  (1 <= num_cpus)%nat ->
  (zdim g + 1 + Z.of_nat num_cpus <= ParFor.int_max)%Z ->
  ParFor.run (zdim g + 1) sched (ParFor.init 0 num_cpus) = Some s ->
  ParFor.returned s = true ->
  exists excluded,
    excluded_field g zsorter accessible (ParFor.invoked s) = Some excluded /\
    forall x y z, in_grid g x y z ->
      exists a,
        vec_get accessible (flat g x y z) = Some a /\
        vec_get excluded (flat g x y z)
        = Some (excluded_value a
                  (brute_force g zsorter (vz (vertex g x y z)) (vy (vertex g x y z)))
                  (vertex g x y z)).
Proof.
  intros Hx Hy Hz Hfit Hs Hm Hacc Hcpus Hwrap Hrun Hret.
  assert (Hinv : Permutation (ParFor.invoked s) (ParFor.index_range 0 (zdim g + 1))).
  { apply (ParForFacts.returned_run_invoked 0 (zdim g + 1) num_cpus) with (sched := sched);
      try assumption.
    - unfold ParFor.int_min. lia.
    - lia. }
  destruct (excluded_field_values g zsorter accessible (ParFor.invoked s)
              Hx Hy Hz Hfit Hs Hm Hacc Hinv)
    as (exc & Hexc & _ & Hval).
  exists exc. split; assumption.
Qed.

Lemma three_points_sorted : sorted_by_z three_points.
Proof.
  unfold three_points, sorted_by_z.
  repeat (constructor; [|repeat constructor; cbn [vz]; lra]). constructor.
Qed.



End ExcludedTheorems.

Module ColourFacts.
Import Geometry Grid Colour GeometryFacts Examples.
Local Open Scope R_scope.

(** The clamped weight of an atom that contributes. *)
Lemma clamp_pos w : 0 < w -> 0 < fmax 0 (fmin w 1) <= 1.
Proof.
  intros Hw. rewrite fmax_Rmax, fmin_Rmin.
  unfold Rmax, Rmin. destruct (Rle_dec w 1), (Rle_dec 0 _); lra.
Qed.

Lemma blend_step_above xyz c a :
  nonneg_rgb (color a) -> above_white c -> above_white (blend_step xyz c a).
Proof.
  intros (Hr & Hg & Hb) (H1 & H2 & H3). unfold blend_step.
  destruct (Rltb_spec 0 (weight_of xyz a)) as [Hw|Hw]; [|repeat split; assumption].
  destruct (clamp_pos _ Hw) as [Hc _].
  set (w := fmax 0 (fmin (weight_of xyz a) 1)) in *.
  unfold above_white. cbn. repeat split; nra.
Qed.

Lemma blend_above xyz (atoms_ : list colored_atom) : forall c,
  Forall (fun a => nonneg_rgb (color a)) atoms_ ->
  above_white c -> above_white (fold_left (blend_step xyz) atoms_ c).
Proof.
  induction atoms_ as [|a atoms_ IH]; intros c Hall Hc; [exact Hc|].
  cbn [fold_left]. inversion Hall as [|? ? Ha Hrest]; subst.
  apply IH; [assumption|]. now apply blend_step_above.
Qed.

Lemma dot4_above c : above_white c -> 3 <= dot4 (set_w c 0) (set_w c 0).
Proof. intros (H1 & H2 & H3). unfold dot4. cbn. nra. Qed.

Lemma normalize_some v :
  0 < dot4 v v -> normalize v = Some (vscale4 v (1 / sqrt (dot4 v v))).
Proof. intros H. unfold normalize. rewrite Reqb_false by lra. reflexivity. Qed.

(** C9 --- the vector handed to [glm::normalize] is never short: for
    coloured atoms whose red, green and blue are not negative, and every
    position, the sum starts from white and each channel stays at least 1,
    so with alpha set to 0 its length is at least [sqrt 3]; the
    normalisation is defined ([egen] yields a colour) and the case of a
    length near zero does not arise. *)
Theorem egen_normalize_defined (g : grid) (atoms_ : list colored_atom) (x y z : R) :
  Forall (fun a => nonneg_rgb (color a)) atoms_ ->
  let v := to_normalize (world g x y z) atoms_ in
  above_white (blend (world g x y z) atoms_) /\
  sqrt 3 <= sqrt (dot4 v v) /\
  exists c, egen g atoms_ x y z = Some c /\ cw c = 1.
Proof.
  intros Hall v.
  assert (Habove : above_white (blend (world g x y z) atoms_)).
  { apply blend_above; [assumption|]. unfold above_white. cbn. lra. }
  pose proof (dot4_above _ Habove) as Hdot. fold (to_normalize (world g x y z) atoms_) in Hdot.
  fold v in Hdot.
  split; [exact Habove|]. split; [apply sqrt_le_1; lra|].
  unfold egen, egen_color. fold v. rewrite normalize_some by lra.
  cbn [option_map]. eexists. split; reflexivity.
Qed.

Lemma egen_normalize_defined_witness :
  let v := to_normalize (world unit_grid 0 0 0) [red_atom] in
  above_white (blend (world unit_grid 0 0 0) [red_atom]) /\
  sqrt 3 <= sqrt (dot4 v v) /\
  exists c, egen unit_grid [red_atom] 0 0 0 = Some c /\ cw c = 1.
Proof.
  apply (egen_normalize_defined unit_grid [red_atom] 0 0 0).
  repeat constructor; cbn; lra.
Defined.

End ColourFacts.

Module ColourTheorems.
Import Geometry Grid Colour GeometryFacts ColourFacts Examples.
Local Open Scope R_scope.

Lemma sqrt3_pos : 0 < sqrt 3.
Proof. apply sqrt_lt_R0. lra. Qed.

(** With no contribution the colour is white, normalised. *)
Lemma egen_color_white xyz : egen_color [] xyz = Some normalized_white.
Proof.
  unfold egen_color, to_normalize, blend. cbn [fold_left].
  assert (Hd : dot4 (set_w (mkVec4 1 1 1 1) 0) (set_w (mkVec4 1 1 1 1) 0) = 3)
    by (unfold dot4, set_w; cbn [cx cy cz cw]; lra).
  rewrite normalize_some by (rewrite Hd; lra). rewrite Hd.
  unfold normalized_white, vscale4, set_w. cbn [option_map cx cy cz cw].
  do 2 f_equal; lra.
Qed.

(** C6, as amended --- one coloured atom of radius [r], whose red, green
    and blue are not negative, and a vertex at distance [d] from its
    centre.  If [d < 2r], the weight [4r^2 - d^2] is positive, and with [k]
    the lesser of the weight and 1, each of red, green and blue of the
    colour is 1 plus [k] times that channel of the atom's colour, divided
    by the length of the vector of the three sums; alpha is 1.  That is
    white plus the atom's colour times the weight cut at 1, normalised, and
    it has the hue of the atom's colour.  If [d >= 2r] the atom adds
    nothing and the colour is white normalised,
    [(1/sqrt 3, 1/sqrt 3, 1/sqrt 3, 1)]. *)
Theorem egen_single_atom (a : colored_atom) (xyz : vec3) (d : R) :
  nonneg_rgb (color a) ->
  0 <= radius a ->
  0 <= d ->
  d * d = dist2 xyz (apos a) ->
  (d < 2 * radius a ->
     0 < weight_of xyz a /\
     exists c, egen_color [a] xyz = Some c /\ cw c = 1 /\ same_hue (color a) c /\
       let k := Rmin (4 * (radius a * radius a) - d * d) 1 in
       let red := 1 + k * cx (color a) in
       let green := 1 + k * cy (color a) in
       let blue := 1 + k * cz (color a) in
       let length := sqrt (red * red + green * green + blue * blue) in
       cx c = red / length /\ cy c = green / length /\ cz c = blue / length) /\
  (2 * radius a <= d ->
     weight_of xyz a <= 0 /\ egen_color [a] xyz = Some normalized_white).
Proof.
  intros Hrgb Hr Hd Hd2. split.
  - intros Hlt.
    assert (Hw : 0 < weight_of xyz a) by (unfold weight_of; rewrite <- Hd2; nra).
    split; [exact Hw|].
    destruct (clamp_pos _ Hw) as [Hc _].
    assert (Habove : above_white (blend xyz [a])).
    { apply blend_above; [constructor; [assumption|constructor]|].
      unfold above_white. vec_simpl. lra. }
    pose proof (dot4_above _ Habove) as Hdot.
    unfold egen_color, to_normalize. rewrite normalize_some by lra.
    cbn [option_map]. eexists. split; [reflexivity|]. split; [reflexivity|].
    set (D := dot4 (set_w (blend xyz [a]) 0) (set_w (blend xyz [a]) 0)) in *.
    assert (HD : 0 < sqrt D) by (apply sqrt_lt_R0; lra).
    unfold blend. cbn [fold_left]. unfold blend_step. rewrite Rltb_true by assumption.
    set (w := fmax 0 (fmin (weight_of xyz a) 1)) in *.
    split.
    + exists (w * (1 / sqrt D)), (1 / sqrt D). split.
      * apply Rmult_lt_0_compat; [assumption|]. apply Rdiv_lt_0_compat; lra.
      * unfold vadd4, vscale4, set_w. vec_simpl. repeat split; ring.
    + assert (Hk : w = Rmin (4 * (radius a * radius a) - d * d) 1).
      { unfold w. rewrite fmax_Rmax, fmin_Rmin.
        replace (weight_of xyz a) with (4 * (radius a * radius a) - d * d)
          by (unfold weight_of; rewrite Hd2; ring).
        apply Rmax_right. apply Rmin_glb; [|lra].
        unfold weight_of in Hw. rewrite <- Hd2 in Hw. lra. }
      assert (HDk : D = (1 + w * cx (color a)) * (1 + w * cx (color a))
                        + (1 + w * cy (color a)) * (1 + w * cy (color a))
                        + (1 + w * cz (color a)) * (1 + w * cz (color a))).
      { unfold D, blend. cbn [fold_left]. unfold blend_step.
        rewrite Rltb_true by assumption. fold w.
        unfold dot4, vadd4, vscale4, set_w. vec_simpl. ring. }
      cbv zeta. rewrite <- Hk, <- HDk.
      unfold vadd4, vscale4, set_w. vec_simpl. repeat split; field; lra.
  - intros Hge.
    assert (Hw : weight_of xyz a <= 0) by (unfold weight_of; rewrite <- Hd2; nra).
    split; [exact Hw|].
    rewrite <- (egen_color_white xyz).
    unfold egen_color, to_normalize, blend. cbn [fold_left]. unfold blend_step.
    now rewrite Rltb_false.
Qed.

Lemma red_atom_dist2 : dist2 beside_red_atom (apos red_atom) = 3 / 2 * (3 / 2).
Proof.
  unfold dist2, dot, vsub, beside_red_atom, red_atom. vec_simpl. lra.
Qed.

(** The same for the red atom and the point beside it. *)
Lemma egen_single_atom_witness :
  (3 / 2 < 2 * radius red_atom ->
     0 < weight_of beside_red_atom red_atom /\
     exists c, egen_color [red_atom] beside_red_atom = Some c /\ cw c = 1 /\
               same_hue (color red_atom) c /\
       let k := Rmin (4 * (radius red_atom * radius red_atom) - 3 / 2 * (3 / 2)) 1 in
       let red := 1 + k * cx (color red_atom) in
       let green := 1 + k * cy (color red_atom) in
       let blue := 1 + k * cz (color red_atom) in
       let length := sqrt (red * red + green * green + blue * blue) in
       cx c = red / length /\ cy c = green / length /\ cz c = blue / length) /\
  (2 * radius red_atom <= 3 / 2 ->
     weight_of beside_red_atom red_atom <= 0 /\
     egen_color [red_atom] beside_red_atom = Some normalized_white).
Proof.
  apply (egen_single_atom red_atom beside_red_atom (3 / 2)).
  - unfold nonneg_rgb, red_atom. vec_simpl. lra.
  - unfold red_atom. vec_simpl. lra.
  - lra.
  - symmetry. exact red_atom_dist2.
Defined.

(** A vertex at distance 3/2 from a red atom of radius 1 is not nearer
    than the radius, yet the atom contributes with weight 1: the colour is
    [(2, 1, 1)] normalised, with alpha 1, which is neither white nor grey. *)
Lemma egen_beside_red_atom :
  exists c,
    egen_color [red_atom] beside_red_atom = Some c /\
    radius red_atom * radius red_atom <= dist2 beside_red_atom (apos red_atom) /\
    cx c = 2 / sqrt 6 /\ cy c = 1 / sqrt 6 /\ cz c = 1 / sqrt 6 /\ cw c = 1 /\
    cx c <> cy c /\ c <> mkVec4 1 1 1 1.
Proof.
  assert (Hw : weight_of beside_red_atom red_atom = 7 / 4)
    by (unfold weight_of; rewrite red_atom_dist2; unfold red_atom; vec_simpl; lra).
  assert (Hb : blend beside_red_atom [red_atom] = mkVec4 (1 + 1 * 1) (1 + 0 * 1) (1 + 0 * 1) (1 + 1 * 1)).
  { unfold blend. cbn [fold_left]. unfold blend_step. rewrite Hw.
    rewrite Rltb_true by lra. rewrite fmin_Rmin, fmax_Rmax.
    rewrite Rmin_right by lra. rewrite Rmax_right by lra.
    unfold vadd4, vscale4, red_atom. vec_simpl. reflexivity. }
  assert (Hd : dot4 (to_normalize beside_red_atom [red_atom])
                    (to_normalize beside_red_atom [red_atom]) = 6).
  { unfold to_normalize. rewrite Hb. unfold dot4, set_w. vec_simpl. lra. }
  assert (H6 : 0 < sqrt 6) by (apply sqrt_lt_R0; lra).
  eexists. split.
  - unfold egen_color. rewrite normalize_some by lra. rewrite Hd. cbn [option_map].
    unfold to_normalize. rewrite Hb. reflexivity.
  - rewrite red_atom_dist2. unfold vscale4, set_w, red_atom. vec_simpl.
    assert (Hinv : 0 < / sqrt 6) by now apply Rinv_0_lt_compat.
    unfold Rdiv. repeat split; try lra.
    intros Heq. injection Heq as H1 H2 H3. lra.
Qed.

End ColourTheorems.

Module PipelineFacts.
Import Geometry Grid Store Atoms Accessible Band Excluded Program.
Import GeometryFacts StoreFacts ParForFacts AccessibleFacts BandFacts ExcludedFacts.
Local Open Scope R_scope.

Lemma insert_by_z_perm a (l : list vec3) : Permutation (insert_by_z a l) (a :: l).
Proof.
  induction l as [|b t IH]; [reflexivity|]. cbn [insert_by_z].
  destruct (cmpz a b); [reflexivity|].
  rewrite IH. apply perm_swap.
Qed.

Lemma insert_by_z_sorted a (l : list vec3) :
  sorted_by_z l -> sorted_by_z (insert_by_z a l).
Proof.
  unfold sorted_by_z. induction l as [|b t IH]; intros Hs.
  - repeat constructor.
  - cbn [insert_by_z]. apply StronglySorted_inv in Hs as [Ht Hb].
    unfold cmpz. destruct (Rltb_spec (vz a) (vz b)) as [Hlt|Hge].
    + constructor; [constructor; assumption|].
      constructor; [lra|].
      eapply Forall_impl; [|exact Hb]. cbv beta. intros c Hc. lra.
    + constructor; [now apply IH|].
      eapply Permutation_Forall; [symmetry; apply insert_by_z_perm|].
      constructor; [lra|exact Hb].
Qed.

(** [std::sort] leaves the points sorted by [z], and the same points. *)
Lemma sort_by_z_sorted (l : list vec3) : sorted_by_z (sort_by_z l).
Proof.
  induction l as [|a l IH]; [constructor|]. cbn. now apply insert_by_z_sorted.
Qed.

Lemma sort_by_z_perm (l : list vec3) : Permutation (sort_by_z l) l.
Proof.
  induction l as [|a l IH]; [reflexivity|]. cbn.
  rewrite insert_by_z_perm. now constructor.
Qed.

(** Lines 193-283 run to their end: on a grid with dimensions that are
    not negative, a vertex count that is an [int] and a spacing that is not
    negative, with as many radii as positions and for any number of
    workers with which the counter does not wrap, both allocations, both
    calls of [par_for] and both fills return. *)
Lemma fields_return (env : environment) (g : grid) (a : atoms) :
  (0 <= xdim g)%Z -> (0 <= ydim g)%Z -> (0 <= zdim g)%Z ->
  (vertices g <= ParFor.int_max)%Z ->
  0 <= grid_spacing g ->
  List.length (radii a) = List.length (pos a) ->
  (zdim g + 1 + Z.of_nat (hardware_concurrency env) <= ParFor.int_max)%Z ->
  exists accessible excluded, fields env g a = Some (accessible, excluded).
Proof.
  intros Hx Hy Hz Hfit Hgs Hlen Hwrap. unfold fields.
  destruct (loop_bounds g Hx Hy Hz Hfit) as (_ & _ & Ez). rewrite Ez. cbn [bind].
  assert (Hm : 0 <= margin g) by (unfold margin, water_radius; lra).
  assert (Hb : (ParFor.int_min <= 0)%Z) by (unfold ParFor.int_min; lia).
  destruct (hardware_concurrency env) as [|n] eqn:Hn.
  - rewrite !par_for_no_workers. cbn [bind].
    destruct (accessible_field_untouched g (pos a) (radii a) Hx Hy Hz Hfit)
      as (acc & -> & Hl).
    cbn [bind].
    destruct (excluded_field_untouched g (sort_by_z (pos_mesh env g acc)) acc Hx Hy Hz Hfit)
      as (exc & ->).
    cbn [bind]. now exists acc, exc.
  - destruct (par_for_permutation 0 (zdim g + 1) (S n) (first_schedule env))
      as (zs1 & -> & Hp1); [exact Hb|lia|lia|].
    destruct (par_for_permutation 0 (zdim g + 1) (S n) (second_schedule env))
      as (zs2 & -> & Hp2); [exact Hb|lia|lia|].
    cbn [bind].
    destruct (accessible_field_values g (pos a) (radii a) zs1 Hx Hy Hz Hfit Hlen Hp1)
      as (acc & -> & Hl & _).
    cbn [bind].
    destruct (excluded_field_values g (sort_by_z (pos_mesh env g acc)) acc zs2
                Hx Hy Hz Hfit (sort_by_z_sorted _) Hm Hl Hp2)
      as (exc & -> & _).
    cbn [bind]. now exists acc, exc.
Qed.

End PipelineFacts.

Module ProgramFacts.
Import Geometry Grid Atoms CommandLine Program Examples GeometryFacts GridFacts.
Import CommandLineFacts.
Local Open Scope R_scope.

Lemma vec4_eqb_refl c : vec4_eqb c c = true.
Proof. unfold vec4_eqb. now rewrite !Reqb_true. Qed.

(** The grid of one atom of radius 1 at the origin with spacing 0.25:
    33 cells along each axis, corners at -4 and 4. *)
Lemma grid_extents_one_atom :
  exists g,
    grid_extents [mkVec3 0 0 0] [1] (1 / 4) = Some g /\
    xdim g = 33%Z /\ ydim g = 33%Z /\ zdim g = 33%Z /\
    vx (gmin g) = -4 /\ vx (gmax g) = 4.
Proof.
  unfold grid_extents, bounding_box, bbox_loop, max_radius.
  cbn [fold_left]. unfold vmin, vmax, vsubs, vadds.
  cbn [vx vy vz]. rewrite !fmin_Rmin, !fmax_Rmax.
  rewrite !(Rmin_right 0 (0 - 1)) by lra.
  rewrite !(Rmax_right 0 (0 + 1)) by lra.
  rewrite !(Rmax_right 0 1) by lra.
  rewrite !dimension_of_float by (unfold water_radius; lra).
  assert (Hd : dimension (0 - 1 - (water_radius + 1)) (0 + 1 + (water_radius + 1)) (1 / 4)
               = 33%Z).
  { unfold dimension, water_radius.
    rewrite (Zfloor_eq 32); [reflexivity|]. cbn [IZR]. simpl. lra. }
  rewrite Hd. cbn [fits_int]. 
  eexists. split; [reflexivity|]. cbn [xdim ydim zdim gmin gmax vx].
  unfold water_radius. repeat split; lra.
Qed.

(** C7 --- a selection without atoms.  No test for it stands before the
    bounding box: whenever the arguments name a file and hold no error,
    the chains are not just listed, and the chain loop collects no
    position, the constructor goes on to the bounding box, whose first
    statement reads [pos[0]] of the empty vector, and the run ends in
    undefined behaviour, not in a message (unless the loop over the colours
    has already read outside a vector). *)
Theorem empty_selection_faults (env : environment) (args : list string)
  (filename : string) (a : atoms) :
  pdb_filename (parse args defaults) = Some filename ->
  error (parse args defaults) = false ->
  list_chains (parse args defaults) = false ->
  collect (decode env filename) (chains (parse args defaults)) = Some a ->
  pos a = [] ->
  bounding_box (pos a) (radii a) = None /\
  molecules env args = Fault /\
  ~ reported (molecules env args).
Proof.
  intros Hf He Hl Hc Hp.
  assert (Hbox : bounding_box (pos a) (radii a) = None) by now rewrite Hp.
  assert (Hrun : molecules env args = Fault).
  { unfold molecules, run_with. rewrite Hf, He, Hl, Hc.
    destruct (Colour.colored_atoms a); [|reflexivity].
    unfold grid_extents. now rewrite Hbox. }
  split; [exact Hbox|]. split; [exact Hrun|].
  rewrite Hrun. unfold reported. discriminate.
Qed.

(** The same on a file that holds no atom, with the default chains. *)
Lemma empty_selection_faults_witness :
  collect no_chain "A-Z" = Some no_atoms /\
  bounding_box (pos no_atoms) (radii no_atoms) = None /\
  molecules empty_file ["empty.pdb"%string] = Fault /\
  ~ reported (molecules empty_file ["empty.pdb"%string]).
Proof.
  split; [reflexivity|].
  apply (empty_selection_faults empty_file ["empty.pdb"%string] "empty.pdb" no_atoms);
    reflexivity.
Defined.

End ProgramFacts.

Module ProgramTheorems.
Import Geometry Grid Atoms CommandLine Program Examples GeometryFacts GridFacts.
Import CommandLineFacts ProgramFacts PipelineFacts.
Local Open Scope string_scope.

(** What a run that opens the output file has passed. *)
Lemma run_with_wrote env o name :
  run_with env o = Wrote name ->
  exists filename,
    pdb_filename o = Some filename /\ error o = false /\ name = out_filename filename o.
Proof.
  unfold run_with. intros H.
  destruct (pdb_filename o) as [filename|]; [|discriminate].
  destruct (error o); [discriminate|].
  destruct (list_chains o); [discriminate|].
  destruct (collect _ _) as [a|]; [|discriminate].
  destruct (Colour.colored_atoms a); [|discriminate].
  destruct (grid_extents _ _ _) as [g|]; [|discriminate].
  destruct (fields env g a); [|discriminate].
  injection H as <-. now exists filename.
Qed.

(** The rest of the constructor never reads [output_path]. *)
Lemma run_with_same_but_output env o1 o2 :
  same_but_output o1 o2 -> run_with env o1 = run_with env o2.
Proof.
  intros (H1 & H2 & H3 & H4 & H5). unfold run_with, out_filename.
  now rewrite H1, H2, H3, H4, H5.
Qed.

(** The name never begins with a slash: the file is opened relative to
    the working directory. *)
Lemma out_filename_relative filename o :
  exists c rest, out_filename filename o = String c rest /\ is_slash c = false.
Proof.
  unfold out_filename, fmt_fbx, snprintf, buf_size.
  destruct (stem_is_stem filename) as (dir & ext & _ & _ & Hfree & _).
  destruct (stem filename) as [|c st].
  - cbn. eauto.
  - cbn in Hfree. apply andb_prop in Hfree as [Hc _]. apply negb_true_iff in Hc.
    cbn. eauto.
Qed.

(** C10, as amended --- the name of the output file.  A run that gets to
    open the output file had a file name and no error among its arguments,
    and the name it opens is the first 255 characters of
    [<stem>_<chains>_<spacing>.fbx] ([fmt] writes into a buffer of 256
    bytes): that text itself when it is no longer; [<stem>] is the input
    file name without directory and extension, [<chains>] and [<spacing>]
    are the texts given on the command line or their defaults.  The name
    does not begin with a slash, so the file is opened relative to the
    working directory.  An option [-o] with its value changes nothing of
    the run. *)
Theorem output_file_name (env : environment) :
  (forall args name,
      molecules env args = Wrote name ->
      let o := parse args defaults in
      exists filename,
        pdb_filename o = Some filename /\
        is_stem filename (stem filename) /\
        name = substring 0 255 (full_name filename o) /\
        ((String.length (full_name filename o) <= 255)%nat ->
           name = stem filename ++ "_" ++ chains o ++ "_" ++ grid_spacing_text o ++ ".fbx") /\
        (exists c rest, name = String c rest /\ is_slash c = false)) /\
  (forall o path rest,
      run_with env (parse ("-o" :: path :: rest) o) = run_with env (parse rest o)).
Proof.
  split.
  - intros args name Hrun o. unfold molecules in Hrun. fold o in Hrun.
    destruct (run_with_wrote env o name Hrun) as (filename & Hf & _ & ->).
    exists filename. split; [exact Hf|]. split; [apply stem_is_stem|].
    split; [reflexivity|]. split; [|apply out_filename_relative].
    intros Hlen. unfold out_filename, fmt_fbx, snprintf, buf_size.
    change (256 - 1)%nat with 255%nat.
    fold (full_name filename o). now apply substring_long.
  - intros o path rest. apply run_with_same_but_output.
    change (parse ("-o" :: path :: rest) o)
      with (parse rest (mkOptions (pdb_filename o) path (grid_spacing_text o)
                                  (error o) (list_chains o) (chains o))).
    apply parse_same_but_output. repeat split.
Qed.

Lemma small_file_runs o filename :
  pdb_filename o = Some filename -> error o = false -> list_chains o = false ->
  chains o = "A-Z" ->
  run_with small_file o = Wrote (out_filename filename o).
Proof.
  intros Hf He Hl Hc. unfold run_with. rewrite Hf, He, Hl, Hc.
  change (collect (decode small_file filename) "A-Z")
    with (Some (mkAtoms [mkVec3 0 0 0] [1%R] [mkVec4 1 1 1 1])).
  unfold Colour.colored_atoms. cbn [Colour.colored_loop colors pos radii].
  unfold Colour.white. rewrite vec4_eqb_refl.
  destruct grid_extents_one_atom as (g & Hg & Dx & Dy & Dz & _).
  cbn [atof small_file]. rewrite Hg.
  destruct (fields_return small_file g (mkAtoms [mkVec3 0 0 0] [1%R] [mkVec4 1 1 1 1]))
    as (acc & exc & ->); try reflexivity.
  - lia.
  - lia.
  - lia.
  - unfold vertices. rewrite Dx, Dy, Dz. vm_compute. discriminate.
  - rewrite (grid_extents_spacing _ _ _ _ Hg). lra.
  - rewrite Dz. vm_compute. discriminate.
Qed.

(** The same for a file with one atom, named with a directory, and an
    option [-o]. *)
Lemma output_file_name_witness :
  molecules small_file ["-o"; "out"; "dir/2PTC.pdb"] = Wrote "2PTC_A-Z_0.25.fbx" /\
  exists filename,
    pdb_filename (parse ["-o"; "out"; "dir/2PTC.pdb"] defaults) = Some filename /\
    is_stem filename (stem filename) /\
    "2PTC_A-Z_0.25.fbx"
    = substring 0 255 (full_name filename (parse ["-o"; "out"; "dir/2PTC.pdb"] defaults)).
Proof.
  assert (Hrun : molecules small_file ["-o"; "out"; "dir/2PTC.pdb"]
                 = Wrote "2PTC_A-Z_0.25.fbx").
  { unfold molecules. now rewrite (small_file_runs _ "dir/2PTC.pdb"). }
  split; [exact Hrun|].
  destruct (proj1 (output_file_name small_file) _ _ Hrun)
    as (filename & H1 & H2 & H3 & _).
  exists filename. auto.
Defined.

(** With a spacing text of 254 characters the text of the name has 267
    characters; the file that is opened has the first 255 of them as its
    name, without the extension. *)
Lemma long_spacing_text_is_cut :
  exists name,
    molecules small_file ["--grid-spacing"; long_text; "2PTC.pdb"] = Wrote name /\
    String.length name = 255%nat /\
    full_name "2PTC.pdb" (parse ["--grid-spacing"; long_text; "2PTC.pdb"] defaults)
    = name ++ "00000000.fbx" /\
    name <> full_name "2PTC.pdb" (parse ["--grid-spacing"; long_text; "2PTC.pdb"] defaults).
Proof.
  eexists. split.
  - unfold molecules. now rewrite (small_file_runs _ "2PTC.pdb").
  - split; [reflexivity|]. split; [reflexivity|].
    intros H. apply (f_equal String.length) in H. vm_compute in H. discriminate.
Qed.

End ProgramTheorems.

Module CommandLineMore.
Import Geometry Grid Atoms CommandLine Program Examples Notions CommandLineFacts.
Local Open Scope string_scope.

(** The three flags of the loop over the arguments only ever go up: an
    error stays, the wish to list the chains stays, a file name stays. *)
Lemma parse_keeps_flags args : forall o,
  (error o = true -> error (parse args o) = true) /\
  (list_chains o = true -> list_chains (parse args o) = true) /\
  (pdb_filename o <> None -> pdb_filename (parse args o) <> None).
Proof.
  remember (List.length args) as n eqn:Hn. revert args Hn.
  induction n as [n IH] using lt_wf_ind. intros args Hn o.
  destruct args as [|arg rest]; [auto|].
  assert (Hrest : forall o',
    (error o' = true -> error (parse rest o') = true) /\
    (list_chains o' = true -> list_chains (parse rest o') = true) /\
    (pdb_filename o' <> None -> pdb_filename (parse rest o') <> None)).
  { apply (IH (List.length rest)); [cbn in Hn; lia|reflexivity]. }
  cbn [parse]. destruct rest as [|value rest'].
  - repeat (match goal with |- context [if ?b then _ else _] => destruct b end);
      (split; [|split]); intros H; apply Hrest; cbn; try assumption; try discriminate;
      destruct (pdb_filename o); auto.
  - assert (Hrest' : forall o',
      (error o' = true -> error (parse rest' o') = true) /\
      (list_chains o' = true -> list_chains (parse rest' o') = true) /\
      (pdb_filename o' <> None -> pdb_filename (parse rest' o') <> None)).
    { apply (IH (List.length rest')); [cbn in Hn; lia|reflexivity]. }
    repeat (match goal with |- context [if ?b then _ else _] => destruct b end);
      (split; [|split]); intros H;
      first [apply Hrest' | apply Hrest]; cbn; try assumption; try discriminate;
      destruct (pdb_filename o); auto.
Qed.

Lemma error_is_usage env o : error o = true -> run_with env o = Usage.
Proof.
  intros H. unfold run_with. rewrite H. now destruct (pdb_filename o).
Qed.

Lemma dash_of_option arg :
  starts_with_dash arg = false ->
  takes_value arg = false /\ (arg =? "--help") = false /\ (arg =? "--list-chains") = false.
Proof.
  intros H. unfold takes_value.
  destruct arg as [|c arg]; [auto|]. cbn in H.
  assert (Hc : c <> "-"%char) by (intros ->; discriminate).
  assert (Hne : forall s, (String c arg =? String "-" s) = false).
  { intros s. apply String.eqb_neq. congruence. }
  now rewrite !Hne.
Qed.

(** X1 --- an argument that starts with a dash and is neither
    [--list-chains] nor one of [--grid-spacing], [--chains], [-o] followed
    by its value makes the run end with the usage text, whatever follows
    it on the command line: [--help], an unknown option, and a value
    option in last place. *)
Theorem rejected_argument_usage (env : environment) (arg : string) (rest : list string) :
  starts_with_dash arg = true ->
  arg <> "--list-chains" ->
  rest = [] \/ takes_value arg = false ->
  molecules env (arg :: rest) = Usage.
Proof.
  intros Hdash Hlist Hval. unfold molecules. apply error_is_usage.
  apply String.eqb_neq in Hlist.
  assert (Hplain : forall o,
    error (if arg =? "--help" then
             parse rest (mkOptions (pdb_filename o) (output_path o) (grid_spacing_text o)
                                   true (list_chains o) (chains o))
           else if arg =? "--list-chains" then
             parse rest (mkOptions (pdb_filename o) (output_path o) (grid_spacing_text o)
                                   (error o) true (chains o))
           else if starts_with_dash arg then
             parse rest (mkOptions (pdb_filename o) (output_path o) (grid_spacing_text o)
                                   true (list_chains o) (chains o))
           else
             parse rest (mkOptions (Some arg) (output_path o) (grid_spacing_text o)
                                   (match pdb_filename o with Some _ => true | None => error o end)
                                   (list_chains o) (chains o))) = true).
  { intros o. rewrite Hlist, Hdash.
    destruct (arg =? "--help"); now apply parse_keeps_flags. }
  cbn [parse]. destruct rest as [|value rest']; [apply Hplain|].
  destruct Hval as [Hnil|Hval]; [discriminate|].
  unfold takes_value in Hval.
  apply orb_false_elim in Hval as [Hval Ho]. apply orb_false_elim in Hval as [Hg Hc].
  rewrite Hg, Hc, Ho. apply Hplain.
Qed.

Lemma rejected_argument_usage_witness :
  molecules small_file ["--chains"] = Usage /\
  molecules small_file ["--help"; "2PTC.pdb"] = Usage /\
  molecules small_file ["--colour"; "2PTC.pdb"] = Usage.
Proof.
  split; [|split].
  - apply (rejected_argument_usage small_file "--chains" []);
      [reflexivity|discriminate|now left].
  - apply (rejected_argument_usage small_file "--help" ["2PTC.pdb"]);
      [reflexivity|discriminate|now right].
  - apply (rejected_argument_usage small_file "--colour" ["2PTC.pdb"]);
      [reflexivity|discriminate|now right].
Defined.

(** X2 --- two file names: when the command line starts with two
    arguments that do not start with a dash, the second is taken for a
    second file, which is an error: the run ends with the usage text,
    whatever follows. *)
Theorem two_files_usage (env : environment) (file1 file2 : string) (rest : list string) :
  starts_with_dash file1 = false ->
  starts_with_dash file2 = false ->
  molecules env (file1 :: file2 :: rest) = Usage.
Proof.
  intros H1 H2. unfold molecules. apply error_is_usage.
  destruct (dash_of_option file1 H1) as (V1 & Hh1 & Hl1).
  destruct (dash_of_option file2 H2) as (V2 & Hh2 & Hl2).
  unfold takes_value in V1, V2.
  apply orb_false_elim in V1 as [V1 O1]. apply orb_false_elim in V1 as [G1 C1].
  apply orb_false_elim in V2 as [V2 O2]. apply orb_false_elim in V2 as [G2 C2].
  cbn [parse]. rewrite G1, C1, O1, Hh1, Hl1, H1.
  cbn [pdb_filename defaults].
  destruct rest as [|value rest'];
    rewrite ?G2, ?C2, ?O2, Hh2, Hl2, H2; cbn [pdb_filename];
    now apply parse_keeps_flags.
Qed.

Lemma two_files_usage_witness :
  molecules small_file ["2PTC.pdb"; "1ABC.pdb"; "--chains"; "A"] = Usage.
Proof.
  apply (two_files_usage small_file "2PTC.pdb" "1ABC.pdb" ["--chains"; "A"]);
    reflexivity.
Defined.

(** X3 --- [--list-chains] in first place: the run ends with the usage
    text or with the list of the chains of the file; it collects no atom,
    so it cannot run into the bounding box of an empty selection, and it
    opens no output file, whatever else the command line holds. *)
Theorem list_chains_only (env : environment) (rest : list string) :
  no_file_outcome (molecules env ("--list-chains" :: rest)) = true /\
  (forall filename,
      pdb_filename (parse ("--list-chains" :: rest) defaults) = Some filename ->
      error (parse ("--list-chains" :: rest) defaults) = false ->
      molecules env ("--list-chains" :: rest)
      = ListedChains (pdb_chains (decode env filename))).
Proof.
  assert (Hlist : list_chains (parse ("--list-chains" :: rest) defaults) = true).
  { replace (parse ("--list-chains" :: rest) defaults)
      with (parse rest (mkOptions None "" "0.25" false true "A-Z"))
      by (destruct rest; reflexivity).
    now apply parse_keeps_flags. }
  unfold molecules, run_with. rewrite Hlist. split.
  - destruct (pdb_filename _); [|reflexivity]. now destruct (error _).
  - intros filename -> ->. reflexivity.
Qed.

Lemma list_chains_only_witness :
  no_file_outcome (molecules empty_file ["--list-chains"; "empty.pdb"]) = true /\
  molecules empty_file ["--list-chains"; "empty.pdb"]
  = ListedChains (pdb_chains (decode empty_file "empty.pdb")).
Proof.
  split.
  - apply (list_chains_only empty_file ["empty.pdb"]).
  - apply (proj2 (list_chains_only empty_file ["empty.pdb"]) "empty.pdb"); reflexivity.
Defined.

End CommandLineMore.

Module FileNameMore.
Import CommandLine Program Examples Notions CommandLineFacts.
Local Open Scope string_scope.

Lemma scan_slash_free p : forall last_slash,
  free_of is_slash p = true -> scan_slash p last_slash = last_slash.
Proof.
  induction p as [|x p IH]; intros last_slash H; [reflexivity|].
  cbn in *. apply andb_prop in H as [Hx Hp]. apply negb_true_iff in Hx.
  rewrite Hx. now apply IH.
Qed.

Lemma scan_slash_after d c b : forall last_slash,
  is_slash c = true ->
  scan_slash ((d ++ String c "") ++ b) last_slash = scan_slash b b.
Proof.
  induction d as [|x d IH]; intros last_slash Hc; cbn.
  - now rewrite Hc.
  - destruct (is_slash x); now apply IH.
Qed.

Lemma scan_dot_free p : forall at_ last_dot,
  free_of is_dot p = true -> scan_dot p at_ last_dot = last_dot.
Proof.
  induction p as [|x p IH]; intros at_ last_dot H; [reflexivity|].
  cbn in *. apply andb_prop in H as [Hx Hp]. apply negb_true_iff in Hx.
  unfold is_dot in Hx. rewrite Hx. now apply IH.
Qed.

Lemma scan_dot_last s e : forall at_ last_dot,
  free_of is_dot e = true ->
  scan_dot (s ++ String "." e) at_ last_dot = (at_ + String.length s)%nat.
Proof.
  induction s as [|x s IH]; intros at_ last_dot He; cbn.
  - rewrite scan_dot_free by assumption. lia.
  - destruct (Ascii.eqb x "."); rewrite IH by assumption; lia.
Qed.

(** X4 --- the stem is determined by the description: whenever a file
    name is a directory part (empty, or ending in a slash or backslash)
    followed by a text [st] and an extension (empty with no dot in [st],
    or a dot followed by a text without dot), with no slash in [st] or in
    the extension, the code computes [st].  So a dot inside the directory
    part is not taken for the extension, of several dots the last one
    counts, and a name without dot is its own stem. *)
Theorem stem_unique (filename st : string) :
  is_stem filename st -> stem filename = st.
Proof.
  intros (dir & ext & Hname & Hdir & Hfree & Hext). unfold stem.
  assert (Hbase : scan_slash filename filename = st ++ ext).
  { rewrite Hname at 1. destruct Hdir as [->|(d & c & -> & Hc)].
    - cbn [append]. rewrite scan_slash_free by assumption.
      now rewrite Hname.
    - rewrite scan_slash_after by assumption. now apply scan_slash_free. }
  rewrite Hbase. destruct Hext as [[-> Hst]|(e & -> & He)].
  - rewrite append_nil_r. rewrite scan_dot_free by assumption. apply substring_all.
  - rewrite scan_dot_last by assumption. cbn [Nat.add]. apply substring_prefix.
Qed.

Lemma stem_unique_witness :
  stem "../data.v2/2PTC.final.pdb" = "2PTC.final" /\
  stem "C:\models\2PTC" = "2PTC".
Proof.
  split.
  - apply (stem_unique "../data.v2/2PTC.final.pdb" "2PTC.final").
    exists "../data.v2/", ".pdb". split; [reflexivity|]. split.
    + right. exists "../data.v2", "/"%char. split; reflexivity.
    + split; [reflexivity|]. right. exists "pdb". split; reflexivity.
  - apply (stem_unique "C:\models\2PTC" "2PTC").
    exists "C:\models\", "". split; [reflexivity|]. split.
    + right. exists "C:\models", "\"%char. split; reflexivity.
    + split; [reflexivity|]. left. split; reflexivity.
Defined.

End FileNameMore.

Module ParForMore.
Import ParFor ParForFacts.
Local Open Scope Z_scope.

Lemma in_call_length (ws : list worker) : (List.length (in_call ws) <= List.length ws)%nat.
Proof.
  induction ws as [|w ws IH]; [reflexivity|]. destruct w; cbn; lia.
Qed.

Lemma claimed_length (s : state) : List.length (claimed s) = taken s.
Proof.
  unfold claimed, invoked, taken. now rewrite length_app, length_rev, length_map.
Qed.

(** X5 --- what [par_for] never does, at any moment of any run.  For any
    number of workers (none included) and a counter that does not wrap,
    after any sequence of turns, joined or not: the indices claimed so far,
    those whose call has returned and those a worker is in, are the first
    indices of the range [begin], ..., [end - 1], each once, in an order
    that depends on the interleaving; so [fn] is never called on an index
    outside the range and never twice on the same index, no more calls are
    under way than there are workers, and the counter has not gone beyond
    the larger of [begin] and [end] by more than the number of workers. *)
Theorem par_for_claims_first_indices (begin end_ : Z) (num_cpus : nat)
  (sched : list nat) (s : state) :
  int_min <= begin ->
  Z.max begin end_ + Z.of_nat num_cpus <= int_max ->
  run end_ sched (init begin num_cpus) = Some s ->
  Permutation (claimed s)
              (index_range begin (begin + Z.of_nat (List.length (claimed s)))) /\
  NoDup (claimed s) /\
  (forall i, In i (claimed s) -> begin <= i < end_) /\
  (List.length (in_call (workers s)) <= num_cpus)%nat /\
  begin <= idx s <= Z.max begin end_ + Z.of_nat num_cpus.
Proof.
  intros Hbegin Hwrap Hrun.
  pose proof (inv_run begin end_ num_cpus Hbegin Hwrap sched _ _
                (inv_init begin end_ num_cpus) Hrun) as [Hl Hi Hc Hb Hd].
  pose proof (retired_le (workers s)) as Hr. rewrite Hl in Hr.
  rewrite claimed_length.
  split; [exact Hc|]. split; [|split; [|split]].
  - eapply Permutation_NoDup; [symmetry; exact Hc|apply index_range_NoDup].
  - intros i Hin. apply (Permutation_in _ Hc), index_range_In in Hin. lia.
  - rewrite <- Hl. apply in_call_length.
  - lia.
Qed.

Lemma par_for_claims_first_indices_witness :
  Permutation (claimed (mkState 3 [Calling 2; Calling 1] [(0, 0%nat)]))
              (index_range 0 (0 + Z.of_nat (List.length
                 (claimed (mkState 3 [Calling 2; Calling 1] [(0, 0%nat)]))))) /\
  NoDup (claimed (mkState 3 [Calling 2; Calling 1] [(0, 0%nat)])) /\
  (forall i, In i (claimed (mkState 3 [Calling 2; Calling 1] [(0, 0%nat)])) -> 0 <= i < 3) /\
  (List.length (in_call (workers (mkState 3%Z [Calling 2%Z; Calling 1%Z] [(0%Z, 0%nat)]))) <= 2)%nat /\
  0 <= idx (mkState 3 [Calling 2; Calling 1] [(0, 0%nat)]) <= Z.max 0 3 + Z.of_nat 2.
Proof.
  apply (par_for_claims_first_indices 0 3 2 [0; 1; 0]%nat).
  - vm_compute. discriminate.
  - vm_compute. discriminate.
  - reflexivity.
Defined.

(** X6 --- the cost of [par_for].  With at least one worker and a counter
    that does not wrap, every run at whose end all workers have been joined
    took exactly one turn for each index of the range and one more for each
    worker (the fetch that made it leave), and left the counter at the
    larger of [begin] and [end] plus the number of workers. *)
Theorem par_for_turns (begin end_ : Z) (num_cpus : nat)
  (sched : list nat) (s : state) :
  int_min <= begin ->
  (1 <= num_cpus)%nat ->
  Z.max begin end_ + Z.of_nat num_cpus <= int_max ->
  run end_ sched (init begin num_cpus) = Some s ->
  returned s = true ->
  List.length sched = (Z.to_nat (end_ - begin) + num_cpus)%nat /\
  idx s = Z.max begin end_ + Z.of_nat num_cpus /\
  List.length (calls s) = Z.to_nat (end_ - begin).
Proof.
  intros Hbegin Hcpus Hwrap Hrun Hret.
  pose proof (inv_run begin end_ num_cpus Hbegin Hwrap sched _ _
                (inv_init begin end_ num_cpus) Hrun) as [Hl Hi Hc Hb Hd].
  pose proof (returned_no_call _ Hret) as Hno.
  apply returned_retired in Hret. rewrite Hl in Hret. rewrite Hret in *.
  specialize (Hd ltac:(lia)).
  apply run_progress in Hrun. rewrite progress_init in Hrun.
  unfold progress_of in Hrun. unfold taken in *. rewrite Hno, Hret in *.
  cbn [List.length] in *. lia.
Qed.

Lemma par_for_turns_witness :
  List.length [0; 1; 0; 0; 1]%nat = (Z.to_nat (3 - 0) + 2)%nat /\
  idx (mkState 5 [Left; Left] [(1, 1%nat); (2, 0%nat); (0, 0%nat)]) = Z.max 0 3 + Z.of_nat 2 /\
  List.length (calls (mkState 5 [Left; Left] [(1, 1%nat); (2, 0%nat); (0, 0%nat)]))
  = Z.to_nat (3 - 0).
Proof.
  apply (par_for_turns 0 3 2 [0; 1; 0; 0; 1]%nat).
  - vm_compute. discriminate.
  - lia.
  - vm_compute. discriminate.
  - reflexivity.
  - reflexivity.
Defined.

End ParForMore.

Module GridMore.
Import Geometry Grid Store GeometryFacts GridFacts StoreFacts ProgramFacts Examples.
Local Open Scope R_scope.

Lemma fmin_le a b : fmin a b <= a /\ fmin a b <= b.
Proof. rewrite fmin_Rmin. split; [apply Rmin_l|apply Rmin_r]. Qed.

Lemma fmax_ge a b : a <= fmax a b /\ b <= fmax a b.
Proof. rewrite fmax_Rmax. split; [apply Rmax_l|apply Rmax_r]. Qed.

(** The box of the loop only grows, and holds every atom met. *)
Lemma bbox_loop_holds (pos : list vec3) : forall radii mn mx mn' mx',
  bbox_loop pos radii mn mx = Some (mn', mx') ->
  (vx mn' <= vx mn /\ vy mn' <= vy mn /\ vz mn' <= vz mn) /\
  (vx mx <= vx mx' /\ vy mx <= vy mx' /\ vz mx <= vz mx') /\
  forall i p r, nth_error pos i = Some p -> nth_error radii i = Some r ->
    (vx mn' <= vx p - r /\ vy mn' <= vy p - r /\ vz mn' <= vz p - r) /\
    (vx p + r <= vx mx' /\ vy p + r <= vy mx' /\ vz p + r <= vz mx').
Proof.
  induction pos as [|p0 pos IH]; intros radii mn mx mn' mx' H; cbn in H.
  - injection H as <- <-. repeat split; try lra. all: destruct i; discriminate.
  - destruct radii as [|r0 radii]; [discriminate|].
    apply IH in H as ((Hx & Hy & Hz) & (Hx' & Hy' & Hz') & Hall).
    cbn [vmin vmax vsubs vadds vx vy vz] in *.
    pose proof (fmin_le (vx mn) (vx p0 - r0)). pose proof (fmin_le (vy mn) (vy p0 - r0)).
    pose proof (fmin_le (vz mn) (vz p0 - r0)). pose proof (fmax_ge (vx mx) (vx p0 + r0)).
    pose proof (fmax_ge (vy mx) (vy p0 + r0)). pose proof (fmax_ge (vz mx) (vz p0 + r0)).
    split; [lra|]. split; [lra|].
    intros [|i] p r Hp Hr; cbn in Hp, Hr.
    + injection Hp as <-. injection Hr as <-. lra.
    + exact (Hall i p r Hp Hr).
Qed.

Lemma max_radius_bounds (radii : list R) :
  0 <= max_radius radii /\ forall i r, nth_error radii i = Some r -> r <= max_radius radii.
Proof.
  unfold max_radius. destruct (fold_fmax_spec radii 0) as (H0 & Hall & _).
  split; [exact H0|]. intros i r Hr. apply Hall. eapply nth_error_In; eauto.
Qed.

(** The conversion of [(hi - lo) * (1 / spacing) + 1] for [lo <= hi]: a
    number of cells that is at least 1 and reaches beyond [hi]. *)
Lemma dimension_reaches lo hi spacing d :
  0 < spacing -> lo <= hi ->
  int_of_float ((hi - lo) * (1 / spacing) + 1) = Some d ->
  (1 <= d)%Z /\ hi < IZR d * spacing + lo /\ IZR d * spacing + lo <= hi + spacing.
Proof.
  intros Hs Hle Hd. rewrite dimension_of_float in Hd by assumption.
  destruct (fits_int _); [|discriminate]. injection Hd as <-. unfold dimension.
  set (q := (hi - lo) / spacing).
  assert (Hq : 0 <= q).
  { apply Rmult_le_pos; [lra|]. left. now apply Rinv_0_lt_compat. }
  pose proof (Zfloor_bound q) as [Hb1 Hb2].
  assert (H0 : (0 <= Zfloor q)%Z) by (apply Zfloor_lub; simpl; lra).
  rewrite plus_IZR. split; [lia|].
  assert (Hqs : q * spacing = hi - lo) by (unfold q; field; lra).
  split; nra.
Qed.

(** The corners and dimensions of a grid that the sizing yields. *)
Lemma grid_extents_holds (pos : list vec3) (radii : list R) (spacing : R)
  (g : grid) (i : nat) (p : vec3) (r : R) :
  0 < spacing ->
  grid_extents pos radii spacing = Some g ->
  nth_error pos i = Some p ->
  nth_error radii i = Some r ->
  (vx (gmin g) <= vx p - (r + water_radius) /\ vx p + (r + water_radius) <= vx (gmax g) /\
   vy (gmin g) <= vy p - (r + water_radius) /\ vy p + (r + water_radius) <= vy (gmax g) /\
   vz (gmin g) <= vz p - (r + water_radius) /\ vz p + (r + water_radius) <= vz (gmax g)) /\
  (1 <= xdim g /\ 1 <= ydim g /\ 1 <= zdim g)%Z /\
  vertex g 0 0 0 = gmin g /\
  (vx (gmax g) < vx (vertex g (xdim g) (ydim g) (zdim g)) <= vx (gmax g) + spacing /\
   vy (gmax g) < vy (vertex g (xdim g) (ydim g) (zdim g)) <= vy (gmax g) + spacing /\
   vz (gmax g) < vz (vertex g (xdim g) (ydim g) (zdim g)) <= vz (gmax g) + spacing).
Proof.
  intros Hs Hg Hp Hr. unfold grid_extents, bounding_box in Hg.
  destruct pos as [|p0 pos']; [discriminate|].
  destruct (bbox_loop (p0 :: pos') radii p0 p0) as [[min0 max0]|] eqn:Hbox; [|discriminate].
  apply bbox_loop_holds in Hbox as ((Hx & Hy & Hz) & (Hx' & Hy' & Hz') & Hall).
  specialize (Hall i p r Hp Hr) as ((Ax & Ay & Az) & (Bx & By & Bz)).
  destruct (max_radius_bounds radii) as [Hmr0 Hmr]. specialize (Hmr i r Hr).
  set (mr := max_radius radii) in *.
  cbn [vsubs vadds vx vy vz] in Hg.
  destruct (int_of_float ((vx max0 + (water_radius + mr) - (vx min0 - (water_radius + mr)))
                          * (1 / spacing) + 1)) as [xd|] eqn:Ex; [|discriminate].
  destruct (int_of_float ((vy max0 + (water_radius + mr) - (vy min0 - (water_radius + mr)))
                          * (1 / spacing) + 1)) as [yd|] eqn:Ey; [|discriminate].
  destruct (int_of_float ((vz max0 + (water_radius + mr) - (vz min0 - (water_radius + mr)))
                          * (1 / spacing) + 1)) as [zd|] eqn:Ez; [|discriminate].
  injection Hg as <-.
  unfold water_radius in *.
  apply dimension_reaches in Ex as (Dx & Lx & Ux); [|assumption|lra].
  apply dimension_reaches in Ey as (Dy & Ly & Uy); [|assumption|lra].
  apply dimension_reaches in Ez as (Dz & Lz & Uz); [|assumption|lra].
  unfold vertex, world. cbn [xdim ydim zdim gmin gmax grid_spacing vsubs vadds vx vy vz].
  split; [lra|]. split; [lia|]. split.
  - unfold vsubs. f_equal; ring.
  - lra.
Qed.



Local Open Scope Z_scope.

Lemma coords_in_grid g j :
  0 <= xdim g -> 0 <= ydim g -> 0 <= zdim g ->
  0 <= j < vertices g ->
  let '(x, y, z) := coords g j in in_grid g x y z /\ flat g x y z = j.
Proof.
  intros Hx Hy Hz Hj. unfold coords, in_grid, flat, vertices in *.
  set (X := xdim g + 1) in *. set (Y := ydim g + 1) in *. set (Z_ := zdim g + 1) in *.
  assert (HX : 0 < X) by (unfold X; lia). assert (HY : 0 < Y) by (unfold Y; lia).
  pose proof (Z.mod_pos_bound j X HX). pose proof (Z.mod_pos_bound (j / X) Y HY).
  pose proof (Z.div_mod j X ltac:(lia)) as E1.
  pose proof (Z.div_mod (j / X) Y ltac:(lia)) as E2.
  assert (0 <= j / X) by (apply Z.div_pos; lia).
  assert (0 <= j / X / Y) by (apply Z.div_pos; lia).
  assert (j / X / Y < Z_).
  { apply Z.div_lt_upper_bound; [lia|]. apply Z.div_lt_upper_bound; [lia|]. nia. }
  split; [unfold X, Y, Z_ in *; lia|].
  rewrite (Z.mul_comm (j / X / Y) Y), <- E2, (Z.mul_comm (j / X) X), <- E1. reflexivity.
Qed.

(** X8 --- the lambda [idx] numbers the vertices of the grid.  On a grid
    whose dimensions are not negative and whose vertex count
    [(xdim+1)*(ydim+1)*(zdim+1)] is a value [n] of [int]: for every vertex
    [(x, y, z)] with [0 <= x <= xdim], [0 <= y <= ydim], [0 <= z <= zdim] no
    operation of [idx] leaves the range of [int] and the result lies in
    [0], ..., [n - 1]; two different vertices (in particular vertices of two
    different slabs, which different workers may fill at the same time)
    never share an index; and every index below [n] belongs to a vertex.
    So every write of the fills lands inside the vector, and no element is
    left unwritten. *)
Theorem idx_numbers_the_vertices (g : grid) (n : Z) :
  0 <= xdim g -> 0 <= ydim g -> 0 <= zdim g ->
  vertex_count g = Some n ->
  (forall x y z, in_grid g x y z -> exists j, idx g x y z = Some j /\ 0 <= j < n) /\
  (forall x y z x' y' z' j, in_grid g x y z -> in_grid g x' y' z' ->
     idx g x y z = Some j -> idx g x' y' z' = Some j -> x = x' /\ y = y' /\ z = z') /\
  (forall j, 0 <= j < n ->
     exists x y z, in_grid g x y z /\ idx g x y z = Some j).
Proof.
  intros Hx Hy Hz Hn.
  destruct (vertex_count_inv g n Hx Hy Hz Hn) as (-> & Hfit & _).
  split; [|split].
  - intros x y z Hin. exists (flat g x y z). split; [now apply idx_flat|].
    now apply flat_range.
  - intros x y z x' y' z' j Hin Hin' Hj Hj'.
    rewrite (idx_flat g x y z Hfit Hin) in Hj.
    rewrite (idx_flat g x' y' z' Hfit Hin') in Hj'.
    apply (flat_inj g x y z x' y' z' Hin Hin'). congruence.
  - intros j Hj. pose proof (coords_in_grid g j Hx Hy Hz Hj) as H.
    destruct (coords g j) as [[x y] z]. destruct H as [Hin Hflat].
    exists x, y, z. split; [exact Hin|]. rewrite <- Hflat. now apply idx_flat.
Qed.

Lemma idx_numbers_the_vertices_witness :
  (exists j, idx unit_grid 1 0 1 = Some j /\ 0 <= j < 8) /\
  exists x y z, in_grid unit_grid x y z /\ idx unit_grid x y z = Some 5.
Proof.
  destruct (idx_numbers_the_vertices unit_grid 8) as (A & _ & C);
    try (cbn; lia); try reflexivity.
  split.
  - apply (A 1 0 1). cbv. repeat split; congruence.
  - apply (C 5). lia.
Defined.

End GridMore.

Module FieldsMore.
Import Geometry Grid Store Accessible Band Excluded Notions Examples.
Import GeometryFacts GridFacts StoreFacts AccessibleFacts BandFacts ExcludedFacts.
Import ExcludedTheorems ProgramFacts.
Local Open Scope R_scope.

Lemma huge_pos : 0 < huge.
Proof. unfold huge. apply pow_lt. lra. Qed.

Lemma atom_terms_In xyz (pos : list vec3) : forall radii t,
  In t (atom_terms xyz pos radii) <->
  exists i p r, nth_error pos i = Some p /\ nth_error radii i = Some r /\
    t = dist2 xyz p - (r + water_radius) * (r + water_radius).
Proof.
  unfold atom_terms.
  induction pos as [|p0 pos IH]; intros radii t; cbn [combine map].
  - split; [contradiction|]. intros ([|i] & p & r & Hp & _); discriminate.
  - destruct radii as [|r0 radii]; cbn [combine map].
    + split; [contradiction|]. intros ([|i] & p & r & _ & Hr & _); discriminate.
    + cbn [In fst snd]. rewrite IH. split.
      * intros [<-|(i & p & r & Hp & Hr & ->)].
        -- now exists 0%nat, p0, r0.
        -- now exists (S i), p, r.
      * intros ([|i] & p & r & Hp & Hr & ->); cbn in Hp, Hr.
        -- injection Hp as <-. injection Hr as <-. now left.
        -- right. now exists i, p, r.
Qed.

(** The running minimum of the atoms' terms is negative exactly inside an
    inflated atom. *)
Lemma accessible_sign (pos : list vec3) (radii : list R) (xyz : vec3) :
  fold_left fmin (atom_terms xyz pos radii) huge < 0 <->
  inside_inflated_atom pos radii xyz.
Proof.
  destruct (fold_fmin_spec (atom_terms xyz pos radii) huge) as (H1 & H2 & H3).
  pose proof huge_pos. unfold inside_inflated_atom. split.
  - intros Hneg. destruct H3 as [H3|H3]; [lra|].
    apply atom_terms_In in H3 as (i & p & r & Hp & Hr & Ht).
    exists i, p, r. split; [exact Hp|]. split; [exact Hr|]. lra.
  - intros (i & p & r & Hp & Hr & Hlt).
    assert (Hin : In (dist2 xyz p - (r + water_radius) * (r + water_radius))
                     (atom_terms xyz pos radii)).
    { apply atom_terms_In. now exists i, p, r. }
    specialize (H2 _ Hin). lra.
Qed.

(** X9 --- the sign of the accessible field.  On a grid whose dimensions
    are not negative and whose vertex count is a value of [int], after the
    first fill (the body called once on each slab, in any order), the value
    stored for a grid vertex is negative exactly when the vertex lies
    strictly inside some atom inflated by the probe radius: its squared
    distance to the centre of some atom [i] is below
    [(radii[i] + water_radius)^2].  The value never exceeds the sentinel
    [1e37]. *)
Theorem accessible_field_sign (g : grid) (pos : list vec3) (radii : list R)
  (zs : list Z) (n : Z) :
  (0 <= xdim g)%Z -> (0 <= ydim g)%Z -> (0 <= zdim g)%Z ->
  vertex_count g = Some n ->
  List.length radii = List.length pos ->
  Permutation zs (ParFor.index_range 0 (zdim g + 1)) ->
  exists accessible,
    accessible_field g pos radii zs = Some accessible /\
    forall x y z, in_grid g x y z ->
      exists j value,
        idx g x y z = Some j /\
        vec_get accessible j = Some value /\
        value <= huge /\
        (value < 0 <-> inside_inflated_atom pos radii (vertex g x y z)).
Proof.
  intros Hx Hy Hz Hn Hlen Hzs.
  destruct (vertex_count_inv g n Hx Hy Hz Hn) as (-> & Hfit & _).
  destruct (accessible_field_values g pos radii zs Hx Hy Hz Hfit Hlen Hzs)
    as (acc & Hrun & _ & Hval).
  exists acc. split; [exact Hrun|]. intros x y z Hin.
  exists (flat g x y z). eexists. split; [now apply idx_flat|].
  split; [apply Hval, Hin|]. split.
  - now destruct (fold_fmin_spec (atom_terms (vertex g x y z) pos radii) huge) as (H1 & _).
  - apply accessible_sign.
Qed.

Lemma accessible_field_sign_witness :
  exists accessible,
    accessible_field unit_grid [mkVec3 0 0 0] [1] [1%Z; 0%Z] = Some accessible /\
    forall x y z, in_grid unit_grid x y z ->
      exists j value,
        idx unit_grid x y z = Some j /\
        vec_get accessible j = Some value /\
        value <= huge /\
        (value < 0 <-> inside_inflated_atom [mkVec3 0 0 0] [1] (vertex unit_grid x y z)).
Proof.
  apply (accessible_field_sign unit_grid [mkVec3 0 0 0] [1] [1%Z; 0%Z] 8).
  - cbn. lia.
  - cbn. lia.
  - cbn. lia.
  - reflexivity.
  - reflexivity.
  - apply perm_swap.
Defined.

Lemma brute_force_In g (points : list vec3) zpos ypos r :
  In r (brute_force g points zpos ypos) <->
  In r points /\ zpos - margin g <= vz r <= zpos + margin g /\
  Rabs (vy r - ypos) <= margin g.
Proof.
  unfold brute_force, in_z_range, near_y. rewrite filter_In.
  destruct (Rleb_spec (zpos - margin g) (vz r)), (Rleb_spec (vz r) (zpos + margin g)),
    (Rleb_spec (Rabs (vy r - ypos)) (margin g)); cbn; split;
    intros [Hin H]; try discriminate; try (split; [exact Hin|]); try reflexivity;
    try lra; tauto.
Qed.

(** A point that the band leaves out is farther than the margin. *)
Lemma outside_band_far g (points : list vec3) xyz r :
  0 <= margin g ->
  In r points -> ~ In r (brute_force g points (vz xyz) (vy xyz)) ->
  margin g * margin g < dist2 xyz r.
Proof.
  intros Hm Hin Hout. rewrite brute_force_In in Hout.
  unfold dist2, dot, vsub. cbn [vx vy vz].
  pose proof (Rle_0_sqr (vx xyz - vx r)) as Sx. unfold Rsqr in Sx.
  pose proof (Rle_0_sqr (vy xyz - vy r)) as Sy. unfold Rsqr in Sy.
  pose proof (Rle_0_sqr (vz xyz - vz r)) as Sz. unfold Rsqr in Sz.
  destruct (Rle_dec (vz xyz - margin g) (vz r)) as [Hz1|Hz1]; [|nra].
  destruct (Rle_dec (vz r) (vz xyz + margin g)) as [Hz2|Hz2]; [|nra].
  destruct (Rle_dec (Rabs (vy r - vy xyz)) (margin g)) as [Hy|Hy]; [tauto|].
  apply Rnot_le_lt in Hy. unfold Rabs in Hy.
  destruct (Rcase_abs (vy r - vy xyz)); nra.
Qed.

Lemma nearest2_spec xyz (points : list vec3) :
  nearest2 xyz points <= huge /\
  (forall r, In r points -> nearest2 xyz points <= dist2 xyz r) /\
  (nearest2 xyz points = huge \/
   exists r, In r points /\ nearest2 xyz points = dist2 xyz r).
Proof.
  unfold nearest2.
  destruct (fold_fmin_spec (map (dist2 xyz) points) huge) as (H1 & H2 & H3).
  split; [exact H1|]. split.
  - intros r Hr. apply H2. now apply in_map.
  - destruct H3 as [H3|H3]; [now left|right].
    apply in_map_iff in H3 as (r & Hr & Hin). now exists r.
Qed.

(** X10 --- the band loses no near point.  On surface points sorted by
    [z] and a margin [water_radius + grid_spacing] that is not negative, the
    band computed for a row holds every surface point whose distance to a
    vertex [(x, ypos, zpos)] of the row is at most the margin; and whenever
    the least squared distance to all surface points is at most the margin
    squared, the least squared distance to the points of the band equals
    it: the search that is restricted to the band finds the nearest
    surface point. *)
Theorem band_keeps_near_points (g : grid) (zsorter : list vec3) (xyz : vec3) :
  sorted_by_z zsorter ->
  0 <= margin g ->
  exists ysorter,
    y_band g zsorter (vz xyz) (vy xyz) = Some ysorter /\
    (forall r, In r ysorter -> In r zsorter) /\
    (forall r, In r zsorter -> dist2 xyz r <= margin g * margin g -> In r ysorter) /\
    (nearest2 xyz zsorter <= margin g * margin g ->
       nearest2 xyz ysorter = nearest2 xyz zsorter).
Proof.
  intros Hs Hm. exists (brute_force g zsorter (vz xyz) (vy xyz)).
  split; [now apply y_band_spec|].
  set (band := brute_force g zsorter (vz xyz) (vy xyz)).
  assert (Hsub : forall r, In r band -> In r zsorter).
  { intros r Hr. now apply brute_force_In in Hr. }
  assert (Hnear : forall r, In r zsorter -> dist2 xyz r <= margin g * margin g -> In r band).
  { intros r Hin Hd. destruct (classic (In r band)) as [|Hout]; [assumption|].
    pose proof (outside_band_far g zsorter xyz r Hm Hin Hout). lra. }
  split; [exact Hsub|]. split; [exact Hnear|].
  intros Hclose.
  destruct (nearest2_spec xyz zsorter) as (A1 & A2 & A3).
  destruct (nearest2_spec xyz band) as (B1 & B2 & B3).
  apply Rle_antisym.
  - destruct A3 as [A3|(r & Hr & A3)]; [lra|].
    rewrite A3. apply B2, Hnear; [exact Hr|lra].
  - destruct B3 as [B3|(r & Hr & B3)]; [lra|].
    rewrite B3. apply A2, Hsub, Hr.
Qed.

Lemma band_keeps_near_points_witness :
  exists ysorter,
    y_band unit_grid three_points (vz (mkVec3 0 0 0)) (vy (mkVec3 0 0 0)) = Some ysorter /\
    (forall r, In r ysorter -> In r three_points) /\
    (forall r, In r three_points ->
       dist2 (mkVec3 0 0 0) r <= margin unit_grid * margin unit_grid -> In r ysorter) /\
    (nearest2 (mkVec3 0 0 0) three_points <= margin unit_grid * margin unit_grid ->
       nearest2 (mkVec3 0 0 0) ysorter = nearest2 (mkVec3 0 0 0) three_points).
Proof.
  apply (band_keeps_near_points unit_grid three_points (mkVec3 0 0 0)).
  - exact three_points_sorted.
  - unfold margin, water_radius, unit_grid. cbn [grid_spacing]. lra.
Defined.

(** The innermost block of the second fill: bounds and sign of its value. *)
Lemma excluded_value_sign (a : R) (band : list vec3) (xyz : vec3) :
  outside_value <= excluded_value a band xyz < huge /\
  (0 <= excluded_value a band xyz <->
   a < 0 /\ nearest2 xyz band < huge /\
   water_radius * water_radius <= nearest2 xyz band).
Proof.
  unfold excluded_value. rewrite fold_dist. fold (nearest2 xyz band).
  destruct (nearest2_spec xyz band) as (B1 & B2 & B3).
  pose proof huge_pos as Hh.
  assert (H0 : 0 <= nearest2 xyz band).
  { destruct B3 as [->|(r & _ & ->)]; [lra|].
    unfold dist2, dot.
    pose proof (Rle_0_sqr (vx (vsub xyz r))). pose proof (Rle_0_sqr (vy (vsub xyz r))).
    pose proof (Rle_0_sqr (vz (vsub xyz r))). unfold Rsqr in *. lra. }
  unfold outside_value, water_radius.
  destruct (Rltb_spec a 0) as [Ha|Ha].
  - destruct (Reqb_spec (nearest2 xyz band) huge) as [He|He].
    + split; [lra|]. split; intros; lra.
    + split; [lra|]. split; [intros; lra|]. intros; lra.
  - split; [lra|]. split; intros; lra.
Qed.

(** X11 --- the two fills together.  For atoms with as many radii as
    positions, a grid with dimensions that are not negative, a vertex count
    that is a value of [int] and a spacing that is not negative, and
    surface points sorted by [z]: both fills end, whatever the order in
    which the slabs are taken, and the value stored in the excluded field
    for a grid vertex lies between [-(water_radius^2)] and the sentinel; it
    is not negative exactly when the vertex lies strictly inside an
    inflated atom, the band of the vertex holds a point closer than the
    sentinel, and no surface point at all, in the band or not, is closer to
    the vertex than the probe radius. *)
Theorem excluded_field_sign (g : grid) (pos : list vec3) (radii : list R)
  (zsorter : list vec3) (zs1 zs2 : list Z) (n : Z) :
  (0 <= xdim g)%Z -> (0 <= ydim g)%Z -> (0 <= zdim g)%Z ->
  vertex_count g = Some n ->
  0 <= grid_spacing g ->
  List.length radii = List.length pos ->
  sorted_by_z zsorter ->
  Permutation zs1 (ParFor.index_range 0 (zdim g + 1)) ->
  Permutation zs2 (ParFor.index_range 0 (zdim g + 1)) ->
  exists accessible excluded,
    accessible_field g pos radii zs1 = Some accessible /\
    excluded_field g zsorter accessible zs2 = Some excluded /\
    forall x y z, in_grid g x y z ->
      let xyz := vertex g x y z in
      exists j e,
        idx g x y z = Some j /\
        vec_get excluded j = Some e /\
        outside_value <= e < huge /\
        (0 <= e <->
         inside_inflated_atom pos radii xyz /\
         nearest2 xyz (brute_force g zsorter (vz xyz) (vy xyz)) < huge /\
         forall r, In r zsorter -> water_radius * water_radius <= dist2 xyz r).
Proof.
  intros Hx Hy Hz Hn Hgs Hlen Hs Hzs1 Hzs2.
  destruct (vertex_count_inv g n Hx Hy Hz Hn) as (-> & Hfit & _).
  assert (Hm : 0 <= margin g) by (unfold margin, water_radius; lra).
  destruct (accessible_field_values g pos radii zs1 Hx Hy Hz Hfit Hlen Hzs1)
    as (acc & Hrun1 & Hsize & Hval).
  destruct (excluded_field_values g zsorter acc zs2 Hx Hy Hz Hfit Hs Hm Hsize Hzs2)
    as (exc & Hrun2 & _ & Heval).
  exists acc, exc. split; [exact Hrun1|]. split; [exact Hrun2|].
  intros x y z Hin xyz.
  destruct (Heval x y z Hin) as (a & Ha & He). fold xyz in He.
  rewrite (Hval x y z Hin) in Ha. injection Ha as Ha. fold xyz in Ha.
  set (band := brute_force g zsorter (vz xyz) (vy xyz)) in *.
  exists (flat g x y z). eexists. split; [now apply idx_flat|]. split; [exact He|].
  destruct (excluded_value_sign a band xyz) as [Hb Hsign].
  split; [exact Hb|]. rewrite Hsign, <- Ha, accessible_sign.
  destruct (nearest2_spec xyz band) as (B1 & B2 & B3).
  split; intros (H1 & H2 & H3); (split; [exact H1|]); (split; [exact H2|]).
  - intros r Hr. destruct (classic (In r band)) as [Hb'|Hout].
    + specialize (B2 r Hb'). lra.
    + pose proof (outside_band_far g zsorter xyz r Hm Hr Hout) as Hfar.
      unfold margin, water_radius in *. nra.
  - destruct B3 as [B3|(r & Hr & B3)]; [lra|].
    rewrite B3. apply H3. unfold band in Hr. now apply brute_force_In in Hr.
Qed.

Lemma excluded_field_sign_witness :
  exists accessible excluded,
    accessible_field unit_grid [mkVec3 0 0 0] [1] [1%Z; 0%Z] = Some accessible /\
    excluded_field unit_grid three_points accessible [0%Z; 1%Z] = Some excluded /\
    forall x y z, in_grid unit_grid x y z ->
      let xyz := vertex unit_grid x y z in
      exists j e,
        idx unit_grid x y z = Some j /\
        vec_get excluded j = Some e /\
        outside_value <= e < huge /\
        (0 <= e <->
         inside_inflated_atom [mkVec3 0 0 0] [1] xyz /\
         nearest2 xyz (brute_force unit_grid three_points (vz xyz) (vy xyz)) < huge /\
         forall r, In r three_points -> water_radius * water_radius <= dist2 xyz r).
Proof.
  apply (excluded_field_sign unit_grid [mkVec3 0 0 0] [1] three_points [1%Z; 0%Z] [0%Z; 1%Z] 8).
  - cbn. lia.
  - cbn. lia.
  - cbn. lia.
  - reflexivity.
  - cbn. lra.
  - reflexivity.
  - exact three_points_sorted.
  - apply perm_swap.
  - apply Permutation_refl.
Defined.

(** A vertex on a face of the grid lies in no inflated atom. *)
Lemma boundary_not_inside (pos : list vec3) (radii : list R) (spacing : R) (g : grid)
  (x y z : Z) :
  0 < spacing ->
  Forall (Rle 0) radii ->
  grid_extents pos radii spacing = Some g ->
  (x = 0 \/ x = xdim g \/ y = 0 \/ y = ydim g \/ z = 0 \/ z = zdim g)%Z ->
  ~ inside_inflated_atom pos radii (vertex g x y z).
Proof.
  intros Hs Hnn Hg Hface (i & p & r & Hp & Hr & Hlt).
  destruct (GridMore.grid_extents_holds pos radii spacing g i p r Hs Hg Hp Hr)
    as ((Ax & Bx & Ay & By & Az & Bz) & _ & Hv0 & (Lx & Ly & Lz)).
  assert (Hr0 : 0 <= r).
  { rewrite Forall_forall in Hnn. eapply Hnn, nth_error_In, Hr. }
  apply (f_equal vx) in Hv0 as Vx. apply (f_equal vy) in Hv0 as Vy.
  apply (f_equal vz) in Hv0 as Vz.
  unfold dist2, dot, vsub, vertex, world, water_radius in *.
  cbn [vx vy vz] in *.
  pose proof (Rle_0_sqr (IZR x * grid_spacing g + vx (gmin g) - vx p)) as Sx.
  pose proof (Rle_0_sqr (IZR y * grid_spacing g + vy (gmin g) - vy p)) as Sy.
  pose proof (Rle_0_sqr (IZR z * grid_spacing g + vz (gmin g) - vz p)) as Sz.
  unfold Rsqr in *.
  destruct Hface as [->|[->|[->|[->|[->| ->]]]]]; nra.
Qed.

(** X12 --- the surface stays inside the grid.  For a positive spacing,
    radii that are not negative and as many as positions, whenever the
    sizing yields a grid whose vertex count is a value of [int]: no vertex
    on one of the six faces of the grid lies in an inflated atom; after the
    two fills (surface points sorted by [z], each slab taken once) the
    accessible value of such a vertex is not negative and its excluded
    value is [-(water_radius^2)].  Both fields have the sign of the outside
    on the whole boundary of the grid. *)
Theorem grid_boundary_is_outside (pos : list vec3) (radii : list R) (spacing : R)
  (g : grid) (zsorter : list vec3) (zs1 zs2 : list Z) (n : Z) :
  0 < spacing ->
  List.length radii = List.length pos ->
  Forall (Rle 0) radii ->
  grid_extents pos radii spacing = Some g ->
  vertex_count g = Some n ->
  sorted_by_z zsorter ->
  Permutation zs1 (ParFor.index_range 0 (zdim g + 1)) ->
  Permutation zs2 (ParFor.index_range 0 (zdim g + 1)) ->
  exists accessible excluded,
    accessible_field g pos radii zs1 = Some accessible /\
    excluded_field g zsorter accessible zs2 = Some excluded /\
    forall x y z, in_grid g x y z ->
      (x = 0 \/ x = xdim g \/ y = 0 \/ y = ydim g \/ z = 0 \/ z = zdim g)%Z ->
      ~ inside_inflated_atom pos radii (vertex g x y z) /\
      exists j value,
        idx g x y z = Some j /\
        vec_get accessible j = Some value /\ 0 <= value /\
        vec_get excluded j = Some outside_value.
Proof.
  intros Hs Hlen Hnn Hg Hn Hsorted Hzs1 Hzs2.
  assert (Hm : 0 <= margin g).
  { unfold margin, water_radius. rewrite (grid_extents_spacing _ _ _ _ Hg). lra. }
  assert (Hdims : (0 <= xdim g /\ 0 <= ydim g /\ 0 <= zdim g)%Z).
  { destruct pos as [|p0 pos'].
    - unfold grid_extents, bounding_box in Hg. discriminate.
    - destruct radii as [|r0 radii']; [discriminate|].
      destruct (GridMore.grid_extents_holds (p0 :: pos') (r0 :: radii') spacing g 0 p0 r0
                  Hs Hg eq_refl eq_refl) as (_ & (Dx & Dy & Dz) & _).
      lia. }
  destruct Hdims as (Hx & Hy & Hz).
  destruct (vertex_count_inv g n Hx Hy Hz Hn) as (-> & Hfit & _).
  destruct (accessible_field_values g pos radii zs1 Hx Hy Hz Hfit Hlen Hzs1)
    as (acc & Hrun1 & Hsize & Hval).
  destruct (excluded_field_values g zsorter acc zs2 Hx Hy Hz Hfit Hsorted Hm Hsize Hzs2)
    as (exc & Hrun2 & _ & Heval).
  exists acc, exc. split; [exact Hrun1|]. split; [exact Hrun2|].
  intros x y z Hin Hface.
  pose proof (boundary_not_inside pos radii spacing g x y z Hs Hnn Hg Hface) as Hout.
  split; [exact Hout|].
  assert (H0 : 0 <= fold_left fmin (atom_terms (vertex g x y z) pos radii) huge).
  { apply Rnot_lt_le. intros Hneg. now apply Hout, accessible_sign. }
  exists (flat g x y z). eexists. split; [now apply idx_flat|].
  split; [apply Hval, Hin|]. split; [exact H0|].
  destruct (Heval x y z Hin) as (a & Ha & He).
  rewrite (Hval x y z Hin) in Ha. injection Ha as Ha. rewrite He. f_equal.
  apply (proj1 (excluded_value_cases a _ _)). rewrite <- Ha. exact H0.
Qed.

Lemma grid_boundary_is_outside_witness :
  exists g accessible excluded,
    grid_extents [mkVec3 0 0 0] [1] (1 / 4) = Some g /\
    accessible_field g [mkVec3 0 0 0] [1] (ParFor.index_range 0 (zdim g + 1))
    = Some accessible /\
    excluded_field g [] accessible (ParFor.index_range 0 (zdim g + 1)) = Some excluded /\
    exists j value,
      idx g 0 0 0 = Some j /\
      vec_get accessible j = Some value /\ 0 <= value /\
      vec_get excluded j = Some outside_value.
Proof.
  destruct grid_extents_one_atom as (g & Hg & Dx & Dy & Dz & _).
  assert (Hn : vertex_count g = Some 39304%Z).
  { unfold vertex_count. rewrite Dx, Dy, Dz. reflexivity. }
  destruct (grid_boundary_is_outside [mkVec3 0 0 0] [1] (1 / 4) g []
              (ParFor.index_range 0 (zdim g + 1)) (ParFor.index_range 0 (zdim g + 1)) 39304)
    as (acc & exc & H1 & H2 & H3).
  - lra.
  - reflexivity.
  - constructor; [lra|constructor].
  - exact Hg.
  - exact Hn.
  - constructor.
  - apply Permutation_refl.
  - apply Permutation_refl.
  - exists g, acc, exc. split; [exact Hg|]. split; [exact H1|]. split; [exact H2|].
    destruct (H3 0%Z 0%Z 0%Z) as (_ & j & value & Hv).
    + unfold in_grid. lia.
    + now left.
    + now exists j, value.
Defined.

End FieldsMore.

Module SearchMore.
Import Geometry Grid Band BandFacts.

(** On any list, sorted or not, the search loop ends inside the searched
    part, at a place where the test changes from true to false. *)
Lemma bsearch_boundary {A : Type} (before : A -> bool) (l : list A) (first len : nat) :
  (first + len <= List.length l)%nat ->
  exists k,
    bsearch before l first len = Some k /\
    (first <= k <= first + len)%nat /\
    ((first < k)%nat -> exists a, nth_error l (k - 1) = Some a /\ before a = true) /\
    ((k < first + len)%nat -> exists a, nth_error l k = Some a /\ before a = false).
Proof.
  funelim (bsearch before l first len); intros Hlen;
    try (pose proof (div2_lt n) as Hd; clear Heqcall;
         set (d := Nat.div2 (S n)) in *; clearbody d).
  - exists first. split; [reflexivity|]. split; [lia|]. split; intros; lia.
  - exfalso. apply nth_error_None in Heq. lia.
  - destruct H as (k & Hk & Hb & Hlo & Hhi); [lia|].
    exists k. split; [exact Hk|]. split; [lia|]. split.
    + intros _. destruct (Nat.eq_dec k (first + d + 1)) as [->|Hne].
      * exists a. split; [|exact Heq].
        now replace (first + d + 1 - 1)%nat with (first + d)%nat by lia.
      * apply Hlo. lia.
    + intros Hlt. apply Hhi. lia.
  - destruct H as (k & Hk & Hb & Hlo & Hhi); [lia|].
    exists k. split; [exact Hk|]. split; [lia|]. split.
    + exact Hlo.
    + intros _. destruct (Nat.eq_dec k (first + d)) as [->|Hne].
      * now exists a.
      * apply Hhi. lia.
Qed.

(** X13 --- [std::lower_bound] and [std::upper_bound] stay inside the
    vector.  On every vector, sorted or not, and for every comparison, both
    searches end and return a position between the beginning and the end
    of the vector, the end included; no element outside the vector is
    read.  The element before the position returned by [lower_bound], if
    there is one, is less than the value, and the element at the position,
    if there is one, is not; for [upper_bound], the value is not less than
    the element before, and is less than the element at the position. *)
Theorem searches_stay_inside {A : Type} (l : list A) (value : A) (comp : A -> A -> bool) :
  (exists p,
     lower_bound l value comp = Some p /\ (p <= List.length l)%nat /\
     ((0 < p)%nat -> exists a, nth_error l (p - 1) = Some a /\ comp a value = true) /\
     ((p < List.length l)%nat -> exists a, nth_error l p = Some a /\ comp a value = false)) /\
  (exists q,
     upper_bound l value comp = Some q /\ (q <= List.length l)%nat /\
     ((0 < q)%nat -> exists a, nth_error l (q - 1) = Some a /\ comp value a = false) /\
     ((q < List.length l)%nat -> exists a, nth_error l q = Some a /\ comp value a = true)).
Proof.
  split.
  - destruct (bsearch_boundary (fun a => comp a value) l 0 (List.length l))
      as (p & Hp & Hb & Hlo & Hhi); [lia|].
    exists p. split; [exact Hp|]. split; [lia|]. split; assumption.
  - destruct (bsearch_boundary (fun a => negb (comp value a)) l 0 (List.length l))
      as (q & Hq & Hb & Hlo & Hhi); [lia|].
    exists q. split; [exact Hq|]. split; [lia|]. split.
    + intros H. destruct (Hlo H) as (a & Ha & Hc). exists a. split; [exact Ha|].
      now apply negb_true_iff in Hc.
    + intros H. destruct (Hhi H) as (a & Ha & Hc). exists a. split; [exact Ha|].
      now apply negb_false_iff in Hc.
Qed.

End SearchMore.

Module ColourMore.
Import Geometry Grid Atoms Colour Notions Examples.
Import GeometryFacts ColourFacts ColourTheorems.
Local Open Scope R_scope.

(** X14 --- the colour of a vertex is a proper colour.  For coloured
    atoms whose red, green and blue are not negative, at every position
    [egen] yields a colour whose alpha is 1, whose red, green and blue
    form a vector of length 1, and each of which lies above 0 and not
    above 1. *)
Theorem egen_unit_colour (atoms_ : list colored_atom) (xyz : vec3) :
  Forall (fun a => nonneg_rgb (color a)) atoms_ ->
  exists c,
    egen_color atoms_ xyz = Some c /\
    cw c = 1 /\
    cx c * cx c + cy c * cy c + cz c * cz c = 1 /\
    0 < cx c <= 1 /\ 0 < cy c <= 1 /\ 0 < cz c <= 1.
Proof.
  intros Hnn.
  pose proof (blend_above xyz atoms_ (mkVec4 1 1 1 1) Hnn) as Hab.
  fold (blend xyz atoms_) in Hab.
  specialize (Hab ltac:(unfold above_white; cbn; lra)).
  pose proof (dot4_above _ Hab) as Hd. fold (to_normalize xyz atoms_) in Hd.
  unfold egen_color. rewrite normalize_some by lra.
  set (v := to_normalize xyz atoms_) in *. set (d := dot4 v v) in *.
  assert (Hs : sqrt d * sqrt d = d) by (apply sqrt_sqrt; lra).
  assert (Hs0 : 0 < sqrt d) by (apply sqrt_lt_R0; lra).
  set (s := sqrt d) in *.
  eexists. split; [reflexivity|]. cbn [option_map set_w vscale4 cx cy cz cw].
  split; [reflexivity|].
  destruct Hab as (Bx & By & Bz).
  assert (Hv : cx v = cx (blend xyz atoms_) /\ cy v = cy (blend xyz atoms_) /\
               cz v = cz (blend xyz atoms_)) by (unfold v, to_normalize; cbn; auto).
  destruct Hv as (Ex & Ey & Ez). rewrite <- Ex, <- Ey, <- Ez in *.
  assert (Hdv : d = cx v * cx v + cy v * cy v + cz v * cz v).
  { unfold d, dot4, v, to_normalize. cbn [set_w cx cy cz cw]. ring. }
  assert (Hi : 0 < 1 / s) by (apply Rdiv_lt_0_compat; lra).
  assert (Hone : cx v * (1 / s) * (cx v * (1 / s)) + cy v * (1 / s) * (cy v * (1 / s))
                 + cz v * (1 / s) * (cz v * (1 / s)) = 1).
  { replace (cx v * (1 / s) * (cx v * (1 / s)) + cy v * (1 / s) * (cy v * (1 / s))
             + cz v * (1 / s) * (cz v * (1 / s)))
      with ((cx v * cx v + cy v * cy v + cz v * cz v) * (1 / (s * s))) by (field; lra).
    rewrite <- Hdv, Hs. field. lra. }
  split; [exact Hone|].
  assert (Px : 0 < cx v * (1 / s)) by (apply Rmult_lt_0_compat; lra).
  assert (Py : 0 < cy v * (1 / s)) by (apply Rmult_lt_0_compat; lra).
  assert (Pz : 0 < cz v * (1 / s)) by (apply Rmult_lt_0_compat; lra).
  repeat split; try assumption; nra.
Qed.

Lemma egen_unit_colour_witness :
  exists c,
    egen_color [red_atom] beside_red_atom = Some c /\
    cw c = 1 /\
    cx c * cx c + cy c * cy c + cz c * cz c = 1 /\
    0 < cx c <= 1 /\ 0 < cy c <= 1 /\ 0 < cz c <= 1.
Proof.
  apply (egen_unit_colour [red_atom] beside_red_atom).
  constructor; [|constructor]. unfold nonneg_rgb, red_atom. cbn [color cx cy cz]. lra.
Defined.

Lemma blend_filter xyz (atoms_ : list colored_atom) : forall c,
  fold_left (blend_step xyz) atoms_ c
  = fold_left (blend_step xyz) (filter (contributes xyz) atoms_) c.
Proof.
  induction atoms_ as [|a atoms_ IH]; intros c; [reflexivity|].
  cbn [fold_left filter]. unfold contributes at 1.
  destruct (Rltb 0 (weight_of xyz a)) eqn:Hw.
  - cbn [fold_left]. apply IH.
  - rewrite <- IH. f_equal. unfold blend_step. now rewrite Hw.
Qed.

Lemma contributes_near xyz a :
  contributes xyz a = true <-> dist2 xyz (apos a) < 4 * (radius a * radius a).
Proof.
  unfold contributes, weight_of.
  destruct (Rltb_spec 0 ((radius a * radius a * 4 - dist2 xyz (apos a)) * 1));
    split; intros; try discriminate; try reflexivity; lra.
Qed.

(** X15 --- the colour is local.  The colour [egen] gives a position is
    the one it gives with only the atoms that contribute there, and an atom
    contributes exactly when the squared distance from the position to its
    centre is below [4 * radius^2], that is within twice its radius.  So at
    a position that is at least twice the radius away from every coloured
    atom the colour is white normalised. *)
Theorem egen_is_local (atoms_ : list colored_atom) (xyz : vec3) :
  egen_color atoms_ xyz = egen_color (filter (contributes xyz) atoms_) xyz /\
  (forall a, In a (filter (contributes xyz) atoms_) <->
     In a atoms_ /\ dist2 xyz (apos a) < 4 * (radius a * radius a)) /\
  ((forall a, In a atoms_ -> 4 * (radius a * radius a) <= dist2 xyz (apos a)) ->
   egen_color atoms_ xyz = Some normalized_white).
Proof.
  assert (Heq : egen_color atoms_ xyz = egen_color (filter (contributes xyz) atoms_) xyz).
  { unfold egen_color, to_normalize, blend. now rewrite blend_filter. }
  split; [exact Heq|]. split.
  - intros a. rewrite filter_In, contributes_near. reflexivity.
  - intros Hfar. rewrite Heq.
    replace (filter (contributes xyz) atoms_) with (@nil colored_atom).
    + apply egen_color_white.
    + symmetry. apply BandFacts.filter_none. apply Forall_forall. intros a Ha.
      specialize (Hfar a Ha). destruct (contributes xyz a) eqn:Hc; [|reflexivity].
      apply contributes_near in Hc. lra.
Qed.

Lemma egen_is_local_witness :
  egen_color [red_atom] (mkVec3 2 0 0)
  = egen_color (filter (contributes (mkVec3 2 0 0)) [red_atom]) (mkVec3 2 0 0) /\
  egen_color [red_atom] (mkVec3 2 0 0) = Some normalized_white.
Proof.
  destruct (egen_is_local [red_atom] (mkVec3 2 0 0)) as (A & _ & C).
  split; [exact A|]. apply C.
  intros a [<-|[]]. unfold red_atom, dist2, dot, vsub. cbn [apos radius vx vy vz]. lra.
Defined.

End ColourMore.

Module SelectionMore.
Import ChainSelector Geometry Grid Atoms Colour CommandLine Program Notions Examples.
Import ChainSelectorFacts GeometryFacts GridFacts ProgramFacts.

Lemma expand_ends_upto (n : nat) : forall s,
  (String.length s <= n)%nat -> no_last_char s = true ->
  exists ids, expand s = Some ids.
Proof.
  induction n as [|n IH]; intros s Hlen Hs.
  - destruct s; [now exists []|cbn in Hlen; lia].
  - destruct s as [|c rest]; [now exists []|].
    cbn [String.length] in Hlen.
    unfold no_last_char in Hs. cbn [list_ascii_of_string forallb] in Hs.
    apply andb_prop in Hs as [_ Hrest]. fold (no_last_char rest) in Hrest.
    destruct (IH rest ltac:(lia) Hrest) as [ids Hids].
    assert (Hplain : exists ids', app_opt [c] (expand rest) = Some ids').
    { rewrite Hids. now eexists. }
    cbn [expand]. destruct rest as [|p1 [|p2 rest']]; try exact Hplain.
    destruct (Ascii.eqb p1 dash && (schar p2 >=? schar p1))%Z eqn:Hrange;
      [|exact Hplain].
    apply andb_prop in Hrange as [Hdash Hge]. apply Ascii.eqb_eq in Hdash. subst p1.
    rewrite schar_dash in *.
    unfold no_last_char in Hrest. cbn [list_ascii_of_string forallb] in Hrest.
    apply andb_prop in Hrest as [_ Hrest]. apply andb_prop in Hrest as [Hp2 Hrest'].
    fold (no_last_char rest') in Hrest'.
    apply negb_true_iff, Z.eqb_neq in Hp2. pose proof (schar_bounds p2) as Hb.
    rewrite range_loop_run; [|lia|lia|unfold range_fuel; lia].
    cbn [String.length] in Hlen.
    destruct (IH rest' ltac:(lia) Hrest') as [ids' Hids']. rewrite Hids'.
    now eexists.
Qed.

(** X16 --- the chain loop ends on every selector that holds no character
    of value 127: [expand] yields the list of the calls of [addChain], and
    a run with such a selector never hangs in the chain loop.  (The counter
    of a range is a [char]; only a range that ends in the last [char] value
    can keep it from passing its bound.) *)
Theorem selector_loop_ends (s : string) :
  no_last_char s = true ->
  (exists ids, expand s = Some ids) /\
  (forall pdb, exists a, collect pdb s = Some a) /\
  (forall env o, chains o = s -> run_with env o = Hangs -> False).
Proof.
  intros Hs. destruct (expand_ends_upto (String.length s) s (le_n _) Hs) as [ids Hids].
  split; [now exists ids|]. split.
  - intros pdb. unfold collect. rewrite Hids. now eexists.
  - intros env o Hc. unfold run_with, collect. rewrite Hc, Hids.
    destruct (pdb_filename o); [|discriminate].
    destruct (error o); [discriminate|].
    destruct (list_chains o); [discriminate|].
    destruct (colored_atoms _); [|discriminate].
    destruct (grid_extents _ _ _) as [g|]; [|discriminate].
    destruct (fields env g _); discriminate.
Qed.

Lemma selector_loop_ends_witness :
  (exists ids, expand "A-Z" = Some ids) /\
  (forall pdb, exists a, collect pdb "A-Z" = Some a) /\
  (forall env o, chains o = "A-Z"%string -> run_with env o = Hangs -> False).
Proof.
  apply (selector_loop_ends "A-Z"). reflexivity.
Defined.

Lemma fold_addChain pdb (ids : list ascii) : forall a,
  fold_left (addChain pdb) ids a
  = mkAtoms (pos a ++ flat_map (pdb_pos pdb) ids)
            (radii a ++ flat_map (pdb_radii pdb) ids)
            (colors a ++ flat_map (pdb_colorsByFunction pdb) ids).
Proof.
  induction ids as [|c ids IH]; intros a; cbn [fold_left flat_map].
  - rewrite !app_nil_r. now destruct a.
  - rewrite IH. unfold addChain. cbn [pos radii colors]. now rewrite <- !app_assoc.
Qed.

Lemma flat_map_length_eq {A B C : Type} (f : A -> list B) (h : A -> list C) (l : list A) :
  (forall x, List.length (f x) = List.length (h x)) ->
  List.length (flat_map f l) = List.length (flat_map h l).
Proof.
  intros H. induction l as [|x l IH]; [reflexivity|].
  cbn [flat_map]. now rewrite !length_app, H, IH.
Qed.

Lemma collect_flat_map pdb chains_ a :
  collect pdb chains_ = Some a ->
  exists ids,
    expand chains_ = Some ids /\
    pos a = flat_map (pdb_pos pdb) ids /\
    radii a = flat_map (pdb_radii pdb) ids /\
    colors a = flat_map (pdb_colorsByFunction pdb) ids.
Proof.
  unfold collect. destruct (expand chains_) as [ids|]; [|discriminate].
  intros H. injection H as <-. exists ids. rewrite fold_addChain. cbn. auto.
Qed.

Lemma collect_same_lengths pdb chains_ a :
  aligned pdb -> collect pdb chains_ = Some a -> same_lengths a.
Proof.
  intros Hal H. unfold same_lengths.
  apply collect_flat_map in H as (ids & _ & -> & -> & ->).
  split; apply flat_map_length_eq; intros c; now destruct (Hal c).
Qed.

(** X17 --- the selection is the concatenation of the chains.  When the
    chain loop ends, the three vectors hold the positions, the radii and
    the colours of the chains [addChain] was called on, chain after chain
    in the order of the calls, a chain named twice being taken twice; for a
    decoder that returns as many radii and colours as positions for every
    chain, the three vectors have the same length, so that [radii[i]] and
    [colors[i]] exist for every position [pos[i]]. *)
Theorem collect_concatenates (pdb : pdb_decoder) (chains_ : string) (a : atoms) :
  collect pdb chains_ = Some a ->
  (exists ids,
     expand chains_ = Some ids /\
     pos a = flat_map (pdb_pos pdb) ids /\
     radii a = flat_map (pdb_radii pdb) ids /\
     colors a = flat_map (pdb_colorsByFunction pdb) ids) /\
  (aligned pdb -> same_lengths a).
Proof.
  intros H. split.
  - now apply collect_flat_map.
  - intros Hal. eapply collect_same_lengths; eauto.
Qed.

Lemma one_atom_aligned : aligned one_atom.
Proof. intros c. unfold one_atom. cbn. now destruct (Ascii.eqb c "A"). Qed.

Lemma collect_concatenates_witness :
  (exists ids,
     expand "AA" = Some ids /\
     pos (mkAtoms [mkVec3 0 0 0; mkVec3 0 0 0] [1%R; 1%R] [mkVec4 1 1 1 1; mkVec4 1 1 1 1])
     = flat_map (pdb_pos one_atom) ids /\
     radii (mkAtoms [mkVec3 0 0 0; mkVec3 0 0 0] [1%R; 1%R] [mkVec4 1 1 1 1; mkVec4 1 1 1 1])
     = flat_map (pdb_radii one_atom) ids /\
     colors (mkAtoms [mkVec3 0 0 0; mkVec3 0 0 0] [1%R; 1%R] [mkVec4 1 1 1 1; mkVec4 1 1 1 1])
     = flat_map (pdb_colorsByFunction one_atom) ids) /\
  (aligned one_atom ->
   same_lengths (mkAtoms [mkVec3 0 0 0; mkVec3 0 0 0] [1%R; 1%R]
                         [mkVec4 1 1 1 1; mkVec4 1 1 1 1])).
Proof.
  apply (collect_concatenates one_atom "AA"). reflexivity.
Defined.

Lemma colored_loop_non_white (colors_ : list vec4) : forall pos_ radii_,
  (List.length colors_ <= List.length pos_)%nat ->
  (List.length colors_ <= List.length radii_)%nat ->
  colored_loop colors_ pos_ radii_
  = Some (map (fun t => mkColored (fst t) (fst (snd t)) (snd (snd t)))
              (filter (fun t => negb (vec4_eqb (fst t) white))
                      (combine colors_ (combine pos_ radii_)))).
Proof.
  induction colors_ as [|c colors_ IH]; intros pos_ radii_ Hp Hr; [reflexivity|].
  destruct pos_ as [|p pos_]; [cbn in Hp; lia|].
  destruct radii_ as [|r radii_]; [cbn in Hr; lia|].
  cbn [List.length] in Hp, Hr.
  cbn [colored_loop combine filter fst snd tl].
  rewrite (IH pos_ radii_) by lia.
  destruct (vec4_eqb c white); reflexivity.
Qed.

Lemma nth_error_combine3 {A B C : Type} (i : nat) :
  forall (cs : list A) (ps : list B) (rs : list C) c p r,
  nth_error (combine cs (combine ps rs)) i = Some (c, (p, r)) ->
  nth_error cs i = Some c /\ nth_error ps i = Some p /\ nth_error rs i = Some r.
Proof.
  induction i as [|i IH]; intros [|c0 cs] [|p0 ps] [|r0 rs] c p r H;
    cbn in H; try discriminate.
  - injection H as -> -> ->. auto.
  - now apply IH.
Qed.

(** X18 --- the coloured atoms are the atoms that are not white.  When
    every colour has a position and a radius at its index, the loop over
    the colours ends without reading outside a vector and keeps, in order,
    each atom whose colour differs from white [(1, 1, 1, 1)], with the
    position and the radius of the same index; white atoms are left out, so
    no coloured atom is white and there are at most as many as colours. *)
Theorem colored_atoms_are_the_non_white (a : atoms) :
  (List.length (colors a) <= List.length (pos a))%nat ->
  (List.length (colors a) <= List.length (radii a))%nat ->
  colored_atoms a = Some (non_white a) /\
  (forall k, In k (non_white a) ->
     vec4_eqb (color k) white = false /\
     exists i, nth_error (colors a) i = Some (color k) /\
               nth_error (pos a) i = Some (apos k) /\
               nth_error (radii a) i = Some (radius k)) /\
  (List.length (non_white a) <= List.length (colors a))%nat.
Proof.
  intros Hp Hr. split; [|split].
  - unfold colored_atoms, non_white. now apply colored_loop_non_white.
  - intros k Hk. unfold non_white in Hk.
    apply in_map_iff in Hk as ([c [p r]] & <- & Hin).
    apply filter_In in Hin as [Hin Hw]. cbn [fst snd] in *.
    cbn [color apos radius]. split; [now apply negb_true_iff in Hw|].
    apply In_nth_error in Hin as [i Hi]. exists i.
    now apply nth_error_combine3.
  - unfold non_white. rewrite length_map.
    etransitivity; [apply filter_length_le|]. rewrite length_combine. lia.
Qed.

Lemma colored_atoms_are_the_non_white_witness :
  colored_atoms (mkAtoms [mkVec3 0 0 0; mkVec3 1 0 0] [1%R; 2%R]
                         [mkVec4 1 1 1 1; mkVec4 1 0 0 1])
  = Some (non_white (mkAtoms [mkVec3 0 0 0; mkVec3 1 0 0] [1%R; 2%R]
                             [mkVec4 1 1 1 1; mkVec4 1 0 0 1])) /\
  (List.length (non_white (mkAtoms [mkVec3 0 0 0; mkVec3 1 0 0] [1%R; 2%R]
                                   [mkVec4 1 1 1 1; mkVec4 1 0 0 1])) <= 2)%nat.
Proof.
  destruct (colored_atoms_are_the_non_white
              (mkAtoms [mkVec3 0 0 0; mkVec3 1 0 0] [1%R; 2%R]
                       [mkVec4 1 1 1 1; mkVec4 1 0 0 1])) as (A & _ & C).
  - cbn. lia.
  - cbn. lia.
  - split; [exact A|exact C].
Defined.

End SelectionMore.

Module RunMore.
Import Geometry Grid Store Atoms Colour CommandLine Program Notions Examples.
Import GeometryFacts GridFacts StoreFacts PipelineFacts ProgramFacts.
Local Open Scope R_scope.

Lemma Zfloor_le_int x n : x <= IZR n -> (Zfloor x <= n)%Z.
Proof.
  intros H. pose proof (Zfloor_bound x) as [Hb _]. apply le_IZR. lra.
Qed.

(** The fold of the minimum stays above a lower bound of all it meets. *)
Lemma fold_fmin_above (l : list R) a b :
  b <= a -> (forall w, In w l -> b <= w) -> b <= fold_left fmin l a.
Proof.
  intros Ha Hl. destruct (fold_fmin_spec l a) as (_ & _ & [->|Hin]); auto.
Qed.

Lemma fold_fmax_below (l : list R) a b :
  a <= b -> (forall w, In w l -> w <= b) -> fold_left fmax l a <= b.
Proof.
  intros Ha Hl. destruct (fold_fmax_spec l a) as (_ & _ & [->|Hin]); auto.
Qed.

Lemma lower_In (coord : vec3 -> R) (pos : list vec3) (radii : list R) w :
  In w (lower coord pos radii) -> exists p r, In p pos /\ In r radii /\ w = coord p - r.
Proof.
  unfold lower. intros H. apply in_map_iff in H as ([p r] & <- & Hin).
  exists p, r. split; [eapply in_combine_l; eauto|]. split; [eapply in_combine_r; eauto|].
  reflexivity.
Qed.

Lemma upper_In (coord : vec3 -> R) (pos : list vec3) (radii : list R) w :
  In w (upper coord pos radii) -> exists p r, In p pos /\ In r radii /\ w = coord p + r.
Proof.
  unfold upper. intros H. apply in_map_iff in H as ([p r] & <- & Hin).
  exists p, r. split; [eapply in_combine_l; eauto|]. split; [eapply in_combine_r; eauto|].
  reflexivity.
Qed.

(** Along one coordinate: for atoms within [B] of the origin with radii
    between 0 and [B], the dimension is at most [N] as soon as [6 B + 4] is
    at most [N - 1] spacings. *)
Lemma dimension_fits (coord : vec3 -> R) (pos : list vec3) (radii : list R)
  (p0 : vec3) (B spacing : R) (N : Z) :
  (forall p, In p (p0 :: pos) -> - B <= coord p <= B) ->
  (forall r, In r radii -> 0 <= r <= B) ->
  0 <= B -> 0 < spacing ->
  (N <= ParFor.int_max)%Z ->
  6 * B + 4 <= (IZR N - 1) * spacing ->
  let lo := fold_left fmin (lower coord (p0 :: pos) radii) (coord p0)
            - (water_radius + max_radius radii) in
  let hi := fold_left fmax (upper coord (p0 :: pos) radii) (coord p0)
            + (water_radius + max_radius radii) in
  exists d, int_of_float ((hi - lo) * (1 / spacing) + 1) = Some d /\ (0 <= d <= N)%Z.
Proof.
  intros Hp Hr HB Hs HN Hfit lo hi.
  assert (Hmn : - (2 * B) <= fold_left fmin (lower coord (p0 :: pos) radii) (coord p0)
                <= coord p0).
  { split.
    - apply fold_fmin_above.
      + specialize (Hp p0 ltac:(now left)). lra.
      + intros w Hw. apply lower_In in Hw as (p & r & Hpin & Hrin & ->).
        specialize (Hp p Hpin). specialize (Hr r Hrin). lra.
    - now destruct (fold_fmin_spec (lower coord (p0 :: pos) radii) (coord p0)) as (H & _). }
  assert (Hmx : coord p0 <= fold_left fmax (upper coord (p0 :: pos) radii) (coord p0)
                <= 2 * B).
  { split.
    - now destruct (fold_fmax_spec (upper coord (p0 :: pos) radii) (coord p0)) as (H & _).
    - apply fold_fmax_below.
      + specialize (Hp p0 ltac:(now left)). lra.
      + intros w Hw. apply upper_In in Hw as (p & r & Hpin & Hrin & ->).
        specialize (Hp p Hpin). specialize (Hr r Hrin). lra. }
  assert (Hmr : 0 <= max_radius radii <= B).
  { unfold max_radius. split.
    - now destruct (fold_fmax_spec radii 0) as (H & _).
    - apply fold_fmax_below; [exact HB|]. intros w Hw. now apply Hr. }
  assert (Hle : lo <= hi) by (unfold lo, hi, water_radius; lra).
  rewrite dimension_of_float by assumption.
  assert (H0 : 0 <= (hi - lo) / spacing).
  { apply Rmult_le_pos; [lra|]. left. now apply Rinv_0_lt_compat. }
  assert (Hlow : (0 <= Zfloor ((hi - lo) / spacing))%Z) by (apply Zfloor_lub; simpl; lra).
  assert (Hup : (Zfloor ((hi - lo) / spacing) <= N - 1)%Z).
  { apply Zfloor_le_int. rewrite minus_IZR.
    apply (Rmult_le_reg_r spacing); [exact Hs|].
    replace ((hi - lo) / spacing * spacing) with (hi - lo) by (field; lra).
    unfold lo, hi, water_radius. lra. }
  assert (Hd : fits_int (dimension lo hi spacing) = true).
  { unfold fits_int, dimension. apply Z.leb_le. lia. }
  rewrite Hd. eexists. split; [reflexivity|]. unfold dimension. lia.
Qed.

(** X19 --- when the run gets to its end.  The arguments name a file and
    hold no error and no [--list-chains]; the decoder returns as many radii
    and colours as positions for every chain; the chain loop ends with at
    least one atom; every coordinate of every selected atom lies within
    [B] of the origin and every radius between 0 and [B]; the spacing is
    positive, and [6 B + 4] is at most 254 spacings, so that no dimension
    exceeds 255 and the vertex count is at most [256^3]; and the workers
    are few enough for the counter of [par_for] not to wrap.  Then no
    vector is read outside its bounds, the dimensions and the vertex count
    are values of [int], both allocations, both calls of [par_for] and both
    fills return, and the run goes on to open the output file.  (The two
    field vectors, of at most [256^3] floats each, are taken to fit into
    memory, and the mesher and the encoder to return.) *)
Theorem run_gets_to_the_output (env : environment) (o : options) (filename : string)
  (a : atoms) (B : R) :
  pdb_filename o = Some filename ->
  error o = false ->
  list_chains o = false ->
  aligned (decode env filename) ->
  collect (decode env filename) (chains o) = Some a ->
  pos a <> [] ->
  Forall (fun p => - B <= vx p <= B /\ - B <= vy p <= B /\ - B <= vz p <= B) (pos a) ->
  Forall (fun r => 0 <= r <= B) (radii a) ->
  0 < atof env (grid_spacing_text o) ->
  6 * B + 4 <= 254 * atof env (grid_spacing_text o) ->
  (Z.of_nat (hardware_concurrency env) + 256 <= ParFor.int_max)%Z ->
  (exists atoms_, colored_atoms a = Some atoms_) /\
  (exists g n accessible excluded,
     grid_extents (pos a) (radii a) (atof env (grid_spacing_text o)) = Some g /\
     vertex_count g = Some n /\ (n <= 256 * 256 * 256)%Z /\
     fields env g a = Some (accessible, excluded)) /\
  run_with env o = Wrote (out_filename filename o).
Proof.
  intros Hf He Hl Hal Hcol Hne Hpos Hrad Hs Hfit Hcpus.
  destruct (SelectionMore.collect_same_lengths _ _ _ Hal Hcol) as [Lr Lc].
  assert (Hca : exists atoms_, colored_atoms a = Some atoms_).
  { unfold colored_atoms. rewrite SelectionMore.colored_loop_non_white by lia.
    now eexists. }
  set (spacing := atof env (grid_spacing_text o)) in *.
  assert (Hg : exists g, grid_extents (pos a) (radii a) spacing = Some g /\
                         (0 <= xdim g <= 255 /\ 0 <= ydim g <= 255 /\
                          0 <= zdim g <= 255)%Z).
  { destruct (pos a) as [|p0 pos'] eqn:Ep; [contradiction|].
    rewrite Forall_forall in Hpos, Hrad.
    assert (HB : 0 <= B).
    { destruct (radii a) as [|r0 rs]; [discriminate|].
      specialize (Hrad r0 ltac:(now left)). lra. }
    assert (HN : (255 <= ParFor.int_max)%Z) by (vm_compute; discriminate).
    assert (Hfit' : 6 * B + 4 <= (IZR 255 - 1) * spacing) by lra.
    unfold grid_extents, bounding_box.
    destruct (bbox_loop_spec (p0 :: pos') (radii a) p0 p0 Lr)
      as (min0 & max0 & -> & (Hx & Hy & Hz) & (Hx' & Hy' & Hz')).
    cbn [vsubs vadds vx vy vz]. rewrite Hx, Hy, Hz, Hx', Hy', Hz'.
    destruct (dimension_fits vx pos' (radii a) p0 B spacing 255) as (xd & -> & Dx);
      try assumption.
    { intros p Hp. now destruct (Hpos p Hp). }
    destruct (dimension_fits vy pos' (radii a) p0 B spacing 255) as (yd & -> & Dy);
      try assumption.
    { intros p Hp. now destruct (Hpos p Hp) as (_ & ? & _). }
    destruct (dimension_fits vz pos' (radii a) p0 B spacing 255) as (zd & -> & Dz);
      try assumption.
    { intros p Hp. now destruct (Hpos p Hp) as (_ & _ & ?). }
    eexists. split; [reflexivity|]. cbn [xdim ydim zdim]. auto. }
  destruct Hg as (g & Hg & Dx & Dy & Dz).
  assert (Hfits : (vertices g <= 256 * 256 * 256)%Z).
  { unfold vertices.
    assert (0 <= (xdim g + 1) * (ydim g + 1) <= 256 * 256)%Z by nia. nia. }
  assert (Hint : (vertices g <= ParFor.int_max)%Z).
  { etransitivity; [exact Hfits|]. vm_compute. discriminate. }
  destruct (fields_return env g a) as (acc & exc & Hfields); try lia; try assumption.
  { rewrite (grid_extents_spacing _ _ _ _ Hg). lra. }
  split; [exact Hca|]. split.
  - exists g, (vertices g), acc, exc. split; [exact Hg|].
    split; [apply vertex_count_some; lia|]. split; assumption.
  - destruct Hca as [atoms_ Hca].
    unfold run_with. rewrite Hf, He, Hl, Hcol, Hca. fold spacing. now rewrite Hg, Hfields.
Qed.

Lemma run_gets_to_the_output_witness :
  (exists atoms_,
     colored_atoms (mkAtoms [mkVec3 0 0 0] [1] [mkVec4 1 1 1 1]) = Some atoms_) /\
  (exists g n accessible excluded,
     grid_extents [mkVec3 0 0 0] [1] (1 / 4) = Some g /\
     vertex_count g = Some n /\ (n <= 256 * 256 * 256)%Z /\
     fields small_file g (mkAtoms [mkVec3 0 0 0] [1] [mkVec4 1 1 1 1])
     = Some (accessible, excluded)) /\
  molecules small_file ["--chains"; "A"; "2PTC.pdb"]%string = Wrote "2PTC_A_0.25.fbx".
Proof.
  apply (run_gets_to_the_output small_file (parse ["--chains"; "A"; "2PTC.pdb"]%string defaults)
           "2PTC.pdb" (mkAtoms [mkVec3 0 0 0] [1] [mkVec4 1 1 1 1]) 1).
  - reflexivity.
  - reflexivity.
  - reflexivity.
  - exact SelectionMore.one_atom_aligned.
  - reflexivity.
  - discriminate.
  - constructor; [|constructor]. cbn [vx vy vz]. lra.
  - constructor; [|constructor]. lra.
  - cbn [atof small_file]. lra.
  - cbn [atof small_file]. lra.
  - vm_compute. discriminate.
Defined.

(** Where the vertex count is no [int]: once the sizing has yielded a
    grid of 1313 cells along each axis, as it does for atoms that reach 160
    from the origin with a spacing of 1/4, the size of the first vector is
    undefined and the run does not get to the output file. *)
Lemma fields_overflow (env : environment) (a : atoms) : fields env wide_grid a = None.
Proof.
  unfold fields.
  replace (ParFor.int_result (zdim wide_grid + 1)) with (Some 1314%Z)
    by (vm_compute; reflexivity).
  cbn [bind].
  destruct (ParFor.par_for _ _ _ _) as [zs1|]; [|reflexivity]. cbn [bind].
  now rewrite (proj1 (proj2 (proj2 (AccessibleFacts.wide_grid_overflows (pos a) (radii a) zs1)))).
Qed.

End RunMore.
